(** * Device Trust Shim: the SHA-256 engine and the audit chain

    A shallow embedding of [include/dts/audit_chain.hpp].

    - [uint8_t], [uint32_t] and [uint64_t] values are integers of [Z] whose
      wrap-around is written out with [Z.land] or [mod];
    - [std::string] is [string] (a sequence of 8-bit characters);
    - [std::array<uint8_t, 32>] (a digest) is a [list Z] of 32 bytes;
    - the two members of [AuditChain] that mutate the object ([log]) return
      the new object next to their result;
    - a C++ exception leaving a function is the [Throw] outcome of [result].

    Platform facts the header relies on and that are fixed here: [size_t] is
    64 bits wide, and the host is little-endian (the length trailer of
    [SHA256::finalize] is read back byte by byte from a [uint64_t]). *)

From Stdlib Require Import ZArith List String Ascii Bool Lia Permutation.
Import ListNotations.
Local Open Scope string_scope.
Local Open Scope Z_scope.

(** ** Characters and text helpers shared by both classes *)

(** The double quote character, code 34. *)
Definition dquote : ascii := "034"%char.
(** The backslash character, code 92. *)
Definition bslash : ascii := "092"%char.

Definition q : string := String dquote EmptyString.

Definition byte_of_char (c : ascii) : Z := Z.of_N (N_of_ascii c).

Definition bytes_of_string (s : string) : list Z :=
  map byte_of_char (list_ascii_of_string s).

(** [std::string::substr] without the range check, and its complement. *)
Fixpoint take (n : nat) (s : string) : string :=
  match n, s with
  | S n', String c s' => String c (take n' s')
  | _, _ => EmptyString
  end.

Fixpoint drop (n : nat) (s : string) : string :=
  match n, s with
  | S n', String _ s' => drop n' s'
  | _, _ => s
  end.

(** Digits as [operator<<] prints them under [std::dec] and [std::hex]
    (lower case, no prefix). *)
Definition digit_char (d : Z) : ascii :=
  match d with
  | 0 => "0" | 1 => "1" | 2 => "2" | 3 => "3" | 4 => "4"
  | 5 => "5" | 6 => "6" | 7 => "7" | 8 => "8" | 9 => "9"
  | 10 => "a" | 11 => "b" | 12 => "c" | 13 => "d" | 14 => "e"
  | _ => "f"
  end%char.

Fixpoint render_digits (fuel : nat) (base n : Z) (acc : string) : string :=
  match fuel with
  | O => acc
  | S fuel' =>
      let acc' := String (digit_char (n mod base)) acc in
      if n / base =? 0 then acc' else render_digits fuel' base (n / base) acc'
  end.

(** A non-negative integer in the given base; the fuel is the bit length,
    an upper bound of the number of digits. *)
Definition render_unsigned (base n : Z) : string :=
  render_digits (S (Z.to_nat (Z.log2 n))) base n EmptyString.

(** [os << n] for an [int] under [std::dec]. *)
Definition render_int (n : Z) : string :=
  if n <? 0 then String "-" (render_unsigned 10 (- n)) else render_unsigned 10 n.

(** [os << std::hex << n] for a non-negative [int]. *)
Definition render_hex (n : Z) : string := render_unsigned 16 n.

(** [std::setfill(fill) << std::setw(w)]: right-adjusted in a field of [w]. *)
Definition setw (w : nat) (fill : ascii) (s : string) : string :=
  (fix pad (k : nat) : string :=
     match k with O => s | S k' => String fill (pad k') end)
    (w - String.length s)%nat.

(** [p] is a prefix of [s]. *)
Fixpoint prefixb (p s : string) : bool :=
  match p, s with
  | EmptyString, _ => true
  | String a p', String b s' => Ascii.eqb a b && prefixb p' s'
  | String _ _, EmptyString => false
  end.

(** [s.find(needle)]: the first position at which [needle] occurs, [None]
    for [std::string::npos]. *)
Fixpoint find (s needle : string) : option nat :=
  if prefixb needle s then Some O
  else match s with
       | EmptyString => None
       | String _ s' => option_map S (find s' needle)
       end.

(** [s.find(c)] and [s.find(c, pos)] for a single character. *)
Fixpoint find_char (s : string) (c : ascii) : option nat :=
  match s with
  | EmptyString => None
  | String a s' => if Ascii.eqb a c then Some O else option_map S (find_char s' c)
  end.

Definition find_char_from (s : string) (c : ascii) (pos : nat) : option nat :=
  option_map (Nat.add pos) (find_char (drop pos s) c).

(** ** Exceptions *)

Inductive exn : Type := invalid_argument | out_of_range.

(** The outcome of a call that may leave by an exception. *)
Inductive result (A : Type) : Type :=
| Ret (a : A)
| Throw (e : exn).
Arguments Ret {A} a.
Arguments Throw {A} e.

Definition bind {A B : Type} (r : result A) (f : A -> result B) : result B :=
  match r with
  | Ret a => f a
  | Throw e => Throw e
  end.

Notation "x <- r ;; k" := (bind r (fun x => k))
  (at level 61, r at next level, right associativity).

(** [str.substr(pos, n)], which throws when [pos > str.size()]. *)
Definition substr (str : string) (pos n : nat) : result string :=
  if (String.length str <? pos)%nat then Throw out_of_range
  else Ret (take n (drop pos str)).

(** [std::isspace] in the C locale. *)
Definition isspace (c : ascii) : bool :=
  let n := byte_of_char c in (n =? 32) || ((9 <=? n) && (n <=? 13)).

Definition hex_value (c : ascii) : option Z :=
  let n := byte_of_char c in
  if (48 <=? n) && (n <=? 57) then Some (n - 48)
  else if (97 <=? n) && (n <=? 102) then Some (n - 87)
  else if (65 <=? n) && (n <=? 70) then Some (n - 55)
  else None.

Fixpoint skip_spaces (s : string) : string :=
  match s with
  | String c s' => if isspace c then skip_spaces s' else s
  | EmptyString => s
  end.

Fixpoint hex_digits_value (s : string) (acc : Z) : Z :=
  match s with
  | String c s' =>
      match hex_value c with
      | Some d => hex_digits_value s' (acc * 16 + d)
      | None => acc
      end
  | EmptyString => acc
  end.

(** [std::stoi(str, nullptr, 16)], that is [strtol] in base 16: leading
    white space, an optional sign, an optional [0x], then the longest run of
    hexadecimal digits; what follows the run is ignored.  No digit at all
    throws [std::invalid_argument], a value outside [int] throws
    [std::out_of_range]. *)
Definition stoi16 (str : string) : result Z :=
  let s1 := skip_spaces str in
  let '(negative, s2) :=
    match s1 with
    | String "-" r => (true, r)
    | String "+" r => (false, r)
    | _ => (false, s1)
    end in
  let s3 :=
    match s2 with
    | String "0" (String x (String d r)) =>
        if (Ascii.eqb x "x" || Ascii.eqb x "X")
           && match hex_value d with Some _ => true | None => false end
        then String d r else s2
    | _ => s2
    end in
  match s3 with
  | String c _ =>
      match hex_value c with
      | Some _ =>
          let v := hex_digits_value s3 0 in
          let v := if negative then - v else v in
          if (v <? - 2 ^ 31) || (2 ^ 31 - 1 <? v) then Throw out_of_range
          else Ret v
      | None => Throw invalid_argument
      end
  | EmptyString => Throw invalid_argument
  end.

(** ** class SHA256 *)

Module SHA256.

Definition u32 (x : Z) : Z := Z.land x 0xFFFFFFFF.
Definition u64 (x : Z) : Z := x mod 2 ^ 64.
Definition u8 (x : Z) : Z := Z.land x 0xFF.

Definition add32 (x y : Z) : Z := u32 (x + y).

Definition right_rotate (value amount : Z) : Z :=
  Z.lor (Z.shiftr value amount) (u32 (Z.shiftl value (32 - amount))).

Definition swap_endian (value : Z) : Z :=
  Z.lor (Z.lor (Z.lor (Z.lor (Z.lor (Z.lor (Z.lor
    (Z.shiftr (Z.land value 0xFF00000000000000) 56)
    (Z.shiftr (Z.land value 0x00FF000000000000) 40))
    (Z.shiftr (Z.land value 0x0000FF0000000000) 24))
    (Z.shiftr (Z.land value 0x000000FF00000000) 8))
    (Z.shiftl (Z.land value 0x00000000FF000000) 8))
    (Z.shiftl (Z.land value 0x0000000000FF0000) 24))
    (Z.shiftl (Z.land value 0x000000000000FF00) 40))
    (Z.shiftl (Z.land value 0x00000000000000FF) 56).

(** [static constexpr uint8_t padding[64] = {0x80}]. *)
Definition padding : list Z := 0x80 :: repeat 0 63.

(** One source line of the table [k]: four round constants. *)
Definition k_row (c0 c1 c2 c3 : Z) : list Z := [c0; c1; c2; c3].

(** [static constexpr uint32_t k[64]], line by line as in the header. *)
Definition k : list Z :=
  (k_row 0x428a2f98 0x71374491 0xb5c0fbcf 0xe9b5dba5 ++
   k_row 0x3956c25c 0x59f111f1 0x923f82e4 0xab1c5ed5 ++
   k_row 0xd807aa98 0x12835b01 0x243185be 0x550c7dc3 ++
   k_row 0x72be5d8d 0x80deb1fe 0x9bdc06a7 0xc19bf174 ++
   k_row 0xe49b69c1 0xefbe4786 0x0fc19dc6 0x240ca1cc ++
   k_row 0x2de92c6f 0x4a7484aa 0x5cb0a9dc 0x76f988da ++
   k_row 0x983e5152 0xa831c66b 0xb00327c8 0xbf597fc7 ++
   k_row 0xc6e00bf3 0xd5a79147 0x06ca6351 0x14292967 ++
   k_row 0x27b70a85 0x2e1b2138 0x4d2c6dfc 0x53380d13 ++
   k_row 0x650a7354 0x766a0abb 0x81c2c92e 0x92722c85 ++
   k_row 0xa2bfe8a1 0xa81a664b 0xc24b8b70 0xc76c51a3 ++
   k_row 0xd192e819 0xd6990624 0xf40e3585 0x106aa070 ++
   k_row 0x19a4c116 0x1e376c08 0x2748774c 0x34b0bcb5 ++
   k_row 0x391c0cb3 0x4ed8aa4a 0x5b9cca4f 0x682e6ff3 ++
   k_row 0x748f82ee 0x78a5636f 0x84c87814 0x8cc70208 ++
   k_row 0x90befffa 0xa4506ceb 0xbef9a3f7 0xc67178f2)%list.

(** The data members: [h[8]], [buffer[64]], [buffer_len], [bit_len]. *)
Record ctx : Type := Ctx {
  h : list Z;
  buffer : list Z;
  buffer_len : Z;
  bit_len : Z
}.

(** The default member initialisers (the implicit constructor). *)
Definition init : ctx :=
  {| h := [ 0x6a09e667; 0xbb67ae85; 0x3c6ef372; 0xa54ff53a;
            0x510e527f; 0x9b05688c; 0x1f83d9ab; 0x5be0cd19 ];
     buffer := repeat 0 64;
     buffer_len := 0;
     bit_len := 0 |}.

(** [arr[i] = v] on an array held as a list (indices stay in range here). *)
Fixpoint array_set (arr : list Z) (i : nat) (v : Z) : list Z :=
  match arr, i with
  | [], _ => []
  | _ :: tl, O => v :: tl
  | x :: tl, S i' => x :: array_set tl i' v
  end.

Definition at_ (arr : list Z) (i : nat) : Z := nth i arr 0.

(** First loop of [transform]: the sixteen big-endian words of the block. *)
Definition block_word (buf : list Z) (i : nat) : Z :=
  u32 (Z.lor (Z.lor (Z.lor (Z.shiftl (at_ buf (i * 4)%nat) 24)
                           (Z.shiftl (at_ buf (i * 4 + 1)%nat) 16))
                    (Z.shiftl (at_ buf (i * 4 + 2)%nat) 8))
             (at_ buf (i * 4 + 3)%nat)).

(** Second loop of [transform]: [w] holds [w[0..i-1]], [n] words remain. *)
Fixpoint schedule (n : nat) (w : list Z) : list Z :=
  match n with
  | O => w
  | S n' =>
      let i := List.length w in
      let w15 := at_ w (i - 15)%nat in
      let w2 := at_ w (i - 2)%nat in
      let s0 := Z.lxor (Z.lxor (right_rotate w15 7) (right_rotate w15 18))
                       (Z.shiftr w15 3) in
      let s1 := Z.lxor (Z.lxor (right_rotate w2 17) (right_rotate w2 19))
                       (Z.shiftr w2 10) in
      schedule n'
        (w ++ [add32 (add32 (add32 (at_ w (i - 16)) s0) (at_ w (i - 7))) s1])%list
  end.

(** One pass of the compression loop, on the eight working variables. *)
Definition round (v : Z * Z * Z * Z * Z * Z * Z * Z) (kw : Z * Z)
  : Z * Z * Z * Z * Z * Z * Z * Z :=
  let '(a, b, c, d, e, f, g, h_val) := v in
  let '(ki, wi) := kw in
  let S1 := Z.lxor (Z.lxor (right_rotate e 6) (right_rotate e 11))
                   (right_rotate e 25) in
  let ch := Z.lxor (Z.land e f) (Z.land (u32 (Z.lnot e)) g) in
  let temp1 := add32 (add32 (add32 (add32 h_val S1) ch) ki) wi in
  let S0 := Z.lxor (Z.lxor (right_rotate a 2) (right_rotate a 13))
                   (right_rotate a 22) in
  let maj := Z.lxor (Z.lxor (Z.land a b) (Z.land a c)) (Z.land b c) in
  let temp2 := add32 S0 maj in
  (add32 temp1 temp2, a, b, c, add32 d temp1, e, f, g).

(** [transform]: compresses [buffer] into [h]. *)
Definition transform (hs buf : list Z) : list Z :=
  let w := schedule 48 (map (block_word buf) (seq 0 16)) in
  let v0 := (at_ hs 0, at_ hs 1, at_ hs 2, at_ hs 3,
             at_ hs 4, at_ hs 5, at_ hs 6, at_ hs 7)%nat in
  let '(a, b, c, d, e, f, g, h_val) := fold_left round (combine k w) v0 in
  [ add32 (at_ hs 0) a; add32 (at_ hs 1) b; add32 (at_ hs 2) c;
    add32 (at_ hs 3) d; add32 (at_ hs 4) e; add32 (at_ hs 5) f;
    add32 (at_ hs 6) g; add32 (at_ hs 7) h_val ].

(** The body of the loop of [update], for one input byte. *)
Definition push_byte (c : ctx) (b : Z) : ctx :=
  let buf := array_set (buffer c) (Z.to_nat (buffer_len c)) (u8 b) in
  let len := u8 (buffer_len c + 1) in
  if len =? 64
  then {| h := transform (h c) buf; buffer := buf;
          buffer_len := 0; bit_len := bit_len c |}
  else {| h := h c; buffer := buf; buffer_len := len; bit_len := bit_len c |}.

(** [update(data, len)]: [len * 8] is computed in [size_t]. *)
Definition update (c : ctx) (data : list Z) : ctx :=
  let c' := fold_left push_byte data c in
  {| h := h c'; buffer := buffer c'; buffer_len := buffer_len c';
     bit_len := u64 (bit_len c' + u64 (Z.of_nat (List.length data) * 8)) |}.

(** The eight bytes of a [uint64_t] object in memory order (little-endian
    host), as [reinterpret_cast<const uint8_t*>] reads them. *)
Definition object_bytes (v : Z) : list Z :=
  map (fun j => Z.land (Z.shiftr v (8 * Z.of_nat j)) 0xFF) (seq 0 8).

Definition word_bytes (x : Z) : list Z :=
  [ Z.land (Z.shiftr x 24) 0xFF; Z.land (Z.shiftr x 16) 0xFF;
    Z.land (Z.shiftr x 8) 0xFF; Z.land (Z.shiftr x 0) 0xFF ].

Definition finalize (c : ctx) : list Z :=
  let bit_len_be := swap_endian (bit_len c) in
  let pad_len :=
    u8 (if buffer_len c <? 56 then 56 - buffer_len c else 120 - buffer_len c) in
  let c1 := update c (firstn (Z.to_nat pad_len) padding) in
  let c2 := update c1 (object_bytes bit_len_be) in
  flat_map (fun i => word_bytes (at_ (h c2) i)) (seq 0 8).

(** [static Hash hash(const uint8_t* data, size_t len)]. *)
Definition hash (data : list Z) : list Z := finalize (update init data).

(** [static Hash hash(const std::string& str)]. *)
Definition hash_str (str : string) : list Z := hash (bytes_of_string str).

End SHA256.

(** ** class AuditChain *)

Module AuditChain.

Inductive UserID : Type := System | Admin | Operator | Service | Unauthorized.

(** [static_cast<int>(user_id)]. *)
Definition UserID_value (u : UserID) : Z :=
  match u with
  | System => 0 | Admin => 1 | Operator => 2 | Service => 3
  | Unauthorized => 255
  end.

Inductive Severity : Type := Debug | Info | Warning | Error | Critical.

Definition Severity_value (s : Severity) : Z :=
  match s with
  | Debug => 0 | Info => 1 | Warning => 2 | Error => 3 | Critical => 4
  end.

(** What [log] reads from the system clock: the broken-down UTC time that
    [std::gmtime] returns (a [struct tm]) and the millisecond count
    [ms.count()].  The conversion from the epoch is the C library's. *)
Record time_point : Type := TimePoint {
  tm_year : Z;   (* years since 1900 *)
  tm_mon : Z;    (* 0 .. 11 *)
  tm_mday : Z;
  tm_hour : Z;
  tm_min : Z;
  tm_sec : Z;
  ms_count : Z
}.

(** The string [timestamp] of [log]:
    [put_time(.., "%Y-%m-%dT%H:%M:%S")], then [.], the milliseconds in a
    zero-filled field of three, then [Z]. *)
Definition timestamp_of (now : time_point) : string :=
  render_int (tm_year now + 1900) ++ "-" ++
  setw 2 "0" (render_int (tm_mon now + 1)) ++ "-" ++
  setw 2 "0" (render_int (tm_mday now)) ++ "T" ++
  setw 2 "0" (render_int (tm_hour now)) ++ ":" ++
  setw 2 "0" (render_int (tm_min now)) ++ ":" ++
  setw 2 "0" (render_int (tm_sec now)) ++
  "." ++ setw 3 "0" (render_int (ms_count now)) ++ "Z".

(** The data members. *)
Record t : Type := Chain {
  device_id_ : string;
  previous_hash_ : list Z;
  sequence_number_ : Z
}.

(** [explicit AuditChain(const std::string& device_id)]. *)
Definition new (device_id : string) : t :=
  {| device_id_ := device_id;
     previous_hash_ := SHA256.hash_str "DTS_INIT";
     sequence_number_ := 0 |}.

Definition hash_to_hex (hash : list Z) : string :=
  fold_right (fun byte acc => setw 2 "0" (render_hex byte) ++ acc)
             EmptyString hash.

Fixpoint hex_to_hash_from (hex : string) (i n : nat) : result (list Z) :=
  match n with
  | O => Ret []
  | S n' =>
      group <- substr hex (i * 2) 2 ;;
      v <- stoi16 group ;;
      tl <- hex_to_hash_from hex (S i) n' ;;
      Ret (SHA256.u8 v :: tl)
  end.

Definition hex_to_hash (hex : string) : result (list Z) :=
  hex_to_hash_from hex 0 32.

Definition extract_hex (json : string) (start_pos : nat) : string :=
  match find_char_from json dquote start_pos with
  | None => EmptyString
  | Some end_pos => take (end_pos - start_pos) (drop start_pos json)
  end.

(** One character of the loop of [escape_json]. *)
Definition escape_char (c : ascii) : string :=
  let n := byte_of_char c in
  if n =? 34 then String bslash q
  else if n =? 92 then String bslash (String bslash EmptyString)
  else if n =? 8 then String bslash "b"
  else if n =? 12 then String bslash "f"
  else if n =? 10 then String bslash "n"
  else if n =? 13 then String bslash "r"
  else if n =? 9 then String bslash "t"
  else if n <? 0x20
       then String bslash ("u" ++ setw 4 "0" (render_hex n))
       else String c EmptyString.

Fixpoint escape_json (str : string) : string :=
  match str with
  | EmptyString => EmptyString
  | String c str' => escape_char c ++ escape_json str'
  end.

(** The two keys [verify_chain] searches for, quotes included. *)
Definition key_previous_hash : string := q ++ "previous_hash" ++ q ++ ":" ++ q.
Definition key_chain_hash : string := q ++ "chain_hash" ++ q ++ ":" ++ q.

(** The text hashed by [log] ([payload.str()]). *)
Definition payload_of (device_id timestamp : string) (user_id : UserID)
    (severity : Severity) (message : string) (previous_hash : list Z) : string :=
  device_id ++ "|" ++ timestamp ++ "|" ++
  render_int (UserID_value user_id) ++ "|" ++
  render_int (Severity_value severity) ++ "|" ++
  message ++ "|" ++ hash_to_hex previous_hash.

(** The text returned by [log] ([log_entry.str()]). *)
Definition log_entry_of (device_id timestamp : string) (user_id : UserID)
    (severity : Severity) (message : string)
    (previous_hash current_hash : list Z) : string :=
  "{" ++
  q ++ "device_id" ++ q ++ ":" ++ q ++ device_id ++ q ++ "," ++
  q ++ "timestamp" ++ q ++ ":" ++ q ++ timestamp ++ q ++ "," ++
  q ++ "user_id" ++ q ++ ":" ++ render_int (UserID_value user_id) ++ "," ++
  q ++ "severity" ++ q ++ ":" ++ render_int (Severity_value severity) ++ "," ++
  q ++ "message" ++ q ++ ":" ++ q ++ escape_json message ++ q ++ "," ++
  key_previous_hash ++ hash_to_hex previous_hash ++ q ++ "," ++
  key_chain_hash ++ hash_to_hex current_hash ++ q ++
  "}".

(** [log]: the entry and the object after the call. *)
Definition log (self : t) (now : time_point) (message : string)
    (user_id : UserID) (severity : Severity) : string * t :=
  let timestamp := timestamp_of now in
  let payload :=
    payload_of (device_id_ self) timestamp user_id severity message
               (previous_hash_ self) in
  let current_hash := SHA256.hash_str payload in
  let log_entry :=
    log_entry_of (device_id_ self) timestamp user_id severity message
                 (previous_hash_ self) current_hash in
  (log_entry,
   {| device_id_ := device_id_ self;
      previous_hash_ := current_hash;
      sequence_number_ := SHA256.u64 (sequence_number_ self + 1) |}).

Definition get_chain_hash (self : t) : string :=
  hash_to_hex (previous_hash_ self).

Definition get_sequence_number (self : t) : Z := sequence_number_ self.

(** The loop of [verify_chain]. *)
Fixpoint verify_loop (expected_prev : list Z) (entries : list string)
  : result bool :=
  match entries with
  | [] => Ret true
  | entry :: rest =>
      match find entry key_previous_hash, find entry key_chain_hash with
      | Some prev_hash_pos, Some chain_hash_pos =>
          let prev_hash_hex := extract_hex entry (prev_hash_pos + 17) in
          if negb (prev_hash_hex =? hash_to_hex expected_prev)%string
          then Ret false
          else
            let chain_hash_hex := extract_hex entry (chain_hash_pos + 14) in
            expected <- hex_to_hash chain_hash_hex ;;
            verify_loop expected rest
      | _, _ => Ret false
      end
  end.

Definition verify_chain (entries : list string) : result bool :=
  match entries with
  | [] => Ret true
  | _ => verify_loop (SHA256.hash_str "DTS_INIT") entries
  end.

End AuditChain.

(** ** A caller of the chain

    What a client such as [test_chain_integrity] does: it calls [log] once
    per event on one object and keeps the entries in order. *)

Record event : Type := Event {
  ev_now : AuditChain.time_point;
  ev_message : string;
  ev_user : AuditChain.UserID;
  ev_severity : AuditChain.Severity
}.

Definition log_event (self : AuditChain.t) (ev : event) : string * AuditChain.t :=
  AuditChain.log self (ev_now ev) (ev_message ev) (ev_user ev) (ev_severity ev).

Fixpoint run (self : AuditChain.t) (evs : list event) : list string * AuditChain.t :=
  match evs with
  | [] => ([], self)
  | ev :: rest =>
      let '(entry, self') := log_event self ev in
      let '(entries, final) := run self' rest in
      (entry :: entries, final)
  end.

(** The entries exported by a fresh chain after the events [evs]. *)
Definition export (device_id : string) (evs : list event) : list string :=
  fst (run (AuditChain.new device_id) evs).

(** The chain object after the events [evs]. *)
Definition state_after (device_id : string) (evs : list event) : AuditChain.t :=
  snd (run (AuditChain.new device_id) evs).

(** * Vocabulary of the properties *)

(** [skips key p rest]: the search for [key] in [p ++ rest] finds nothing
    that starts inside [p]. *)
Definition skips (key p rest : string) : Prop :=
  find (p ++ rest) key = option_map (Nat.add (String.length p)) (find rest key).

(** All characters of a string satisfy [f]. *)
Fixpoint all_chars (f : ascii -> bool) (s : string) : bool :=
  match s with
  | EmptyString => true
  | String c s' => f c && all_chars f s'
  end.

(** Characters of a string: none is a double quote. *)
Definition no_quote (s : string) : bool :=
  all_chars (fun c => negb (Ascii.eqb c dquote)) s.

(** The sixteen digits of lower-case hexadecimal. *)
Definition lower_hex_char (c : ascii) : bool :=
  let n := byte_of_char c in
  ((48 <=? n) && (n <=? 57)) || ((97 <=? n) && (n <=? 102)).

Definition lower_hex (s : string) : bool := all_chars lower_hex_char s.

(** Every double quote of [s] directly follows a backslash; [b] tells
    whether the character before [s] is a backslash. *)
Fixpoint guarded (b : bool) (s : string) : bool :=
  match s with
  | EmptyString => true
  | String c s' =>
      (if Ascii.eqb c dquote then b else true) && guarded (Ascii.eqb c bslash) s'
  end.

(** Neither a double quote nor a backslash occurs. *)
Definition plain (s : string) : bool :=
  all_chars (fun c => negb (Ascii.eqb c dquote) && negb (Ascii.eqb c bslash)) s.

Definition key_of (name : string) : string := q ++ name ++ q ++ ":" ++ q.

(** A byte prints as exactly two digits. *)
Definition two_digits (b : Z) : string :=
  String (digit_char (b / 16)) (String (digit_char (b mod 16)) EmptyString).

Definition bytes_0_255 : list Z := map Z.of_nat (seq 0 256).

(** A digest: thirty-two bytes. *)
Definition is_byte (b : Z) : bool := (0 <=? b) && (b <? 256).
Definition is_digest (hash : list Z) : bool :=
  (List.length hash =? 32)%nat && forallb is_byte hash.

(** The part of an entry that precedes the key of its [previous_hash]. *)
Definition entry_head (device_id timestamp : string)
    (user_id : AuditChain.UserID) (severity : AuditChain.Severity)
    (message : string) : string :=
  "{" ++
  q ++ "device_id" ++ q ++ ":" ++ q ++ device_id ++ q ++ "," ++
  q ++ "timestamp" ++ q ++ ":" ++ q ++ timestamp ++ q ++ "," ++
  q ++ "user_id" ++ q ++ ":" ++
    render_int (AuditChain.UserID_value user_id) ++ "," ++
  q ++ "severity" ++ q ++ ":" ++
    render_int (AuditChain.Severity_value severity) ++ "," ++
  q ++ "message" ++ q ++ ":" ++ q ++ AuditChain.escape_json message ++ q ++ ",".

(** An entry whose two digest fields hold the texts [prev] and [chain]. *)
Definition entry_with (head prev chain : string) : string :=
  head ++ AuditChain.key_previous_hash ++ prev ++ q ++ "," ++
  AuditChain.key_chain_hash ++ chain ++ q ++ "}".

(** Where the text of the [chain_hash] field starts in [entry_with]. *)
Definition chain_key_pos (head prev : string) : nat :=
  String.length (head ++ AuditChain.key_previous_hash ++ prev ++ q ++ ",").

(** The text up to the next double quote, as [extract_hex] cuts it. *)
Definition until_quote (s : string) : string :=
  match find_char s dquote with
  | None => EmptyString
  | Some e => take e s
  end.

(** [s] with its character at index [i] replaced by [c]. *)
Fixpoint set_char (i : nat) (c : ascii) (s : string) : string :=
  match s, i with
  | EmptyString, _ => EmptyString
  | String _ s', O => String c s'
  | String a s', S i' => String a (set_char i' c s')
  end.

(** One character of the text of a field is altered: the field is the one
    [verify_chain] reads after [key], the character is its [j]-th. *)
Definition alter_field (key : string) (j : nat) (c : ascii) (entry : string)
  : string :=
  match find entry key with
  | Some p => set_char (p + String.length key + j) c entry
  | None => entry
  end.

(** ** Entries as [log] builds them

    What [log] puts into an entry: the text before the digest fields, the
    digest found in the object, and the digest computed for the entry. *)
Record entry_fields : Type := Fields {
  ef_head : string;
  ef_prev : list Z;
  ef_chain : list Z
}.

Definition serialize (e : entry_fields) : string :=
  entry_with (ef_head e) (AuditChain.hash_to_hex (ef_prev e))
             (AuditChain.hash_to_hex (ef_chain e)).

Definition fields_of (self : AuditChain.t) (ev : event) : entry_fields :=
  let ts := AuditChain.timestamp_of (ev_now ev) in
  {| ef_head := entry_head (AuditChain.device_id_ self) ts (ev_user ev)
                           (ev_severity ev) (ev_message ev);
     ef_prev := AuditChain.previous_hash_ self;
     ef_chain := SHA256.hash_str
                   (AuditChain.payload_of (AuditChain.device_id_ self) ts
                      (ev_user ev) (ev_severity ev) (ev_message ev)
                      (AuditChain.previous_hash_ self)) |}.

Fixpoint trace (self : AuditChain.t) (evs : list event) : list entry_fields :=
  match evs with
  | [] => []
  | ev :: rest => fields_of self ev :: trace (snd (log_event self ev)) rest
  end.

(** The chain object as each append finds it, in order. *)
Fixpoint states_before (self : AuditChain.t) (evs : list event)
  : list AuditChain.t :=
  match evs with
  | [] => []
  | ev :: rest => self :: states_before (snd (log_event self ev)) rest
  end.

(** The rolling digest found by each append, in order. *)
Definition digests_before (device_id : string) (evs : list event)
  : list (list Z) :=
  map AuditChain.previous_hash_ (states_before (AuditChain.new device_id) evs).

(** Both keys are found where [log] wrote them, whatever the field texts
    (the text of [previous_hash] being free of quotes for the second). *)
Definition findable (head : string) : Prop :=
  forall prev chain,
    find (entry_with head prev chain) AuditChain.key_previous_hash
    = Some (String.length head) /\
    (no_quote prev = true ->
     find (entry_with head prev chain) AuditChain.key_chain_hash
     = Some (chain_key_pos head prev)).

Definition wf_entry (e : entry_fields) : Prop :=
  findable (ef_head e) /\ is_digest (ef_prev e) = true /\
  is_digest (ef_chain e) = true.

Definition digest_eqb (a b : list Z) : bool :=
  if list_eq_dec Z.eq_dec a b then true else false.

(** The linkage check of [verify_chain], on the digests themselves. *)
Fixpoint links_ok (expected : list Z) (l : list entry_fields) : bool :=
  match l with
  | [] => true
  | e :: l' => digest_eqb (ef_prev e) expected && links_ok (ef_chain e) l'
  end.

(** Each entry holds the digest of the one before it. *)
Fixpoint chained (expected : list Z) (l : list entry_fields) : Prop :=
  match l with
  | [] => True
  | e :: l' => ef_prev e = expected /\ chained (ef_chain e) l'
  end.

(** The digest a verifier expects after the entries [l]. *)
Definition end_digest (start : list Z) (l : list entry_fields) : list Z :=
  last (map ef_chain l) start.

Fixpoint distinct (l : list (list Z)) : bool :=
  match l with
  | [] => true
  | x :: l' => negb (existsb (digest_eqb x) l') && distinct l'
  end.

Definition remove_nth {A : Type} (i : nat) (l : list A) : list A :=
  (firstn i l ++ skipn (S i) l)%list.

Definition replace_nth {A : Type} (i : nat) (x : A) (l : list A) : list A :=
  (firstn i l ++ x :: skipn (S i) l)%list.

(** The value of a lower-case hexadecimal digit. *)
Definition lower_hex_value (c : ascii) : Z :=
  let n := byte_of_char c in if n <=? 57 then n - 48 else n - 87.

(** A context with another bit count. *)
Definition with_bit_len (c : SHA256.ctx) (n : Z) : SHA256.ctx :=
  {| SHA256.h := SHA256.h c; SHA256.buffer := SHA256.buffer c;
     SHA256.buffer_len := SHA256.buffer_len c; SHA256.bit_len := n |}.

(** ** Reading a string literal of the exchange format

    The body of a JSON string literal (RFC 8259) up to its closing quote:
    the decoded text and what follows the literal.  A raw control character
    or an unknown escape is an error; [\uXXXX] is decoded when it names a
    single byte. *)
Definition decoded (c : ascii) (r : option (string * string))
  : option (string * string) :=
  match r with
  | Some (text, rest) => Some (String c text, rest)
  | None => None
  end.

Fixpoint json_string_tail (s : string) : option (string * string) :=
  match s with
  | EmptyString => None
  | String c s' =>
      if Ascii.eqb c dquote then Some (EmptyString, s')
      else if Ascii.eqb c bslash then
        match s' with
        | EmptyString => None
        | String e s'' =>
            if Ascii.eqb e dquote then decoded dquote (json_string_tail s'')
            else if Ascii.eqb e bslash then decoded bslash (json_string_tail s'')
            else if Ascii.eqb e "/" then decoded "/" (json_string_tail s'')
            else if Ascii.eqb e "b" then decoded "008" (json_string_tail s'')
            else if Ascii.eqb e "f" then decoded "012" (json_string_tail s'')
            else if Ascii.eqb e "n" then decoded "010" (json_string_tail s'')
            else if Ascii.eqb e "r" then decoded "013" (json_string_tail s'')
            else if Ascii.eqb e "t" then decoded "009" (json_string_tail s'')
            else if Ascii.eqb e "u" then
              match s'' with
              | String h1 (String h2 (String h3 (String h4 s3))) =>
                  match hex_value h1, hex_value h2, hex_value h3, hex_value h4 with
                  | Some a, Some b, Some c', Some d =>
                      let v := ((a * 16 + b) * 16 + c') * 16 + d in
                      if v <? 256
                      then decoded (ascii_of_N (Z.to_N v)) (json_string_tail s3)
                      else None
                  | _, _, _, _ => None
                  end
              | _ => None
              end
            else None
        end
      else if byte_of_char c <? 0x20 then None
      else decoded c (json_string_tail s')
  end.

(** A whole literal: the opening quote, then the body. *)
Definition json_string (s : string) : option (string * string) :=
  match s with
  | String c s' => if Ascii.eqb c dquote then json_string_tail s' else None
  | EmptyString => None
  end.

(** A double quote, a backslash or a control character (below 0x20). *)
Definition special_char (c : ascii) : bool :=
  Ascii.eqb c dquote || Ascii.eqb c bslash || (byte_of_char c <? 0x20).

Definition needs_escape (message : string) : bool :=
  negb (all_chars (fun c => negb (special_char c)) message).

(** ** Sample data *)

(** 2025-01-15T09:05:07.042Z. *)
Definition sample_time : AuditChain.time_point :=
  AuditChain.TimePoint 125 0 15 9 5 7 42.

Definition boot : event :=
  Event sample_time "boot" AuditChain.System AuditChain.Info.

(** A message with a double quote, a backslash and a control character. *)
Definition sample_message : string :=
  "dose " ++ q ++ "5ml" ++ q ++ " C:\pump" ++ String "001" "".

Definition sample_events : list event :=
  [ boot;
    Event sample_time sample_message AuditChain.Admin AuditChain.Critical;
    Event sample_time "Event 3" AuditChain.Operator AuditChain.Warning ].

(** An entry around its [message] field. *)
Definition before_message (device_id timestamp : string)
    (user_id : AuditChain.UserID) (severity : AuditChain.Severity) : string :=
  "{" ++
  q ++ "device_id" ++ q ++ ":" ++ q ++ device_id ++ q ++ "," ++
  q ++ "timestamp" ++ q ++ ":" ++ q ++ timestamp ++ q ++ "," ++
  q ++ "user_id" ++ q ++ ":" ++
    render_int (AuditChain.UserID_value user_id) ++ "," ++
  q ++ "severity" ++ q ++ ":" ++
    render_int (AuditChain.Severity_value severity) ++ ",".

Definition after_message (previous_hash current_hash : list Z) : string :=
  "," ++
  AuditChain.key_previous_hash ++ AuditChain.hash_to_hex previous_hash ++ q ++ "," ++
  AuditChain.key_chain_hash ++ AuditChain.hash_to_hex current_hash ++ q ++
  "}".


(** * More vocabulary *)

(** ** Collisions of the digest

    The texts that a chain has hashed: the seed of the constructor, then the
    payload of each append. *)
Definition payload_at (self : AuditChain.t) (ev : event) : string :=
  AuditChain.payload_of (AuditChain.device_id_ self)
    (AuditChain.timestamp_of (ev_now ev)) (ev_user ev) (ev_severity ev)
    (ev_message ev) (AuditChain.previous_hash_ self).

Fixpoint payloads (self : AuditChain.t) (evs : list event) : list string :=
  match evs with
  | [] => []
  | ev :: rest => payload_at self ev :: payloads (snd (log_event self ev)) rest
  end.

Definition hashed_texts (device_id : string) (evs : list event) : list string :=
  "DTS_INIT" :: payloads (AuditChain.new device_id) evs.

(** The two texts are the same text, or their digests differ. *)
Definition no_collision (a b : string) : bool :=
  String.eqb a b || negb (digest_eqb (SHA256.hash_str a) (SHA256.hash_str b)).

(** No two different texts of the list have the same digest. *)
Fixpoint collision_free (texts : list string) : bool :=
  match texts with
  | [] => true
  | a :: rest => forallb (no_collision a) rest && collision_free rest
  end.


(** ** class SHA256 *)

(** The number of padding bytes that [finalize] feeds ([pad_len]). *)
Definition finalize_pad_len (c : SHA256.ctx) : Z :=
  SHA256.u8 (if SHA256.buffer_len c <? 56
             then 56 - SHA256.buffer_len c
             else 120 - SHA256.buffer_len c).

(** The object as the two [update] calls of [finalize] leave it. *)
Definition finalized (c : SHA256.ctx) : SHA256.ctx :=
  SHA256.update
    (SHA256.update c (firstn (Z.to_nat (finalize_pad_len c)) SHA256.padding))
    (SHA256.object_bytes (SHA256.swap_endian (SHA256.bit_len c))).

(** A [uint32_t] value. *)
Definition is_word (x : Z) : bool := (0 <=? x) && (x <? 2 ^ 32).

(** The data members hold values of their types and [buffer_len] is an
    index into [buffer]. *)
Definition ctx_ok (c : SHA256.ctx) : bool :=
  (List.length (SHA256.h c) =? 8)%nat && forallb is_word (SHA256.h c) &&
  (List.length (SHA256.buffer c) =? 64)%nat && forallb is_byte (SHA256.buffer c) &&
  (0 <=? SHA256.buffer_len c) && (SHA256.buffer_len c <? 64) &&
  (0 <=? SHA256.bit_len c) && (SHA256.bit_len c <? 2 ^ 64).

(** ** class AuditChain *)

(** A digit [a] .. [f] in upper case, any other character unchanged. *)
Definition upper_hex_digit (c : ascii) : ascii :=
  let n := byte_of_char c in
  if (97 <=? n) && (n <=? 102) then ascii_of_N (Z.to_N (n - 32)) else c.

Fixpoint map_chars (f : ascii -> ascii) (s : string) : string :=
  match s with
  | EmptyString => EmptyString
  | String c s' => String (f c) (map_chars f s')
  end.

(** No control character: every byte is 0x20 or above. *)
Definition no_control (s : string) : bool :=
  all_chars (fun c => 0x20 <=? byte_of_char c) s.

(** A decimal digit, [0] to [9]. *)
Definition decimal_digit (c : ascii) : bool :=
  let n := byte_of_char c in (48 <=? n) && (n <=? 57).

(** The characters of a time stamp: decimal digits and the separators of
    the format. *)
Definition timestamp_char (c : ascii) : bool :=
  decimal_digit c ||
  Ascii.eqb c "-" || Ascii.eqb c "T" || Ascii.eqb c ":" || Ascii.eqb c "." ||
  Ascii.eqb c "Z".


(** ** The unit tests ([tests/test_audit_chain.cpp])

    Each test takes the readings of the clock, one per call of [log], and
    returns whether its assertions hold. *)

(** [pos != std::string::npos]. *)
Definition found (pos : option nat) : bool :=
  match pos with Some _ => true | None => false end.

(** [s.replace(pos, len, str)], which throws when [pos > s.size()];
    [std::string::npos] is the largest position. *)
Definition replace (s : string) (pos : option nat) (len : nat) (str : string)
  : result string :=
  match pos with
  | None => Throw out_of_range
  | Some p =>
      if (String.length s <? p)%nat then Throw out_of_range
      else Ret (take p s ++ str ++ drop (p + len) s)
  end.

Definition test_basic_logging (now1 now2 : AuditChain.time_point) : bool :=
  let logger := AuditChain.new "TEST-DEVICE-001" in
  let '(entry1, logger) :=
    AuditChain.log logger now1 "Test event 1" AuditChain.System AuditChain.Info in
  let '(entry2, logger) :=
    AuditChain.log logger now2 "Test event 2" AuditChain.System AuditChain.Info in
  (AuditChain.get_sequence_number logger =? 2) &&
  found (find entry1 "chain_hash") &&
  found (find entry2 "previous_hash").

(** The vector [entries] of [test_chain_integrity] after the three calls of
    [push_back]. *)
Definition chain_integrity_entries (now1 now2 now3 : AuditChain.time_point)
  : list string :=
  export "TEST-DEVICE-002"
    [ Event now1 "Event 1" AuditChain.System AuditChain.Info;
      Event now2 "Event 2" AuditChain.System AuditChain.Info;
      Event now3 "Event 3" AuditChain.System AuditChain.Info ].

Definition test_chain_integrity (now1 now2 now3 : AuditChain.time_point)
  : result bool :=
  AuditChain.verify_chain (chain_integrity_entries now1 now2 now3).

(** The second half of [test_chain_integrity]: the vector after
    [entries[1] = tampered]. *)
Definition tampered_entries (entries : list string) : result (list string) :=
  let tampered := nth 1 entries "" in
  tampered' <- replace tampered (find tampered "Event 2") 7 "HACKED" ;;
  Ret (replace_nth 1 tampered' entries).

Definition test_user_severity_levels
    (now1 now2 now3 now4 now5 : AuditChain.time_point) : bool :=
  let logger := AuditChain.new "TEST-DEVICE-003" in
  let logger :=
    snd (AuditChain.log logger now1 "Debug message" AuditChain.System AuditChain.Debug) in
  let logger :=
    snd (AuditChain.log logger now2 "Info message" AuditChain.Admin AuditChain.Info) in
  let logger :=
    snd (AuditChain.log logger now3 "Warning message" AuditChain.Operator
           AuditChain.Warning) in
  let logger :=
    snd (AuditChain.log logger now4 "Error message" AuditChain.System AuditChain.Error) in
  let logger :=
    snd (AuditChain.log logger now5 "Critical message" AuditChain.System
           AuditChain.Critical) in
  AuditChain.get_sequence_number logger =? 5.

Definition test_hash_consistency (now1 now2 : AuditChain.time_point) : bool :=
  let logger1 := AuditChain.new "TEST-DEVICE-004" in
  let logger2 := AuditChain.new "TEST-DEVICE-004" in
  let entry1 :=
    fst (AuditChain.log logger1 now1 "Identical event" AuditChain.System
           AuditChain.Info) in
  let entry2 :=
    fst (AuditChain.log logger2 now2 "Identical event" AuditChain.System
           AuditChain.Info) in
  found (find entry1 "chain_hash") && found (find entry2 "chain_hash").

(** * The adapters ([include/dts/adapters])

    Each adapter owns an [AuditChain] and some tags; each of its logging
    members builds a message in a string stream and passes it to
    [chain_.log].  A member returns the entry and the adapter after the
    call.  An [int] argument is an integer of [Z]; a default argument is an
    ordinary argument here. *)

(** [s.empty()]. *)
Definition empty (s : string) : bool :=
  match s with EmptyString => true | String _ _ => false end.

(** What a guarded [msg << ...] statement appends. *)
Definition when (condition : bool) (text : string) : string :=
  if condition then text else "".

(** A client of an adapter: the calls in order, each with the reading of
    the clock that [log] takes. *)
Fixpoint run_calls {A C : Type}
    (invoke : A -> AuditChain.time_point -> C -> string * A)
    (self : A) (calls : list (AuditChain.time_point * C)) : list string * A :=
  match calls with
  | [] => ([], self)
  | (now, c) :: rest =>
      let '(entry, self') := invoke self now c in
      let '(entries, final) := run_calls invoke self' rest in
      (entry :: entries, final)
  end.

(** A client of an adapter whose members may leave by an exception: it
    catches the exception of a call, keeps the entries of the calls that
    return, and goes on with the next call. *)
Fixpoint run_calls_catching {A C : Type}
    (invoke : A -> AuditChain.time_point -> C -> result string * A)
    (self : A) (calls : list (AuditChain.time_point * C)) : list string * A :=
  match calls with
  | [] => ([], self)
  | (now, c) :: rest =>
      let '(outcome, self') := invoke self now c in
      let '(entries, final) := run_calls_catching invoke self' rest in
      (match outcome with
       | Ret entry => entry :: entries
       | Throw _ => entries
       end, final)
  end.

(** ** class MedTechAdapter ([medtech_adapter.hpp]) *)

Module MedTechAdapter.

Inductive AlarmPriority : Type := Low | Medium | High | Critical.

(** [static_cast<int>(priority)]. *)
Definition AlarmPriority_value (p : AlarmPriority) : Z :=
  match p with Low => 1 | Medium => 2 | High => 3 | Critical => 4 end.

Inductive MedicationEventType : Type :=
  Loaded | Started | Paused | Stopped | Completed | Error.

Record t : Type := Adapter {
  chain_ : AuditChain.t;
  device_type_ : string
}.

Definition new (device_id device_type : string) : t :=
  {| chain_ := AuditChain.new device_id; device_type_ := device_type |}.

(** [return chain_.log(...)]. *)
Definition logged (self : t) (r : string * AuditChain.t) : string * t :=
  (fst r, {| chain_ := snd r; device_type_ := device_type_ self |}).

Definition log_post_result (self : t) (now : AuditChain.time_point)
    (passed : bool) (details : string) : string * t :=
  let msg :=
    "POST " ++ (if passed then "PASSED" else "FAILED") ++
    when (negb (empty details)) (" | " ++ details) in
  logged self
    (AuditChain.log (chain_ self) now msg AuditChain.System
       (if passed then AuditChain.Info else AuditChain.Critical)).

Definition log_medication_event (self : t) (now : AuditChain.time_point)
    (event_type : MedicationEventType) (drug_name concentration rate : string)
    (duration : Z) : string * t :=
  let msg :=
    match event_type with
    | Loaded => "Medication Loaded"
    | Started => "Infusion Started"
    | Paused => "Infusion Paused"
    | Stopped => "Infusion Stopped"
    | Completed => "Infusion Completed"
    | Error => "Medication Error"
    end ++
    " | Drug:" ++ drug_name ++
    when (negb (empty concentration)) (" | Concentration:" ++ concentration) ++
    when (negb (empty rate)) (" | Rate:" ++ rate) ++
    when (0 <? duration) (" | Duration:" ++ render_int duration ++ "min") in
  let sev :=
    match event_type with
    | Error => AuditChain.Error
    | _ => AuditChain.Info
    end in
  logged self (AuditChain.log (chain_ self) now msg AuditChain.Operator sev).

Definition log_safety_alarm (self : t) (now : AuditChain.time_point)
    (alarm_type : string) (priority : AlarmPriority)
    (description action_taken : string) : string * t :=
  let msg :=
    "Safety Alarm | " ++
    "Type:" ++ alarm_type ++ " | " ++
    "Priority:" ++ render_int (AlarmPriority_value priority) ++ " | " ++
    "Description:" ++ description ++
    when (negb (empty action_taken)) (" | Action:" ++ action_taken) in
  let sev :=
    match priority with
    | Critical => AuditChain.Critical
    | High => AuditChain.Error
    | _ => AuditChain.Warning
    end in
  logged self (AuditChain.log (chain_ self) now msg AuditChain.System sev).

Definition log_calibration (self : t) (now : AuditChain.time_point)
    (calibration_type technician_id : string) (result : bool) : string * t :=
  let msg :=
    "Calibration " ++ (if result then "PASSED" else "FAILED") ++ " | " ++
    "Type:" ++ calibration_type ++ " | " ++
    "Technician:" ++ technician_id in
  logged self
    (AuditChain.log (chain_ self) now msg AuditChain.Service
       (if result then AuditChain.Info else AuditChain.Warning)).

Definition log_firmware_update (self : t) (now : AuditChain.time_point)
    (old_version new_version : string) (success : bool) : string * t :=
  let msg :=
    "Firmware Update " ++ (if success then "SUCCESS" else "FAILED") ++ " | " ++
    "From:" ++ old_version ++ " | " ++
    "To:" ++ new_version in
  logged self
    (AuditChain.log (chain_ self) now msg AuditChain.Admin
       (if success then AuditChain.Info else AuditChain.Error)).

Definition log_maintenance (self : t) (now : AuditChain.time_point)
    (maintenance_type technician_id notes : string) : string * t :=
  let msg :=
    "Maintenance | " ++
    "Type:" ++ maintenance_type ++ " | " ++
    "Technician:" ++ technician_id ++
    when (negb (empty notes)) (" | Notes:" ++ notes) in
  logged self
    (AuditChain.log (chain_ self) now msg AuditChain.Service AuditChain.Info).

Definition get_chain_hash (self : t) : string :=
  AuditChain.get_chain_hash (chain_ self).

(** One call of a logging member, with its arguments. *)
Inductive call : Type :=
| Call_post_result (passed : bool) (details : string)
| Call_medication_event (event_type : MedicationEventType)
    (drug_name concentration rate : string) (duration : Z)
| Call_safety_alarm (alarm_type : string) (priority : AlarmPriority)
    (description action_taken : string)
| Call_calibration (calibration_type technician_id : string) (result : bool)
| Call_firmware_update (old_version new_version : string) (success : bool)
| Call_maintenance (maintenance_type technician_id notes : string).

Definition invoke (self : t) (now : AuditChain.time_point) (c : call)
  : string * t :=
  match c with
  | Call_post_result passed details => log_post_result self now passed details
  | Call_medication_event event_type drug_name concentration rate duration =>
      log_medication_event self now event_type drug_name concentration rate
                           duration
  | Call_safety_alarm alarm_type priority description action_taken =>
      log_safety_alarm self now alarm_type priority description action_taken
  | Call_calibration calibration_type technician_id result =>
      log_calibration self now calibration_type technician_id result
  | Call_firmware_update old_version new_version success =>
      log_firmware_update self now old_version new_version success
  | Call_maintenance maintenance_type technician_id notes =>
      log_maintenance self now maintenance_type technician_id notes
  end.

End MedTechAdapter.

(** ** class ClinicalTrialAdapter ([clinical_trial_adapter.hpp]) *)

Module ClinicalTrialAdapter.

Inductive TrialEventType : Type :=
  PatientEnrolled | VisitStarted | VisitCompleted | DataCollected |
  ProtocolDeviation | AdverseEvent | DataExported | DataAnonymized.

(** [AnonymizerFunc], a [std::function] that a member calls with the
    patient identifier before it touches the chain.  The call may leave by
    an exception, and the callable may act on the chain of the adapter
    (through [get_chain()], when it holds a reference to the adapter).  It
    is a function of the identifier and of the chain; it gives the chain as
    it leaves it, and a text or an exception. *)
Definition AnonymizerFunc : Type :=
  string -> AuditChain.t -> AuditChain.t * result string.

Record t : Type := Adapter {
  chain_ : AuditChain.t;
  protocol_id_ : string;
  anonymizer_ : AnonymizerFunc
}.

(** The lambda that the constructor installs when no anonymizer is
    given. *)
Definition default_anonymizer (id : string) : string :=
  let hash := SHA256.hash_str id in
  "ANON-" ++
  fold_right (fun i ss => setw 2 "0" (render_hex (nth i hash 0)) ++ ss)
             EmptyString (seq 0 8).

(** The constructor; [None] is the [nullptr] default of [anonymizer].  The
    default lambda captures nothing and has no error path. *)
Definition new (device_id protocol_id : string)
    (anonymizer : option AnonymizerFunc) : t :=
  {| chain_ := AuditChain.new device_id;
     protocol_id_ := protocol_id;
     anonymizer_ := match anonymizer with
                    | Some f => f
                    | None => fun id chain => (chain, Ret (default_anonymizer id))
                    end |}.

(** [return chain_.log(...)]. *)
Definition logged (self : t) (r : string * AuditChain.t) : string * t :=
  (fst r, {| chain_ := snd r; protocol_id_ := protocol_id_ self;
             anonymizer_ := anonymizer_ self |}).

(** [std::string anon_id = anonymizer_(patient_id);] and then the rest of
    the member, [rest]: an exception of the anonymizer leaves the member at
    once, with the chain as the anonymizer left it. *)
Definition with_anon_id (self : t) (patient_id : string)
    (rest : t -> string -> string * t) : result string * t :=
  let '(chain, outcome) := anonymizer_ self patient_id (chain_ self) in
  let self' := {| chain_ := chain; protocol_id_ := protocol_id_ self;
                  anonymizer_ := anonymizer_ self |} in
  match outcome with
  | Throw e => (Throw e, self')
  | Ret anon_id =>
      let '(entry, self'') := rest self' anon_id in (Ret entry, self'')
  end.

Definition log_patient_enrolled (self : t) (now : AuditChain.time_point)
    (patient_id site_id enrollment_date : string) : result string * t :=
  with_anon_id self patient_id (fun self anon_id =>
    let msg :=
      "Patient Enrolled | " ++
      "PatientID:" ++ anon_id ++ " | " ++
      "SiteID:" ++ site_id ++
      when (negb (empty (protocol_id_ self)))
           (" | Protocol:" ++ protocol_id_ self) ++
      when (negb (empty enrollment_date)) (" | Date:" ++ enrollment_date) in
    logged self
      (AuditChain.log (chain_ self) now msg AuditChain.Operator AuditChain.Info)).

Definition log_visit_event (self : t) (now : AuditChain.time_point)
    (event_type : TrialEventType) (patient_id : string) (visit_number : Z)
    (visit_type : string) : result string * t :=
  with_anon_id self patient_id (fun self anon_id =>
    let msg :=
      match event_type with
      | VisitStarted => "Visit Started"
      | _ => "Visit Completed"
      end ++ " | " ++
      "PatientID:" ++ anon_id ++ " | " ++
      "VisitNumber:" ++ render_int visit_number ++
      when (negb (empty visit_type)) (" | VisitType:" ++ visit_type) in
    logged self
      (AuditChain.log (chain_ self) now msg AuditChain.Operator AuditChain.Info)).

Definition log_data_collected (self : t) (now : AuditChain.time_point)
    (patient_id data_type form_id : string) (data_point_count : Z)
  : result string * t :=
  with_anon_id self patient_id (fun self anon_id =>
    let msg :=
      "Data Collected | " ++
      "PatientID:" ++ anon_id ++ " | " ++
      "DataType:" ++ data_type ++
      when (negb (empty form_id)) (" | CRF:" ++ form_id) ++
      when (0 <? data_point_count)
           (" | Points:" ++ render_int data_point_count) in
    logged self
      (AuditChain.log (chain_ self) now msg AuditChain.Operator AuditChain.Info)).

Definition log_protocol_deviation (self : t) (now : AuditChain.time_point)
    (patient_id deviation_type description : string)
    (severity : AuditChain.Severity) : result string * t :=
  with_anon_id self patient_id (fun self anon_id =>
    let msg :=
      "Protocol Deviation | " ++
      "PatientID:" ++ anon_id ++ " | " ++
      "Type:" ++ deviation_type ++ " | " ++
      "Description:" ++ description ++
      when (negb (empty (protocol_id_ self)))
           (" | Protocol:" ++ protocol_id_ self) in
    logged self
      (AuditChain.log (chain_ self) now msg AuditChain.Operator severity)).

Definition log_adverse_event (self : t) (now : AuditChain.time_point)
    (patient_id ae_type severity : string) (relatedness : bool)
  : result string * t :=
  with_anon_id self patient_id (fun self anon_id =>
    let msg :=
      "Adverse Event | " ++
      "PatientID:" ++ anon_id ++ " | " ++
      "Type:" ++ ae_type ++ " | " ++
      "Severity:" ++ severity ++ " | " ++
      "Related:" ++ (if relatedness then "Yes" else "No") in
    logged self
      (AuditChain.log (chain_ self) now msg AuditChain.Operator AuditChain.Error)).

(** This member does not call the anonymizer. *)
Definition log_data_export (self : t) (now : AuditChain.time_point)
    (export_type destination : string) (record_count : Z) (anonymized : bool)
  : result string * t :=
  let msg :=
    "Data Exported | " ++
    "Type:" ++ export_type ++ " | " ++
    "Destination:" ++ destination ++ " | " ++
    "Records:" ++ render_int record_count ++ " | " ++
    "Anonymized:" ++ (if anonymized then "Yes" else "No") in
  let '(entry, self') :=
    logged self
      (AuditChain.log (chain_ self) now msg AuditChain.Admin AuditChain.Info) in
  (Ret entry, self').

Definition get_chain_hash (self : t) : string :=
  AuditChain.get_chain_hash (chain_ self).

Inductive call : Type :=
| Call_patient_enrolled (patient_id site_id enrollment_date : string)
| Call_visit_event (event_type : TrialEventType) (patient_id : string)
    (visit_number : Z) (visit_type : string)
| Call_data_collected (patient_id data_type form_id : string)
    (data_point_count : Z)
| Call_protocol_deviation (patient_id deviation_type description : string)
    (severity : AuditChain.Severity)
| Call_adverse_event (patient_id ae_type severity : string) (relatedness : bool)
| Call_data_export (export_type destination : string) (record_count : Z)
    (anonymized : bool).

Definition invoke (self : t) (now : AuditChain.time_point) (c : call)
  : result string * t :=
  match c with
  | Call_patient_enrolled patient_id site_id enrollment_date =>
      log_patient_enrolled self now patient_id site_id enrollment_date
  | Call_visit_event event_type patient_id visit_number visit_type =>
      log_visit_event self now event_type patient_id visit_number visit_type
  | Call_data_collected patient_id data_type form_id data_point_count =>
      log_data_collected self now patient_id data_type form_id data_point_count
  | Call_protocol_deviation patient_id deviation_type description severity =>
      log_protocol_deviation self now patient_id deviation_type description
                             severity
  | Call_adverse_event patient_id ae_type severity relatedness =>
      log_adverse_event self now patient_id ae_type severity relatedness
  | Call_data_export export_type destination record_count anonymized =>
      log_data_export self now export_type destination record_count anonymized
  end.

(** An anonymizer that does not act on the chain: the chain after the call
    is the chain before it, whether the call returns or throws. *)
Definition leaves_chain (f : AnonymizerFunc) : Prop :=
  forall id chain, fst (f id chain) = chain.

(** An anonymizer that always returns. *)
Definition never_throws (f : AnonymizerFunc) : Prop :=
  forall id chain, exists anon_id, snd (f id chain) = Ret anon_id.

End ClinicalTrialAdapter.

(** An anonymizer of a caller: it refuses the empty identifier by an
    exception and does not act on the chain. *)
Definition strict_anonymizer : ClinicalTrialAdapter.AnonymizerFunc :=
  fun id chain =>
    (chain, if empty id then Throw invalid_argument else Ret ("SUBJ-" ++ id)).

(** ** class DICOMAdapter ([dicom_adapter.hpp]) *)

Module DICOMAdapter.

Record t : Type := Adapter {
  chain_ : AuditChain.t;
  ae_title_ : string
}.

Definition new (device_id ae_title : string) : t :=
  {| chain_ := AuditChain.new device_id; ae_title_ := ae_title |}.

Definition logged (self : t) (r : string * AuditChain.t) : string * t :=
  (fst r, {| chain_ := snd r; ae_title_ := ae_title_ self |}).

Definition log_study_created (self : t) (now : AuditChain.time_point)
    (study_instance_uid patient_id modality : string)
    (user_id : AuditChain.UserID) : string * t :=
  let msg :=
    "DICOM Study Created | " ++
    "StudyInstanceUID:" ++ study_instance_uid ++ " | " ++
    "PatientID:" ++ patient_id ++ " | " ++
    "Modality:" ++ modality ++
    when (negb (empty (ae_title_ self))) (" | AETitle:" ++ ae_title_ self) in
  logged self (AuditChain.log (chain_ self) now msg user_id AuditChain.Info).

Definition log_ai_inference_request (self : t) (now : AuditChain.time_point)
    (study_instance_uid model_name model_version : string)
    (input_instances : Z) : string * t :=
  let msg :=
    "AI Inference Request | " ++
    "StudyInstanceUID:" ++ study_instance_uid ++ " | " ++
    "Model:" ++ model_name ++ " | " ++
    "Version:" ++ model_version ++ " | " ++
    "InputInstances:" ++ render_int input_instances in
  logged self
    (AuditChain.log (chain_ self) now msg AuditChain.System AuditChain.Warning).

Definition log_ai_inference_completed (self : t) (now : AuditChain.time_point)
    (study_instance_uid model_name inference_id result_summary : string)
  : string * t :=
  let msg :=
    "AI Inference Completed | " ++
    "StudyInstanceUID:" ++ study_instance_uid ++ " | " ++
    "Model:" ++ model_name ++ " | " ++
    "InferenceID:" ++ inference_id ++ " | " ++
    "Result:" ++ result_summary in
  logged self
    (AuditChain.log (chain_ self) now msg AuditChain.System AuditChain.Info).

Definition log_instance_stored (self : t) (now : AuditChain.time_point)
    (study_instance_uid sop_instance_uid sop_class_uid : string) : string * t :=
  let msg :=
    "DICOM Instance Stored | " ++
    "StudyInstanceUID:" ++ study_instance_uid ++ " | " ++
    "SOPInstanceUID:" ++ sop_instance_uid ++ " | " ++
    "SOPClassUID:" ++ sop_class_uid in
  logged self
    (AuditChain.log (chain_ self) now msg AuditChain.System AuditChain.Info).

Definition log_transfer_initiated (self : t) (now : AuditChain.time_point)
    (study_instance_uid destination transfer_syntax : string) : string * t :=
  let msg :=
    "DICOM Transfer Initiated | " ++
    "StudyInstanceUID:" ++ study_instance_uid ++ " | " ++
    "Destination:" ++ destination ++
    when (negb (empty transfer_syntax))
         (" | TransferSyntax:" ++ transfer_syntax) in
  logged self
    (AuditChain.log (chain_ self) now msg AuditChain.System AuditChain.Info).

Definition log_access_event (self : t) (now : AuditChain.time_point)
    (study_instance_uid : string) (user_id : AuditChain.UserID)
    (granted : bool) (reason : string) : string * t :=
  let msg :=
    "DICOM Access " ++ (if granted then "Granted" else "Denied") ++ " | " ++
    "StudyInstanceUID:" ++ study_instance_uid ++
    when (negb granted && negb (empty reason)) (" | Reason:" ++ reason) in
  logged self
    (AuditChain.log (chain_ self) now msg user_id
       (if granted then AuditChain.Info else AuditChain.Warning)).

Definition get_chain_hash (self : t) : string :=
  AuditChain.get_chain_hash (chain_ self).

Inductive call : Type :=
| Call_study_created (study_instance_uid patient_id modality : string)
    (user_id : AuditChain.UserID)
| Call_ai_inference_request (study_instance_uid model_name model_version : string)
    (input_instances : Z)
| Call_ai_inference_completed
    (study_instance_uid model_name inference_id result_summary : string)
| Call_instance_stored
    (study_instance_uid sop_instance_uid sop_class_uid : string)
| Call_transfer_initiated
    (study_instance_uid destination transfer_syntax : string)
| Call_access_event (study_instance_uid : string) (user_id : AuditChain.UserID)
    (granted : bool) (reason : string).

Definition invoke (self : t) (now : AuditChain.time_point) (c : call)
  : string * t :=
  match c with
  | Call_study_created study_instance_uid patient_id modality user_id =>
      log_study_created self now study_instance_uid patient_id modality user_id
  | Call_ai_inference_request study_instance_uid model_name model_version
                              input_instances =>
      log_ai_inference_request self now study_instance_uid model_name
                               model_version input_instances
  | Call_ai_inference_completed study_instance_uid model_name inference_id
                                result_summary =>
      log_ai_inference_completed self now study_instance_uid model_name
                                 inference_id result_summary
  | Call_instance_stored study_instance_uid sop_instance_uid sop_class_uid =>
      log_instance_stored self now study_instance_uid sop_instance_uid
                          sop_class_uid
  | Call_transfer_initiated study_instance_uid destination transfer_syntax =>
      log_transfer_initiated self now study_instance_uid destination
                             transfer_syntax
  | Call_access_event study_instance_uid user_id granted reason =>
      log_access_event self now study_instance_uid user_id granted reason
  end.

End DICOMAdapter.

(** ** class IndustrialAdapter ([industrial_adapter.hpp]) *)

Module IndustrialAdapter.

(** [Other] also stands for a value that is none of the enumerators, which
    the [switch] of [log_protocol_event] sends to its [default] label. *)
Inductive ProtocolType : Type :=
  Modbus | OPCUA | EtherNetIP | Profinet | DNP3 | IEC61850 | BACnet | KNX |
  MQTT | Other.

Inductive ProductionEventType : Type :=
  BatchStarted | BatchCompleted | BatchAborted | RecipeLoaded | RecipeChanged |
  QualityCheckPassed | QualityCheckFailed.

Record t : Type := Adapter {
  chain_ : AuditChain.t;
  asset_tag_ : string;
  line_id_ : string
}.

Definition new (device_id asset_tag line_id : string) : t :=
  {| chain_ := AuditChain.new device_id;
     asset_tag_ := asset_tag; line_id_ := line_id |}.

Definition logged (self : t) (r : string * AuditChain.t) : string * t :=
  (fst r, {| chain_ := snd r; asset_tag_ := asset_tag_ self;
             line_id_ := line_id_ self |}).

Definition log_plc_event (self : t) (now : AuditChain.time_point)
    (program_name : string) (rung_number : Z) (event_description : string)
  : string * t :=
  let msg :=
    "PLC Event | Program:" ++ program_name ++
    when (0 <=? rung_number) (" | Rung:" ++ render_int rung_number) ++
    when (negb (empty event_description)) (" | " ++ event_description) ++
    when (negb (empty (asset_tag_ self))) (" | Asset:" ++ asset_tag_ self) in
  logged self
    (AuditChain.log (chain_ self) now msg AuditChain.System AuditChain.Info).

Definition log_io_change (self : t) (now : AuditChain.time_point)
    (io_address old_value new_value : string) (is_output : bool) : string * t :=
  let msg :=
    "I/O Change | " ++
    (if is_output then "Output" else "Input") ++ ":" ++ io_address ++ " | " ++
    "From:" ++ old_value ++ " | " ++
    "To:" ++ new_value ++
    when (negb (empty (asset_tag_ self))) (" | Asset:" ++ asset_tag_ self) in
  logged self
    (AuditChain.log (chain_ self) now msg AuditChain.System AuditChain.Info).

Definition log_scada_alarm (self : t) (now : AuditChain.time_point)
    (alarm_id alarm_message : string) (severity : AuditChain.Severity)
    (acknowledged : bool) : string * t :=
  let msg :=
    "SCADA Alarm | " ++
    "ID:" ++ alarm_id ++ " | " ++
    "Message:" ++ alarm_message ++ " | " ++
    "Acknowledged:" ++ (if acknowledged then "Yes" else "No") ++
    when (negb (empty (asset_tag_ self))) (" | Asset:" ++ asset_tag_ self) in
  logged self (AuditChain.log (chain_ self) now msg AuditChain.Operator severity).

Definition log_production_event (self : t) (now : AuditChain.time_point)
    (event_type : ProductionEventType) (batch_id product_code : string)
    (quantity : Z) : string * t :=
  let msg :=
    match event_type with
    | BatchStarted => "Batch Started"
    | BatchCompleted => "Batch Completed"
    | BatchAborted => "Batch Aborted"
    | RecipeLoaded => "Recipe Loaded"
    | RecipeChanged => "Recipe Changed"
    | QualityCheckPassed => "Quality Check Passed"
    | QualityCheckFailed => "Quality Check Failed"
    end ++
    " | BatchID:" ++ batch_id ++
    when (negb (empty product_code)) (" | Product:" ++ product_code) ++
    when (0 <? quantity) (" | Quantity:" ++ render_int quantity) ++
    when (negb (empty (line_id_ self))) (" | Line:" ++ line_id_ self) in
  let sev :=
    match event_type with
    | QualityCheckFailed | BatchAborted => AuditChain.Error
    | _ => AuditChain.Info
    end in
  logged self (AuditChain.log (chain_ self) now msg AuditChain.Operator sev).

Definition log_protocol_event (self : t) (now : AuditChain.time_point)
    (protocol : ProtocolType) (source_address destination_address : string)
    (function_code : string) (success : bool) : string * t :=
  let msg :=
    "Protocol Event | " ++
    match protocol with
    | Modbus => "Modbus"
    | OPCUA => "OPC UA"
    | EtherNetIP => "EtherNet/IP"
    | Profinet => "Profinet"
    | DNP3 => "DNP3"
    | IEC61850 => "IEC 61850"
    | BACnet => "BACnet"
    | KNX => "KNX"
    | MQTT => "MQTT"
    | Other => "Other"
    end ++
    " | From:" ++ source_address ++ " | To:" ++ destination_address ++
    when (negb (empty function_code)) (" | Function:" ++ function_code) ++
    " | Status:" ++ (if success then "Success" else "Failed") in
  logged self
    (AuditChain.log (chain_ self) now msg AuditChain.System
       (if success then AuditChain.Info else AuditChain.Warning)).

Definition log_safety_interlock (self : t) (now : AuditChain.time_point)
    (interlock_id : string) (triggered : bool) (reason : string) : string * t :=
  let msg :=
    "Safety Interlock " ++ (if triggered then "TRIGGERED" else "RESET") ++ " | " ++
    "ID:" ++ interlock_id ++
    when (negb (empty reason)) (" | Reason:" ++ reason) ++
    when (negb (empty (asset_tag_ self))) (" | Asset:" ++ asset_tag_ self) in
  logged self
    (AuditChain.log (chain_ self) now msg AuditChain.System
       (if triggered then AuditChain.Critical else AuditChain.Info)).

Definition log_equipment_status (self : t) (now : AuditChain.time_point)
    (equipment_id old_status new_status : string) : string * t :=
  let msg :=
    "Equipment Status Change | " ++
    "Equipment:" ++ equipment_id ++ " | " ++
    "From:" ++ old_status ++ " | " ++
    "To:" ++ new_status ++
    when (negb (empty (line_id_ self))) (" | Line:" ++ line_id_ self) in
  logged self
    (AuditChain.log (chain_ self) now msg AuditChain.System AuditChain.Info).

Definition log_parameter_change (self : t) (now : AuditChain.time_point)
    (parameter_name old_value new_value : string) (user_id : AuditChain.UserID)
  : string * t :=
  let msg :=
    "Parameter Changed | " ++
    "Parameter:" ++ parameter_name ++ " | " ++
    "From:" ++ old_value ++ " | " ++
    "To:" ++ new_value ++
    when (negb (empty (asset_tag_ self))) (" | Asset:" ++ asset_tag_ self) in
  logged self (AuditChain.log (chain_ self) now msg user_id AuditChain.Warning).

Definition log_maintenance (self : t) (now : AuditChain.time_point)
    (maintenance_type technician_id description : string) : string * t :=
  let msg :=
    "Maintenance | " ++
    "Type:" ++ maintenance_type ++ " | " ++
    "Technician:" ++ technician_id ++
    when (negb (empty description)) (" | Description:" ++ description) ++
    when (negb (empty (asset_tag_ self))) (" | Asset:" ++ asset_tag_ self) in
  logged self
    (AuditChain.log (chain_ self) now msg AuditChain.Service AuditChain.Info).

Definition get_chain_hash (self : t) : string :=
  AuditChain.get_chain_hash (chain_ self).

Inductive call : Type :=
| Call_plc_event (program_name : string) (rung_number : Z)
    (event_description : string)
| Call_io_change (io_address old_value new_value : string) (is_output : bool)
| Call_scada_alarm (alarm_id alarm_message : string)
    (severity : AuditChain.Severity) (acknowledged : bool)
| Call_production_event (event_type : ProductionEventType)
    (batch_id product_code : string) (quantity : Z)
| Call_protocol_event (protocol : ProtocolType)
    (source_address destination_address function_code : string) (success : bool)
| Call_safety_interlock (interlock_id : string) (triggered : bool)
    (reason : string)
| Call_equipment_status (equipment_id old_status new_status : string)
| Call_parameter_change (parameter_name old_value new_value : string)
    (user_id : AuditChain.UserID)
| Call_maintenance (maintenance_type technician_id description : string).

Definition invoke (self : t) (now : AuditChain.time_point) (c : call)
  : string * t :=
  match c with
  | Call_plc_event program_name rung_number event_description =>
      log_plc_event self now program_name rung_number event_description
  | Call_io_change io_address old_value new_value is_output =>
      log_io_change self now io_address old_value new_value is_output
  | Call_scada_alarm alarm_id alarm_message severity acknowledged =>
      log_scada_alarm self now alarm_id alarm_message severity acknowledged
  | Call_production_event event_type batch_id product_code quantity =>
      log_production_event self now event_type batch_id product_code quantity
  | Call_protocol_event protocol source_address destination_address
                        function_code success =>
      log_protocol_event self now protocol source_address destination_address
                         function_code success
  | Call_safety_interlock interlock_id triggered reason =>
      log_safety_interlock self now interlock_id triggered reason
  | Call_equipment_status equipment_id old_status new_status =>
      log_equipment_status self now equipment_id old_status new_status
  | Call_parameter_change parameter_name old_value new_value user_id =>
      log_parameter_change self now parameter_name old_value new_value user_id
  | Call_maintenance maintenance_type technician_id description =>
      log_maintenance self now maintenance_type technician_id description
  end.

End IndustrialAdapter.

(** ** class BuildingAutomationAdapter ([building_automation_adapter.hpp])

    The members [log_hvac_event] and [log_energy_consumption] print a
    [double] into the message; they are left out, the others follow. *)

Module BuildingAutomationAdapter.

Record t : Type := Adapter {
  chain_ : AuditChain.t;
  building_id_ : string;
  zone_id_ : string
}.

Definition new (device_id building_id zone_id : string) : t :=
  {| chain_ := AuditChain.new device_id;
     building_id_ := building_id; zone_id_ := zone_id |}.

Definition logged (self : t) (r : string * AuditChain.t) : string * t :=
  (fst r, {| chain_ := snd r; building_id_ := building_id_ self;
             zone_id_ := zone_id_ self |}).

Definition log_lighting_event (self : t) (now : AuditChain.time_point)
    (zone : string) (old_level new_level : Z) (control_source : string)
  : string * t :=
  let msg :=
    "Lighting Control | " ++
    "Zone:" ++ zone ++ " | " ++
    "From:" ++ render_int old_level ++ "% | " ++
    "To:" ++ render_int new_level ++ "% | " ++
    "Source:" ++ control_source in
  logged self
    (AuditChain.log (chain_ self) now msg AuditChain.Operator AuditChain.Info).

Definition log_access_control (self : t) (now : AuditChain.time_point)
    (door_id user_id : string) (granted : bool) (reason : string) : string * t :=
  let msg :=
    "Access Control | " ++
    "Door:" ++ door_id ++ " | " ++
    "User:" ++ user_id ++ " | " ++
    "Granted:" ++ (if granted then "Yes" else "No") ++
    when (negb granted && negb (empty reason)) (" | Reason:" ++ reason) in
  logged self
    (AuditChain.log (chain_ self) now msg AuditChain.System
       (if granted then AuditChain.Info else AuditChain.Warning)).

Definition log_fire_safety_event (self : t) (now : AuditChain.time_point)
    (event_type location : string) (severity : AuditChain.Severity)
  : string * t :=
  let msg :=
    "Fire Safety Event | " ++
    "Type:" ++ event_type ++ " | " ++
    "Location:" ++ location ++
    when (negb (empty (zone_id_ self))) (" | Zone:" ++ zone_id_ self) in
  logged self (AuditChain.log (chain_ self) now msg AuditChain.System severity).

Definition log_knx_event (self : t) (now : AuditChain.time_point)
    (group_address data_value data_type : string) : string * t :=
  let msg :=
    "KNX Event | " ++
    "GroupAddress:" ++ group_address ++ " | " ++
    "Value:" ++ data_value ++
    when (negb (empty data_type)) (" | DPT:" ++ data_type) in
  logged self
    (AuditChain.log (chain_ self) now msg AuditChain.System AuditChain.Info).

(** [object_instance] is a [uint32_t]. *)
Definition log_bacnet_event (self : t) (now : AuditChain.time_point)
    (object_type : string) (object_instance : Z) (property_name value : string)
  : string * t :=
  let msg :=
    "BACnet Event | " ++
    "ObjectType:" ++ object_type ++ " | " ++
    "Instance:" ++ render_unsigned 10 (SHA256.u32 object_instance) ++ " | " ++
    "Property:" ++ property_name ++ " | " ++
    "Value:" ++ value in
  logged self
    (AuditChain.log (chain_ self) now msg AuditChain.System AuditChain.Info).

Definition log_schedule_event (self : t) (now : AuditChain.time_point)
    (schedule_name action zone : string) : string * t :=
  let msg :=
    "Schedule Event | " ++
    "Schedule:" ++ schedule_name ++ " | " ++
    "Action:" ++ action ++
    when (negb (empty zone)) (" | Zone:" ++ zone) in
  logged self
    (AuditChain.log (chain_ self) now msg AuditChain.System AuditChain.Info).

Definition log_elevator_event (self : t) (now : AuditChain.time_point)
    (elevator_id event_type : string) (floor : Z) : string * t :=
  let msg :=
    "Elevator Event | " ++
    "Elevator:" ++ elevator_id ++ " | " ++
    "Type:" ++ event_type ++
    when (0 <=? floor) (" | Floor:" ++ render_int floor) ++
    when (negb (empty (building_id_ self)))
         (" | Building:" ++ building_id_ self) in
  logged self
    (AuditChain.log (chain_ self) now msg AuditChain.System AuditChain.Info).

Definition log_security_event (self : t) (now : AuditChain.time_point)
    (event_type location : string) (severity : AuditChain.Severity)
  : string * t :=
  let msg :=
    "Security Event | " ++
    "Type:" ++ event_type ++ " | " ++
    "Location:" ++ location ++
    when (negb (empty (zone_id_ self))) (" | Zone:" ++ zone_id_ self) in
  logged self (AuditChain.log (chain_ self) now msg AuditChain.System severity).

Definition get_chain_hash (self : t) : string :=
  AuditChain.get_chain_hash (chain_ self).

Inductive call : Type :=
| Call_lighting_event (zone : string) (old_level new_level : Z)
    (control_source : string)
| Call_access_control (door_id user_id : string) (granted : bool)
    (reason : string)
| Call_fire_safety_event (event_type location : string)
    (severity : AuditChain.Severity)
| Call_knx_event (group_address data_value data_type : string)
| Call_bacnet_event (object_type : string) (object_instance : Z)
    (property_name value : string)
| Call_schedule_event (schedule_name action zone : string)
| Call_elevator_event (elevator_id event_type : string) (floor : Z)
| Call_security_event (event_type location : string)
    (severity : AuditChain.Severity).

Definition invoke (self : t) (now : AuditChain.time_point) (c : call)
  : string * t :=
  match c with
  | Call_lighting_event zone old_level new_level control_source =>
      log_lighting_event self now zone old_level new_level control_source
  | Call_access_control door_id user_id granted reason =>
      log_access_control self now door_id user_id granted reason
  | Call_fire_safety_event event_type location severity =>
      log_fire_safety_event self now event_type location severity
  | Call_knx_event group_address data_value data_type =>
      log_knx_event self now group_address data_value data_type
  | Call_bacnet_event object_type object_instance property_name value =>
      log_bacnet_event self now object_type object_instance property_name value
  | Call_schedule_event schedule_name action zone =>
      log_schedule_event self now schedule_name action zone
  | Call_elevator_event elevator_id event_type floor =>
      log_elevator_event self now elevator_id event_type floor
  | Call_security_event event_type location severity =>
      log_security_event self now event_type location severity
  end.

End BuildingAutomationAdapter.
(** * Properties *)

(** ** Text lemmas *)

Lemma append_assoc (a b c : string) : (a ++ b) ++ c = a ++ b ++ c.
Proof. induction a as [|x a IH]; simpl; [reflexivity | now rewrite IH]. Qed.

Lemma length_append (a b : string) :
  String.length (a ++ b) = (String.length a + String.length b)%nat.
Proof. induction a as [|x a IH]; simpl; [reflexivity | now rewrite IH]. Qed.

Lemma drop_append (a b : string) (n : nat) :
  drop (String.length a + n) (a ++ b) = drop n b.
Proof. induction a as [|x a IH]; simpl; [reflexivity | exact IH]. Qed.

Lemma drop_length_append (a b : string) : drop (String.length a) (a ++ b) = b.
Proof.
  rewrite <- (Nat.add_0_r (String.length a)), drop_append.
  now destruct b.
Qed.

Lemma take_length_append (a b : string) : take (String.length a) (a ++ b) = a.
Proof. induction a as [|x a IH]; simpl; [now destruct b | now rewrite IH]. Qed.

Lemma append_inv_head (a b c : string) : a ++ b = a ++ c -> b = c.
Proof. induction a as [|x a IH]; simpl; intros H; [exact H | inversion H; auto]. Qed.

Lemma prefixb_append (p s : string) : prefixb p (p ++ s) = true.
Proof.
  induction p as [|a p IH]; simpl; [reflexivity|].
  now rewrite Ascii.eqb_refl, IH.
Qed.

(** ** Searching an entry for a key *)

Lemma skips_append (key p1 p2 rest : string) :
  skips key p1 (p2 ++ rest) -> skips key p2 rest -> skips key (p1 ++ p2) rest.
Proof.
  unfold skips; intros H1 H2.
  rewrite append_assoc, H1, H2, length_append.
  destruct (find rest key); simpl; [f_equal; lia | reflexivity].
Qed.

Lemma skips_nil (key rest : string) : skips key "" rest.
Proof. unfold skips; simpl. now destruct (find rest key). Qed.

Lemma skips_char (key : string) (c : ascii) (rest : string) :
  prefixb key (String c rest) = false -> skips key (String c "") rest.
Proof.
  unfold skips; intros H. cbn [append String.length].
  cbn [find]. rewrite H. now destruct (find rest key).
Qed.

Lemma find_hit (key p rest : string) :
  skips key p (key ++ rest) -> find (p ++ key ++ rest) key = Some (String.length p).
Proof.
  unfold skips; intros ->.
  assert (find (key ++ rest) key = Some O) as ->.
  { destruct (key ++ rest) eqn:E; cbn [find]; rewrite <- E, prefixb_append; reflexivity. }
  simpl. f_equal. lia.
Qed.

Lemma all_chars_append (f : ascii -> bool) (a b : string) :
  all_chars f (a ++ b) = all_chars f a && all_chars f b.
Proof.
  induction a as [|x a IH]; cbn [append all_chars]; [reflexivity|].
  now rewrite IH, andb_assoc.
Qed.

Lemma all_chars_impl (f g : ascii -> bool) (s : string) :
  (forall c, f c = true -> g c = true) ->
  all_chars f s = true -> all_chars g s = true.
Proof.
  intros Hfg; induction s as [|c s IH]; cbn [all_chars]; [reflexivity|].
  intros H; apply andb_prop in H as [H1 H2].
  now rewrite (Hfg _ H1), IH.
Qed.

Lemma no_quote_append (a b : string) :
  no_quote (a ++ b) = no_quote a && no_quote b.
Proof. apply all_chars_append. Qed.

Lemma no_quote_guarded (s : string) (b : bool) :
  no_quote s = true -> guarded b s = true.
Proof.
  revert b; induction s as [|c s IH]; cbn [no_quote all_chars guarded];
    intros b H; [reflexivity|].
  apply andb_prop in H as [H1 H2].
  destruct (Ascii.eqb c dquote); [discriminate|]. now apply IH.
Qed.

Lemma skips_no_quote (name x rest : string) :
  no_quote x = true -> skips (key_of name) x rest.
Proof.
  induction x as [|c x IH]; intros H; [apply skips_nil|].
  cbn [no_quote all_chars] in H. apply andb_prop in H as [H1 H2].
  change (String c x) with (String c "" ++ x).
  apply skips_append; [|now apply IH].
  apply skips_char. cbn [key_of q append prefixb].
  rewrite Ascii.eqb_sym. now destruct (Ascii.eqb c dquote).
Qed.

(** A key can only match at an opening quote whose text is the key's name
    and which is followed by a colon. *)
Lemma prefixb_name_inv (name x rest tl : string) :
  plain name = true -> guarded false x = true ->
  prefixb (name ++ String dquote tl) (x ++ String dquote rest) = true ->
  x = name /\ prefixb tl rest = true.
Proof.
  revert x; induction name as [|n name IH]; intros x Hp Hg H.
  - destruct x as [|c x]; cbn [append prefixb] in H.
    + rewrite Ascii.eqb_refl in H. now split.
    + cbn [guarded] in Hg. rewrite Ascii.eqb_sym in H.
      destruct (Ascii.eqb c dquote); discriminate.
  - cbn [plain all_chars] in Hp. apply andb_prop in Hp as [Hn Hp].
    apply andb_prop in Hn as [Hn1 Hn2].
    destruct x as [|c x]; cbn [append prefixb] in H.
    + destruct (Ascii.eqb n dquote); discriminate.
    + destruct (Ascii.eqb_spec n c) as [<-|]; [|discriminate].
      cbn [guarded] in Hg. destruct (Ascii.eqb n dquote); [discriminate|].
      destruct (Ascii.eqb n bslash); [discriminate|].
      destruct (IH x Hp Hg H) as [-> Ht]. now split.
Qed.

Lemma skips_open_quote (name x rest : string) :
  plain name = true -> guarded false x = true ->
  (x = name -> prefixb (":" ++ q) rest = false) ->
  skips (key_of name) q (x ++ String dquote rest).
Proof.
  intros Hp Hg Hne. apply skips_char.
  destruct (prefixb (key_of name) (String dquote (x ++ String dquote rest))) eqn:E;
    [|reflexivity].
  cbn [key_of q append prefixb] in E. rewrite Ascii.eqb_refl in E.
  cbn [andb] in E.
  apply prefixb_name_inv in E as [-> Ht]; try assumption.
  specialize (Hne eq_refl).
  change (prefixb (":" ++ q) rest = true) in Ht. congruence.
Qed.

Lemma skips_guarded (name x rest : string) (b : bool) :
  plain name = true -> guarded b x = true ->
  prefixb (":" ++ q) rest = false ->
  skips (key_of name) x (String dquote rest).
Proof.
  intros Hp; revert b; induction x as [|c x IH]; intros b Hg Hr; [apply skips_nil|].
  cbn [guarded] in Hg. apply andb_prop in Hg as [Hc Hg].
  change (String c x) with (String c "" ++ x).
  apply skips_append; [|now apply (IH _ Hg)].
  destruct (Ascii.eqb_spec c dquote) as [->|Hne].
  - apply (skips_open_quote name x rest Hp); [|intros _; exact Hr].
    exact Hg.
  - apply skips_char. cbn [key_of q append prefixb].
    destruct (Ascii.eqb_spec dquote c); [congruence | reflexivity].
Qed.

(** ** What the rendering functions print *)

Lemma lower_hex_char_digit (d : Z) : lower_hex_char (digit_char d) = true.
Proof.
  destruct d as [|p|p]; try reflexivity.
  do 5 (try destruct p as [p|p|]); reflexivity.
Qed.

Lemma lower_hex_char_not_quote (c : ascii) :
  lower_hex_char c = true -> negb (Ascii.eqb c dquote) = true.
Proof.
  destruct (Ascii.eqb_spec c dquote) as [->|]; [discriminate | reflexivity].
Qed.

Lemma lower_hex_no_quote (s : string) : lower_hex s = true -> no_quote s = true.
Proof. apply all_chars_impl, lower_hex_char_not_quote. Qed.

Lemma all_chars_render_digits (f : ascii -> bool) (fuel : nat) (base n : Z)
    (acc : string) :
  (forall d, f (digit_char d) = true) ->
  all_chars f acc = true -> all_chars f (render_digits fuel base n acc) = true.
Proof.
  intros Hf; revert n acc; induction fuel as [|fuel IH]; intros n acc Hacc;
    cbn [render_digits]; [exact Hacc|].
  destruct (n / base =? 0).
  - cbn [all_chars]. now rewrite Hf, Hacc.
  - apply IH. cbn [all_chars]. now rewrite Hf, Hacc.
Qed.

Lemma lower_hex_render_hex (n : Z) : lower_hex (render_hex n) = true.
Proof.
  apply all_chars_render_digits; [apply lower_hex_char_digit | reflexivity].
Qed.

Lemma all_chars_setw (f : ascii -> bool) (w : nat) (fill : ascii) (s : string) :
  f fill = true -> all_chars f s = true -> all_chars f (setw w fill s) = true.
Proof.
  intros Hf Hs; unfold setw.
  induction (w - String.length s)%nat as [|k IH]; [exact Hs|].
  cbn [all_chars]. now rewrite Hf, IH.
Qed.

Lemma no_quote_render_int (n : Z) : no_quote (render_int n) = true.
Proof.
  assert (H : forall m, no_quote (render_unsigned 10 m) = true).
  { intros m. apply all_chars_render_digits; [|reflexivity].
    intros d. apply lower_hex_char_not_quote, lower_hex_char_digit. }
  unfold render_int. destruct (n <? 0); [|apply H].
  unfold no_quote in *. cbn [all_chars]. now rewrite H.
Qed.

Lemma no_quote_setw_int (w : nat) (n : Z) :
  no_quote (setw w "0" (render_int n)) = true.
Proof. apply all_chars_setw; [reflexivity | apply no_quote_render_int]. Qed.

Lemma no_quote_timestamp (now : AuditChain.time_point) :
  no_quote (AuditChain.timestamp_of now) = true.
Proof.
  unfold AuditChain.timestamp_of.
  rewrite !no_quote_append, !no_quote_setw_int, no_quote_render_int.
  reflexivity.
Qed.

Lemma lower_hex_hash_to_hex (hash : list Z) :
  lower_hex (AuditChain.hash_to_hex hash) = true.
Proof.
  induction hash as [|b hash IH]; cbn [AuditChain.hash_to_hex fold_right];
    [reflexivity|].
  unfold lower_hex. rewrite all_chars_append.
  apply andb_true_intro; split; [|exact IH].
  apply all_chars_setw; [reflexivity | apply lower_hex_render_hex].
Qed.

Lemma no_quote_hash_to_hex (hash : list Z) :
  no_quote (AuditChain.hash_to_hex hash) = true.
Proof. apply lower_hex_no_quote, lower_hex_hash_to_hex. Qed.

Lemma In_bytes_0_255 (b : Z) : 0 <= b < 256 -> In b bytes_0_255.
Proof.
  intros H. unfold bytes_0_255.
  rewrite <- (Z2Nat.id b) by lia.
  apply in_map, in_seq. lia.
Qed.

Lemma setw_render_hex_byte (b : Z) :
  0 <= b < 256 -> setw 2 "0" (render_hex b) = two_digits b.
Proof.
  intros H.
  assert (A : forallb (fun b => String.eqb (setw 2 "0" (render_hex b)) (two_digits b))
                      bytes_0_255 = true) by (vm_compute; reflexivity).
  rewrite forallb_forall in A.
  now apply String.eqb_eq, A, In_bytes_0_255.
Qed.

Lemma stoi16_two_digits (b : Z) : 0 <= b < 256 -> stoi16 (two_digits b) = Ret b.
Proof.
  intros H.
  assert (A : forallb (fun b => match stoi16 (two_digits b) with
                                | Ret v => v =? b
                                | Throw _ => false
                                end) bytes_0_255 = true) by (vm_compute; reflexivity).
  rewrite forallb_forall in A.
  specialize (A b (In_bytes_0_255 b H)).
  destruct (stoi16 (two_digits b)); [|discriminate].
  apply Z.eqb_eq in A. now subst.
Qed.

Lemma is_byte_range (b : Z) : is_byte b = true -> 0 <= b < 256.
Proof. unfold is_byte; intros H; apply andb_prop in H as [H1 H2]; lia. Qed.

Lemma length_hash_to_hex (hash : list Z) :
  forallb is_byte hash = true ->
  String.length (AuditChain.hash_to_hex hash) = (2 * List.length hash)%nat.
Proof.
  induction hash as [|b hash IH]; cbn [forallb AuditChain.hash_to_hex fold_right];
    [reflexivity|].
  intros H; apply andb_prop in H as [Hb Hh].
  rewrite setw_render_hex_byte by now apply is_byte_range.
  cbn [two_digits append String.length List.length].
  fold (AuditChain.hash_to_hex hash). rewrite (IH Hh). lia.
Qed.

(** ** The two keys in an entry written by [log] *)

Lemma log_entry_shape (d ts : string) (u : AuditChain.UserID)
    (sv : AuditChain.Severity) (m : string) (p c : list Z) :
  AuditChain.log_entry_of d ts u sv m p c =
  entry_with (entry_head d ts u sv m)
             (AuditChain.hash_to_hex p) (AuditChain.hash_to_hex c).
Proof.
  unfold AuditChain.log_entry_of, entry_with, entry_head.
  rewrite !append_assoc. reflexivity.
Qed.

Lemma guarded_escape_char (c : ascii) (rest : string) (b : bool) :
  (forall b', guarded b' rest = true) ->
  guarded b (AuditChain.escape_char c ++ rest) = true.
Proof.
  intros H.
  destruct c as [[] [] [] [] [] [] [] []];
    match goal with
    | |- context [AuditChain.escape_char ?c] =>
        let v := eval vm_compute in (AuditChain.escape_char c) in
        change (AuditChain.escape_char c) with v
    end;
    cbn [append guarded]; rewrite H; reflexivity.
Qed.

Lemma guarded_escape_json (m : string) (b : bool) :
  guarded b (AuditChain.escape_json m) = true.
Proof.
  revert b; induction m as [|c m IH]; intros b; [reflexivity|].
  cbn [AuditChain.escape_json]. now apply guarded_escape_char.
Qed.

(** What the pieces of an entry are made of. *)
Create HintDb chars.
#[local] Hint Resolve no_quote_render_int no_quote_timestamp
  no_quote_hash_to_hex guarded_escape_json no_quote_guarded : chars.

(** One step of a walk over the text before a key: a literal character, an
    opening quote followed by a field, or a field. *)
Ltac skip_piece :=
  lazymatch goal with
  | |- skips _ EmptyString _ => apply skips_nil
  | |- skips _ (String ?c EmptyString) _ =>
      first
        [ apply skips_char; reflexivity
        | rewrite ?append_assoc; cbn [append q];
          apply skips_open_quote;
          [ reflexivity
          | auto with chars
          | first [ intros _; reflexivity | discriminate ] ] ]
  | |- skips _ (String ?c ?p) _ =>
      change (String c p) with (String c EmptyString ++ p);
      apply skips_append
  | |- skips _ (?x ++ ?p) _ =>
      apply skips_append;
      [ first
          [ apply skips_no_quote; apply no_quote_render_int
          | cbn [append q];
            apply skips_guarded with (b := false);
            [ reflexivity | auto with chars | reflexivity ] ]
      | ]
  end.

Lemma skips_entry_head (name d ts : string) (u : AuditChain.UserID)
    (sv : AuditChain.Severity) (m rest : string) :
  name = "previous_hash" \/ name = "chain_hash" ->
  no_quote d = true -> no_quote ts = true ->
  skips (key_of name) (entry_head d ts u sv m) rest.
Proof.
  intros Hname Hd Hts.
  unfold entry_head. cbn [append q].
  destruct Hname as [-> | ->]; repeat skip_piece.
Qed.

Lemma find_previous_hash (d ts : string) (u : AuditChain.UserID)
    (sv : AuditChain.Severity) (m prev chain : string) :
  no_quote d = true -> no_quote ts = true ->
  find (entry_with (entry_head d ts u sv m) prev chain)
       AuditChain.key_previous_hash
  = Some (String.length (entry_head d ts u sv m)).
Proof.
  intros Hd Hts. unfold entry_with.
  apply find_hit.
  apply (skips_entry_head "previous_hash"); auto.
Qed.

Lemma entry_with_chain_split (head prev chain : string) :
  entry_with head prev chain =
  (head ++ AuditChain.key_previous_hash ++ prev ++ q ++ ",") ++
  AuditChain.key_chain_hash ++ chain ++ q ++ "}".
Proof. unfold entry_with. rewrite !append_assoc. reflexivity. Qed.

Lemma find_chain_hash (d ts : string) (u : AuditChain.UserID)
    (sv : AuditChain.Severity) (m prev chain : string) :
  no_quote d = true -> no_quote ts = true -> no_quote prev = true ->
  find (entry_with (entry_head d ts u sv m) prev chain)
       AuditChain.key_chain_hash
  = Some (chain_key_pos (entry_head d ts u sv m) prev).
Proof.
  intros Hd Hts Hp. unfold chain_key_pos.
  rewrite entry_with_chain_split.
  apply find_hit.
  apply skips_append; [apply (skips_entry_head "chain_hash"); auto|].
  change AuditChain.key_chain_hash with (key_of "chain_hash").
  unfold AuditChain.key_previous_hash. cbn [append q].
  repeat skip_piece.
Qed.

(** ** Reading the digest fields back *)

Lemma find_char_from_append (pre y : string) :
  find_char_from (pre ++ y) dquote (String.length pre)
  = option_map (Nat.add (String.length pre)) (find_char y dquote).
Proof. unfold find_char_from. now rewrite drop_length_append. Qed.

Lemma extract_hex_append (pre y : string) :
  AuditChain.extract_hex (pre ++ y) (String.length pre) = until_quote y.
Proof.
  unfold AuditChain.extract_hex, until_quote.
  rewrite find_char_from_append, drop_length_append.
  destruct (find_char y dquote) as [e|]; cbn [option_map]; [|reflexivity].
  f_equal. lia.
Qed.

Lemma find_char_no_quote (x rest : string) :
  no_quote x = true ->
  find_char (x ++ String dquote rest) dquote = Some (String.length x).
Proof.
  induction x as [|c x IH]; cbn [no_quote all_chars append find_char String.length].
  - now rewrite Ascii.eqb_refl.
  - intros H; apply andb_prop in H as [H1 H2].
    destruct (Ascii.eqb c dquote); [discriminate|].
    now rewrite (IH H2).
Qed.

Lemma until_quote_no_quote (x rest : string) :
  no_quote x = true -> until_quote (x ++ String dquote rest) = x.
Proof.
  intros H. unfold until_quote.
  now rewrite find_char_no_quote, take_length_append.
Qed.

Lemma length_take (n : nat) (s : string) :
  (n <= String.length s)%nat -> String.length (take n s) = n.
Proof.
  revert s; induction n as [|n IH]; intros [|c s]; cbn; intros H;
    try reflexivity; try lia.
  rewrite IH; lia.
Qed.

Lemma find_char_bound (s : string) (c : ascii) (e : nat) :
  find_char s c = Some e -> (e < String.length s)%nat.
Proof.
  revert e; induction s as [|a s IH]; cbn [find_char String.length]; intros e;
    [discriminate|].
  destruct (Ascii.eqb a c); [intros [= <-]; lia|].
  destruct (find_char s c) as [e'|]; [|discriminate].
  intros [= <-]. specialize (IH e' eq_refl). lia.
Qed.

Lemma until_quote_take (y : string) :
  until_quote y = take (String.length (until_quote y)) y.
Proof.
  unfold until_quote. destruct (find_char y dquote) as [e|] eqn:E.
  - apply find_char_bound in E. rewrite length_take by lia. reflexivity.
  - now destruct y.
Qed.

(** The positions of the two field texts in an entry. *)
Lemma length_key_previous_hash : String.length AuditChain.key_previous_hash = 17%nat.
Proof. reflexivity. Qed.

Lemma length_key_chain_hash : String.length AuditChain.key_chain_hash = 14%nat.
Proof. reflexivity. Qed.

Lemma extract_previous_hash (head prev chain : string) :
  AuditChain.extract_hex (entry_with head prev chain) (String.length head + 17)
  = until_quote (prev ++ String dquote ("," ++ AuditChain.key_chain_hash ++
                                        chain ++ q ++ "}")).
Proof.
  unfold entry_with.
  rewrite <- length_key_previous_hash, <- length_append, <- append_assoc.
  rewrite extract_hex_append. reflexivity.
Qed.

Lemma extract_chain_hash (head prev chain : string) :
  AuditChain.extract_hex (entry_with head prev chain) (chain_key_pos head prev + 14)
  = until_quote (chain ++ String dquote "}").
Proof.
  rewrite entry_with_chain_split. unfold chain_key_pos.
  rewrite <- length_key_chain_hash, <- length_append, <- append_assoc.
  rewrite extract_hex_append. reflexivity.
Qed.

(** ** Digests and their hexadecimal text *)

Lemma u8_byte (b : Z) : 0 <= b < 256 -> SHA256.u8 b = b.
Proof.
  intros H. unfold SHA256.u8. change 0xFF with (Z.ones 8).
  rewrite Z.land_ones by lia. apply Z.mod_small. lia.
Qed.

Lemma is_byte_land (x : Z) : is_byte (Z.land x 0xFF) = true.
Proof.
  change 0xFF with (Z.ones 8). rewrite Z.land_ones by lia.
  pose proof (Z.mod_pos_bound x (2 ^ 8) ltac:(lia)) as H.
  unfold is_byte. apply andb_true_intro; split; lia.
Qed.

Lemma is_digest_finalize (c : SHA256.ctx) : is_digest (SHA256.finalize c) = true.
Proof.
  unfold SHA256.finalize, is_digest.
  cbn [seq flat_map SHA256.word_bytes app List.length forallb].
  rewrite !is_byte_land. reflexivity.
Qed.

Lemma is_digest_hash_str (s : string) : is_digest (SHA256.hash_str s) = true.
Proof. apply is_digest_finalize. Qed.

Lemma hash_to_hex_cons (b : Z) (hash : list Z) :
  0 <= b < 256 ->
  AuditChain.hash_to_hex (b :: hash) = two_digits b ++ AuditChain.hash_to_hex hash.
Proof.
  intros H. cbn [AuditChain.hash_to_hex fold_right].
  now rewrite setw_render_hex_byte.
Qed.

Lemma hex_to_hash_from_hash_to_hex (pre : string) (hash : list Z) (i : nat) :
  forallb is_byte hash = true ->
  String.length pre = (i * 2)%nat ->
  AuditChain.hex_to_hash_from (pre ++ AuditChain.hash_to_hex hash) i
                              (List.length hash)
  = Ret hash.
Proof.
  revert pre i; induction hash as [|b hash IH]; intros pre i Hb Hpre;
    [reflexivity|].
  cbn [forallb] in Hb. apply andb_prop in Hb as [Hb Hh].
  apply is_byte_range in Hb.
  cbn [List.length AuditChain.hex_to_hash_from].
  rewrite hash_to_hex_cons by assumption.
  unfold substr. rewrite <- Hpre.
  assert ((String.length (pre ++ two_digits b ++ AuditChain.hash_to_hex hash)
           <? String.length pre)%nat = false) as ->.
  { apply Nat.ltb_ge. rewrite length_append. lia. }
  rewrite drop_length_append.
  cbn [two_digits append take bind].
  change (String (digit_char (b / 16)) (String (digit_char (b mod 16)) ""))
    with (two_digits b).
  rewrite stoi16_two_digits by assumption. cbn [bind].
  change (String (digit_char (b / 16))
            (String (digit_char (b mod 16)) (AuditChain.hash_to_hex hash)))
    with (two_digits b ++ AuditChain.hash_to_hex hash).
  rewrite <- append_assoc.
  rewrite IH; [cbn [bind]; now rewrite u8_byte | assumption |].
  rewrite length_append. cbn. lia.
Qed.

Lemma hex_to_hash_hash_to_hex (hash : list Z) :
  is_digest hash = true ->
  AuditChain.hex_to_hash (AuditChain.hash_to_hex hash) = Ret hash.
Proof.
  unfold is_digest; intros H; apply andb_prop in H as [Hl Hb].
  apply Nat.eqb_eq in Hl. unfold AuditChain.hex_to_hash. rewrite <- Hl.
  now apply (hex_to_hash_from_hash_to_hex "").
Qed.

Lemma hash_to_hex_injective (h1 h2 : list Z) :
  is_digest h1 = true -> is_digest h2 = true ->
  AuditChain.hash_to_hex h1 = AuditChain.hash_to_hex h2 -> h1 = h2.
Proof.
  intros H1 H2 E.
  apply hex_to_hash_hash_to_hex in H1, H2.
  rewrite E in H1. congruence.
Qed.

Lemma length_hex_digest (hash : list Z) :
  is_digest hash = true -> String.length (AuditChain.hash_to_hex hash) = 64%nat.
Proof.
  unfold is_digest; intros H; apply andb_prop in H as [Hl Hb].
  apply Nat.eqb_eq in Hl. rewrite length_hash_to_hex by assumption. lia.
Qed.

(** ** One pass of the loop of [verify_chain] *)

Lemma findable_entry_head (d ts : string) (u : AuditChain.UserID)
    (sv : AuditChain.Severity) (m : string) :
  no_quote d = true -> no_quote ts = true ->
  findable (entry_head d ts u sv m).
Proof.
  intros Hd Hts prev chain; split; intros.
  - now apply find_previous_hash.
  - now apply find_chain_hash.
Qed.

Lemma verify_loop_bad_previous (head prev chain : string) (expected : list Z)
    (rest : list string) :
  findable head ->
  until_quote (prev ++ String dquote ("," ++ AuditChain.key_chain_hash ++
                                      chain ++ q ++ "}"))
    <> AuditChain.hash_to_hex expected ->
  AuditChain.verify_loop expected (entry_with head prev chain :: rest) = Ret false.
Proof.
  intros Hf Hne. cbn [AuditChain.verify_loop].
  destruct (Hf prev chain) as [-> _].
  destruct (find _ AuditChain.key_chain_hash); [|reflexivity].
  rewrite extract_previous_hash.
  apply String.eqb_neq in Hne. now rewrite Hne.
Qed.

Lemma verify_loop_good_previous (head chain : string) (expected : list Z)
    (rest : list string) :
  findable head ->
  AuditChain.verify_loop expected
    (entry_with head (AuditChain.hash_to_hex expected) chain :: rest)
  = (e <- AuditChain.hex_to_hash (until_quote (chain ++ String dquote "}")) ;;
     AuditChain.verify_loop e rest).
Proof.
  intros Hf. cbn [AuditChain.verify_loop].
  destruct (Hf (AuditChain.hash_to_hex expected) chain) as [-> ->];
    [|apply no_quote_hash_to_hex].
  rewrite extract_previous_hash, extract_chain_hash.
  rewrite until_quote_no_quote by apply no_quote_hash_to_hex.
  now rewrite String.eqb_refl.
Qed.

Lemma digest_eqb_eq (a b : list Z) : digest_eqb a b = true <-> a = b.
Proof. unfold digest_eqb. destruct (list_eq_dec Z.eq_dec a b); split; congruence. Qed.

Lemma digest_eqb_refl (a : list Z) : digest_eqb a a = true.
Proof. now apply digest_eqb_eq. Qed.

Lemma verify_loop_serialize (e : entry_fields) (expected : list Z)
    (rest : list string) :
  wf_entry e -> is_digest expected = true ->
  AuditChain.verify_loop expected (serialize e :: rest)
  = if digest_eqb (ef_prev e) expected
    then AuditChain.verify_loop (ef_chain e) rest
    else Ret false.
Proof.
  intros (Hf & Hp & Hc) He. unfold serialize.
  destruct (digest_eqb (ef_prev e) expected) eqn:E.
  - apply digest_eqb_eq in E. rewrite E.
    rewrite verify_loop_good_previous by assumption.
    rewrite until_quote_no_quote by apply no_quote_hash_to_hex.
    now rewrite hex_to_hash_hash_to_hex.
  - apply verify_loop_bad_previous; [assumption|].
    rewrite until_quote_no_quote by apply no_quote_hash_to_hex.
    intros Heq. apply hash_to_hex_injective in Heq; try assumption.
    apply digest_eqb_eq in Heq. congruence.
Qed.

Lemma verify_loop_links (l : list entry_fields) (expected : list Z) :
  Forall wf_entry l -> is_digest expected = true ->
  AuditChain.verify_loop expected (map serialize l) = Ret (links_ok expected l).
Proof.
  intros Hwf; revert expected; induction Hwf as [|e l He Hl IH]; intros expected Hx;
    [reflexivity|].
  cbn [map links_ok]. rewrite verify_loop_serialize by assumption.
  destruct (digest_eqb (ef_prev e) expected); [|reflexivity].
  apply IH. apply He.
Qed.

Lemma verify_chain_links (l : list entry_fields) :
  Forall wf_entry l ->
  AuditChain.verify_chain (map serialize l)
  = Ret (links_ok (SHA256.hash_str "DTS_INIT") l).
Proof.
  intros Hwf. destruct l as [|e l]; [reflexivity|].
  unfold AuditChain.verify_chain. cbn [map].
  apply (verify_loop_links (e :: l)); [assumption | apply is_digest_hash_str].
Qed.

(** ** The entries of one chain object *)

Lemma run_trace (self : AuditChain.t) (evs : list event) :
  fst (run self evs) = map serialize (trace self evs).
Proof.
  revert self; induction evs as [|ev evs IH]; intros self; [reflexivity|].
  cbn [run trace map]. specialize (IH (snd (log_event self ev))).
  unfold log_event, AuditChain.log in *. cbn [snd] in *.
  destruct (run _ evs) as [entries final]. cbn [fst] in *.
  rewrite <- IH. f_equal. apply log_entry_shape.
Qed.

Lemma states_before_trace (self : AuditChain.t) (evs : list event) :
  map AuditChain.previous_hash_ (states_before self evs)
  = map ef_prev (trace self evs).
Proof.
  revert self; induction evs as [|ev evs IH]; intros self; [reflexivity|].
  cbn [states_before trace map]. now rewrite IH.
Qed.

Lemma digests_before_trace (d : string) (evs : list event) :
  digests_before d evs = map ef_prev (trace (AuditChain.new d) evs).
Proof. apply states_before_trace. Qed.

Lemma export_trace (d : string) (evs : list event) :
  export d evs = map serialize (trace (AuditChain.new d) evs).
Proof. apply run_trace. Qed.

Lemma wf_trace (self : AuditChain.t) (evs : list event) :
  no_quote (AuditChain.device_id_ self) = true ->
  is_digest (AuditChain.previous_hash_ self) = true ->
  Forall wf_entry (trace self evs).
Proof.
  revert self; induction evs as [|ev evs IH]; intros self Hd Hp; [constructor|].
  cbn [trace]. constructor.
  - split; [|split]; cbn [fields_of ef_head ef_prev ef_chain].
    + apply findable_entry_head; [assumption | apply no_quote_timestamp].
    + assumption.
    + apply is_digest_hash_str.
  - apply IH; [assumption | apply is_digest_hash_str].
Qed.

Lemma chained_trace (self : AuditChain.t) (evs : list event) :
  chained (AuditChain.previous_hash_ self) (trace self evs).
Proof.
  revert self; induction evs as [|ev evs IH]; intros self; [exact I|].
  cbn [trace chained]. split; [reflexivity|].
  apply (IH (snd (log_event self ev))).
Qed.

Lemma links_ok_chained (l : list entry_fields) (expected : list Z) :
  chained expected l -> links_ok expected l = true.
Proof.
  revert expected; induction l as [|e l IH]; intros expected; [reflexivity|].
  cbn [chained links_ok]. intros [-> H].
  now rewrite digest_eqb_refl, IH.
Qed.

(** An untouched export of a chain whose device identifier holds no double
    quote passes [verify_chain]. *)
Lemma verify_chain_export (d : string) (evs : list event) :
  no_quote d = true -> AuditChain.verify_chain (export d evs) = Ret true.
Proof.
  intros Hd. rewrite export_trace, verify_chain_links.
  - f_equal. apply links_ok_chained, (chained_trace (AuditChain.new d)).
  - apply wf_trace; [assumption | apply is_digest_hash_str].
Qed.

(** ** Altered text *)

Lemma length_set_char (i : nat) (c : ascii) (s : string) :
  String.length (set_char i c s) = String.length s.
Proof.
  revert i; induction s as [|a s IH]; intros [|i]; cbn; try reflexivity.
  now rewrite IH.
Qed.

Lemma set_char_append_r (a b : string) (i : nat) (c : ascii) :
  set_char (String.length a + i) c (a ++ b) = a ++ set_char i c b.
Proof. induction a as [|x a IH]; cbn; [reflexivity | now rewrite IH]. Qed.

Lemma set_char_append_l (a b : string) (i : nat) (c : ascii) :
  (i < String.length a)%nat -> set_char i c (a ++ b) = set_char i c a ++ b.
Proof.
  revert i; induction a as [|x a IH]; intros i H; cbn [String.length] in H;
    [lia|].
  destruct i as [|i]; [reflexivity|].
  cbn [append set_char]. now rewrite IH by lia.
Qed.

Lemma all_chars_set_char (f : ascii -> bool) (i : nat) (c : ascii) (s : string) :
  f c = true -> all_chars f s = true -> all_chars f (set_char i c s) = true.
Proof.
  intros Hc; revert i; induction s as [|a s IH]; intros i H;
    [now destruct i|].
  cbn [all_chars] in H. apply andb_prop in H as [H1 H2].
  destruct i as [|i]; cbn [set_char all_chars].
  - now rewrite Hc, H2.
  - now rewrite H1, IH.
Qed.

Lemma alter_previous_hash (head prev chain : string) (j : nat) (c : ascii) :
  findable head -> (j < String.length prev)%nat ->
  alter_field AuditChain.key_previous_hash j c (entry_with head prev chain)
  = entry_with head (set_char j c prev) chain.
Proof.
  intros Hf Hj. unfold alter_field. destruct (Hf prev chain) as [-> _].
  unfold entry_with.
  rewrite <- length_append, <- (append_assoc head AuditChain.key_previous_hash).
  rewrite set_char_append_r, set_char_append_l by assumption.
  now rewrite append_assoc.
Qed.

Lemma alter_chain_hash (head prev chain : string) (j : nat) (c : ascii) :
  findable head -> no_quote prev = true -> (j < String.length chain)%nat ->
  alter_field AuditChain.key_chain_hash j c (entry_with head prev chain)
  = entry_with head prev (set_char j c chain).
Proof.
  intros Hf Hp Hj. unfold alter_field. destruct (Hf prev chain) as [_ ->]; [|assumption].
  rewrite !entry_with_chain_split. unfold chain_key_pos.
  rewrite <- length_append.
  rewrite <- (append_assoc _ AuditChain.key_chain_hash).
  rewrite set_char_append_r, set_char_append_l by assumption.
  now rewrite append_assoc.
Qed.

Lemma until_quote_altered (p p' rest : string) :
  String.length p' = String.length p -> p' <> p -> until_quote (p' ++ rest) <> p.
Proof.
  intros Hl Hne H. apply Hne.
  pose proof (until_quote_take (p' ++ rest)) as T.
  rewrite H, <- Hl, take_length_append in T. now symmetry.
Qed.

(** Text made of lower-case hexadecimal digits is the text of some bytes. *)
Lemma lower_hex_value_spec (c : ascii) :
  lower_hex_char c = true ->
  0 <= lower_hex_value c < 16 /\ digit_char (lower_hex_value c) = c.
Proof.
  intros H.
  assert (A : ((0 <=? lower_hex_value c) && (lower_hex_value c <? 16)
               && Ascii.eqb (digit_char (lower_hex_value c)) c) = true).
  { destruct c as [[] [] [] [] [] [] [] []]; try discriminate H; reflexivity. }
  apply andb_prop in A as [A1 A3]. apply andb_prop in A1 as [A1 A2].
  apply Ascii.eqb_eq in A3. split; [lia | assumption].
Qed.

Lemma two_digits_of_chars (a b : ascii) :
  lower_hex_char a = true -> lower_hex_char b = true ->
  exists v, is_byte v = true /\ two_digits v = String a (String b "").
Proof.
  intros Ha Hb.
  destruct (lower_hex_value_spec a Ha) as [Ra Ea].
  destruct (lower_hex_value_spec b Hb) as [Rb Eb].
  exists (lower_hex_value a * 16 + lower_hex_value b). split.
  - unfold is_byte. apply andb_true_intro; split; lia.
  - unfold two_digits.
    rewrite Z.div_add_l, Z.div_small, Z.add_0_r by lia.
    rewrite Z.add_comm, Z.mod_add, Z.mod_small by lia.
    now rewrite Ea, Eb.
Qed.

Lemma lower_hex_is_hash_to_hex (n : nat) (text : string) :
  String.length text = (2 * n)%nat -> lower_hex text = true ->
  exists hash, List.length hash = n /\ forallb is_byte hash = true /\
               AuditChain.hash_to_hex hash = text.
Proof.
  revert text; induction n as [|n IH]; intros text Hl Hh.
  - destruct text; [|discriminate]. now exists [].
  - destruct text as [|a [|b text]]; try (cbn in Hl; lia).
    unfold lower_hex in Hh. cbn [all_chars] in Hh.
    apply andb_prop in Hh as [Ha Hh]. apply andb_prop in Hh as [Hb Hh].
    destruct (IH text) as (hash & L & B & E); [cbn in Hl; lia | exact Hh |].
    destruct (two_digits_of_chars a b Ha Hb) as (v & Hv & Ev).
    exists (v :: hash). repeat split.
    + cbn. now rewrite L.
    + cbn [forallb]. now rewrite Hv, B.
    + rewrite hash_to_hex_cons by now apply is_byte_range.
      now rewrite Ev, E.
Qed.

(** ** Lists of entries *)

Lemma remove_nth_app {A : Type} (l1 l2 : list A) (x : A) :
  remove_nth (List.length l1) (l1 ++ x :: l2) = (l1 ++ l2)%list.
Proof.
  unfold remove_nth. induction l1 as [|a l1 IH]; [reflexivity|].
  cbn [List.length app firstn]. cbn [skipn] in *. now rewrite IH.
Qed.

Lemma replace_nth_app {A : Type} (l1 l2 : list A) (x y : A) :
  replace_nth (List.length l1) y (l1 ++ x :: l2) = (l1 ++ y :: l2)%list.
Proof.
  unfold replace_nth. induction l1 as [|a l1 IH]; [reflexivity|].
  cbn [List.length app firstn]. cbn [skipn] in *. now rewrite IH.
Qed.

Lemma length_trace (self : AuditChain.t) (evs : list event) :
  List.length (trace self evs) = List.length evs.
Proof.
  revert self; induction evs as [|ev evs IH]; intros self; [reflexivity|].
  cbn [trace List.length]. now rewrite IH.
Qed.

Lemma end_digest_cons (e : entry_fields) (l : list entry_fields) (start : list Z) :
  end_digest start (e :: l) = end_digest (ef_chain e) l.
Proof.
  unfold end_digest. cbn [map].
  generalize (ef_chain e) as c, (map ef_chain l) as m. intros c m; revert c start.
  induction m as [|y m IH]; intros c start; [reflexivity|].
  change (last (c :: y :: m) start) with (last (y :: m) start).
  now rewrite (IH y start), (IH y c).
Qed.

Lemma chained_app (l1 l2 : list entry_fields) (expected : list Z) :
  chained expected (l1 ++ l2) ->
  chained expected l1 /\ chained (end_digest expected l1) l2.
Proof.
  revert expected; induction l1 as [|e l1 IH]; intros expected H.
  - now split.
  - cbn [app chained] in H. destruct H as [Hp H].
    destruct (IH _ H) as [H1 H2]. rewrite end_digest_cons. now repeat split.
Qed.

Lemma links_ok_app (l1 l2 : list entry_fields) (expected : list Z) :
  chained expected l1 ->
  links_ok expected (l1 ++ l2) = links_ok (end_digest expected l1) l2.
Proof.
  revert expected; induction l1 as [|e l1 IH]; intros expected H; [reflexivity|].
  destruct H as [<- H]. cbn [app links_ok].
  now rewrite digest_eqb_refl, (IH _ H), end_digest_cons.
Qed.

Lemma verify_loop_app (l1 : list entry_fields) (rest : list string)
    (expected : list Z) :
  Forall wf_entry l1 -> chained expected l1 -> is_digest expected = true ->
  AuditChain.verify_loop expected (map serialize l1 ++ rest)
  = AuditChain.verify_loop (end_digest expected l1) rest.
Proof.
  intros Hwf; revert expected; induction Hwf as [|e l He Hl IH];
    intros expected Hc Hx; [reflexivity|].
  destruct Hc as [<- Hc]. cbn [map app].
  rewrite verify_loop_serialize, digest_eqb_refl by assumption.
  rewrite end_digest_cons. apply IH; [assumption | apply He].
Qed.

Lemma distinct_NoDup (l : list (list Z)) : distinct l = true -> NoDup l.
Proof.
  induction l as [|x l IH]; cbn [distinct]; intros H; [constructor|].
  apply andb_prop in H as [H1 H2]. constructor; [|now apply IH].
  intros Hin. apply negb_true_iff in H1.
  assert (existsb (digest_eqb x) l = true); [|congruence].
  apply existsb_exists. exists x. split; [assumption | apply digest_eqb_refl].
Qed.

(** ** Tampering with an export *)

Lemma verify_chain_nonempty (l1 : list string) (x : string) (l2 : list string) :
  AuditChain.verify_chain (l1 ++ x :: l2)
  = AuditChain.verify_loop (SHA256.hash_str "DTS_INIT") (l1 ++ x :: l2).
Proof. now destruct l1. Qed.

Section TamperedExport.

(** The export of the events [evs] by a chain whose device identifier has
    no double quote. *)
Variable d : string.
Variable evs : list event.
Hypothesis d_no_quote : no_quote d = true.

(** The export around its [i]-th entry. *)
Lemma export_split (i : nat) (entry : string) :
  nth_error (export d evs) i = Some entry ->
  exists l1 e l2,
    trace (AuditChain.new d) evs = (l1 ++ e :: l2)%list /\
    List.length l1 = i /\ entry = serialize e /\
    Forall wf_entry l1 /\ wf_entry e /\ Forall wf_entry l2 /\
    chained (SHA256.hash_str "DTS_INIT") l1 /\
    ef_prev e = end_digest (SHA256.hash_str "DTS_INIT") l1 /\
    chained (ef_chain e) l2.
Proof.
  intros Hn. rewrite export_trace in Hn.
  pose proof (wf_trace (AuditChain.new d) evs d_no_quote (is_digest_hash_str _))
    as Hwf.
  pose proof (chained_trace (AuditChain.new d) evs) as Hc.
  cbn [AuditChain.new AuditChain.previous_hash_] in Hc.
  destruct (nth_error (trace (AuditChain.new d) evs) i) as [e|] eqn:E.
  2:{ rewrite nth_error_map, E in Hn. discriminate. }
  rewrite nth_error_map, E in Hn. injection Hn as <-.
  apply nth_error_split in E as (l1 & l2 & Htr & Hl).
  rewrite Htr in Hwf, Hc.
  apply Forall_app in Hwf as [Hw1 Hw2]. inversion Hw2; subst.
  apply chained_app in Hc as [Hc1 [Hp Hc2]].
  exists l1, e, l2.
  split; [assumption|]. split; [reflexivity|]. split; [reflexivity|].
  split; [assumption|]. split; [assumption|]. split; [assumption|].
  split; [assumption|]. split; assumption.
Qed.

Lemma removal_detected (i : nat) :
  distinct (digests_before d evs) = true ->
  (S i < List.length evs)%nat ->
  AuditChain.verify_chain (remove_nth i (export d evs)) = Ret false.
Proof.
  intros Hnd Hi. apply distinct_NoDup in Hnd. rewrite digests_before_trace in Hnd.
  destruct (nth_error (export d evs) i) as [entry|] eqn:E.
  2:{ apply nth_error_None in E. rewrite export_trace, length_map, length_trace in E. lia. }
  destruct (export_split i entry E)
    as (l1 & e & l2 & Htr & Hl & -> & Hw1 & He & Hw2 & Hc1 & Hp & Hc2).
  assert (Hlen : List.length (trace (AuditChain.new d) evs) = List.length evs)
    by apply length_trace.
  rewrite Htr, length_app in Hlen. cbn [List.length] in Hlen.
  destruct l2 as [|e2 l3]; [cbn in Hlen; lia|].
  rewrite export_trace, Htr, map_app. cbn [map].
  rewrite <- Hl, <- (length_map serialize l1), remove_nth_app.
  change (serialize e2 :: map serialize l3) with (map serialize (e2 :: l3)).
  rewrite <- map_app, verify_chain_links by (apply Forall_app; now split).
  f_equal. rewrite links_ok_app by assumption. cbn [links_ok].
  destruct (digest_eqb (ef_prev e2) _) eqn:Q; [|reflexivity].
  apply digest_eqb_eq in Q. rewrite <- Hp in Q.
  rewrite Htr, map_app in Hnd. cbn [map] in Hnd.
  apply NoDup_remove_2 in Hnd. exfalso; apply Hnd.
  apply in_or_app; right; left. exact Q.
Qed.

Lemma links_ok_permutation (tr tr' : list entry_fields) (expected : list Z) :
  chained expected tr -> NoDup (map ef_prev tr) -> Permutation tr' tr ->
  links_ok expected tr' = true -> tr' = tr.
Proof.
  revert tr' expected; induction tr as [|e tr IH]; intros tr' expected Hc Hnd Hp Hl.
  - apply Permutation_sym, Permutation_nil in Hp. exact Hp.
  - destruct tr' as [|e' tr'].
    { apply Permutation_nil in Hp. discriminate. }
    cbn [links_ok] in Hl. apply andb_prop in Hl as [Hl1 Hl2].
    apply digest_eqb_eq in Hl1. destruct Hc as [Hpe Hc].
    cbn [map] in Hnd. inversion Hnd as [|x l Hnin Hnd']; subst x l.
    assert (e' = e) as ->.
    { assert (Hin : In e' (e :: tr)) by (eapply Permutation_in; [exact Hp | now left]).
      destruct Hin as [Hin|Hin]; [now symmetry|].
      exfalso; apply Hnin. rewrite Hpe, <- Hl1. now apply in_map. }
    apply Permutation_cons_inv in Hp.
    f_equal. now apply (IH tr' (ef_chain e)).
Qed.

Lemma reorder_detected (l : list string) :
  distinct (digests_before d evs) = true ->
  Permutation l (export d evs) -> l <> export d evs ->
  AuditChain.verify_chain l = Ret false.
Proof.
  intros Hnd Hp Hne. apply distinct_NoDup in Hnd. rewrite digests_before_trace in Hnd.
  rewrite export_trace in Hp, Hne.
  apply Permutation_map_inv in Hp as (tr' & -> & Hp).
  pose proof (wf_trace (AuditChain.new d) evs d_no_quote (is_digest_hash_str _))
    as Hwf.
  rewrite verify_chain_links by (eapply Permutation_Forall; eassumption).
  f_equal. destruct (links_ok _ tr') eqn:Q; [|reflexivity].
  exfalso; apply Hne. f_equal.
  apply (links_ok_permutation _ _ (SHA256.hash_str "DTS_INIT")); auto.
  - apply (chained_trace (AuditChain.new d)).
  - now apply Permutation_sym.
Qed.

Lemma previous_hash_alteration_detected (i j : nat) (c : ascii)
    (entry : string) :
  nth_error (export d evs) i = Some entry -> (j < 64)%nat ->
  alter_field AuditChain.key_previous_hash j c entry <> entry ->
  AuditChain.verify_chain
    (replace_nth i (alter_field AuditChain.key_previous_hash j c entry)
                 (export d evs))
  = Ret false.
Proof.
  intros Hn Hj Hne.
  destruct (export_split i entry Hn)
    as (l1 & e & l2 & Htr & Hl & -> & Hw1 & He & Hw2 & Hc1 & Hp & Hc2).
  destruct He as (Hf & Hdp & Hdc).
  pose proof (length_hex_digest _ Hdp) as Hlen.
  unfold serialize in *.
  rewrite alter_previous_hash in * by (auto; lia).
  rewrite export_trace, Htr, map_app. cbn [map].
  rewrite <- Hl, <- (length_map serialize l1), replace_nth_app.
  rewrite verify_chain_nonempty, verify_loop_app; auto using is_digest_hash_str.
  apply verify_loop_bad_previous; [assumption|].
  rewrite <- Hp. apply until_quote_altered; [apply length_set_char|].
  intros Heq. apply Hne. unfold serialize. now rewrite Heq.
Qed.

Lemma chain_hash_alteration_detected (i j : nat) (c : ascii)
    (entry : string) :
  nth_error (export d evs) i = Some entry -> (S i < List.length evs)%nat ->
  (j < 64)%nat -> lower_hex_char c = true ->
  alter_field AuditChain.key_chain_hash j c entry <> entry ->
  AuditChain.verify_chain
    (replace_nth i (alter_field AuditChain.key_chain_hash j c entry)
                 (export d evs))
  = Ret false.
Proof.
  intros Hn Hi Hj Hc Hne.
  destruct (export_split i entry Hn)
    as (l1 & e & l2 & Htr & Hl & -> & Hw1 & He & Hw2 & Hc1 & Hp & Hc2).
  assert (Hlen : List.length (trace (AuditChain.new d) evs) = List.length evs)
    by apply length_trace.
  rewrite Htr, length_app in Hlen. cbn [List.length] in Hlen.
  destruct l2 as [|e2 l3]; [cbn in Hlen; lia|].
  destruct He as (Hf & Hdp & Hdc).
  pose proof (length_hex_digest _ Hdc) as Hlc.
  unfold serialize in Hne |- *.
  rewrite alter_chain_hash in * by (auto using no_quote_hash_to_hex; lia).
  set (text := set_char j c (AuditChain.hash_to_hex (ef_chain e))) in *.
  destruct (lower_hex_is_hash_to_hex 32 text) as (h' & Lh & Bh & Eh).
  { unfold text. now rewrite length_set_char. }
  { unfold text. apply all_chars_set_char; [assumption|].
    apply lower_hex_hash_to_hex. }
  assert (Hd' : is_digest h' = true).
  { unfold is_digest. now rewrite Lh, Bh. }
  rewrite export_trace, Htr, map_app. cbn [map].
  rewrite <- Hl, <- (length_map serialize l1), replace_nth_app.
  rewrite <- Eh.
  change (entry_with (ef_head e) (AuditChain.hash_to_hex (ef_prev e))
                     (AuditChain.hash_to_hex h'))
    with (serialize (Fields (ef_head e) (ef_prev e) h')).
  change (serialize (Fields (ef_head e) (ef_prev e) h')
            :: serialize e2 :: map serialize l3)
    with (map serialize (Fields (ef_head e) (ef_prev e) h' :: e2 :: l3)).
  rewrite <- map_app, verify_chain_links.
  2:{ apply Forall_app; split; [assumption|].
      constructor; [|assumption].
      split; [|split]; assumption. }
  f_equal. rewrite links_ok_app by assumption.
  cbn [links_ok ef_prev ef_chain]. rewrite Hp, digest_eqb_refl. cbn [andb].
  destruct (digest_eqb (ef_prev e2) h') eqn:Q; [|reflexivity].
  apply digest_eqb_eq in Q. destruct Hc2 as [Hp2 _].
  exfalso; apply Hne. rewrite <- Eh, <- Q, Hp2. reflexivity.
Qed.

End TamperedExport.

(** ** Feeding a context piece by piece *)

Lemma push_byte_with_bit_len (c : SHA256.ctx) (n b : Z) :
  SHA256.push_byte (with_bit_len c n) b = with_bit_len (SHA256.push_byte c b) n.
Proof.
  unfold SHA256.push_byte, with_bit_len. cbn [SHA256.buffer SHA256.buffer_len
    SHA256.h SHA256.bit_len].
  destruct (SHA256.u8 (SHA256.buffer_len c + 1) =? 64);
    cbn [SHA256.buffer SHA256.buffer_len SHA256.h SHA256.bit_len]; reflexivity.
Qed.

Lemma fold_push_byte_with_bit_len (data : list Z) (c : SHA256.ctx) (n : Z) :
  fold_left SHA256.push_byte data (with_bit_len c n)
  = with_bit_len (fold_left SHA256.push_byte data c) n.
Proof.
  revert c; induction data as [|b data IH]; intros c; [reflexivity|].
  cbn [fold_left]. now rewrite push_byte_with_bit_len, IH.
Qed.

Lemma bit_len_push_byte (c : SHA256.ctx) (b : Z) :
  SHA256.bit_len (SHA256.push_byte c b) = SHA256.bit_len c.
Proof.
  unfold SHA256.push_byte.
  destruct (SHA256.u8 (SHA256.buffer_len c + 1) =? 64);
    cbn [SHA256.bit_len]; reflexivity.
Qed.

Lemma bit_len_fold_push_byte (data : list Z) (c : SHA256.ctx) :
  SHA256.bit_len (fold_left SHA256.push_byte data c) = SHA256.bit_len c.
Proof.
  revert c; induction data as [|b data IH]; intros c; [reflexivity|].
  cbn [fold_left]. now rewrite IH, bit_len_push_byte.
Qed.

Lemma update_with_bit_len (c : SHA256.ctx) (data : list Z) :
  SHA256.update c data
  = with_bit_len (fold_left SHA256.push_byte data c)
      (SHA256.u64 (SHA256.bit_len c
                   + SHA256.u64 (Z.of_nat (List.length data) * 8))).
Proof.
  unfold SHA256.update, with_bit_len. rewrite bit_len_fold_push_byte.
  reflexivity.
Qed.

Lemma u64_add_lengths (n a b : Z) :
  SHA256.u64 (SHA256.u64 (n + SHA256.u64 (a * 8)) + SHA256.u64 (b * 8))
  = SHA256.u64 (n + SHA256.u64 ((a + b) * 8)).
Proof.
  unfold SHA256.u64. change (2 ^ 64) with 18446744073709551616.
  Z.div_mod_to_equations. lia.
Qed.

Lemma update_app (c : SHA256.ctx) (a b : list Z) :
  SHA256.update (SHA256.update c a) b = SHA256.update c (a ++ b).
Proof.
  rewrite !update_with_bit_len.
  rewrite fold_push_byte_with_bit_len, fold_left_app.
  unfold with_bit_len. cbn [SHA256.h SHA256.buffer SHA256.buffer_len SHA256.bit_len].
  f_equal. rewrite length_app, Nat2Z.inj_add. apply u64_add_lengths.
Qed.

Lemma fold_update (chunks : list (list Z)) (c : SHA256.ctx) (a : list Z) :
  fold_left SHA256.update chunks (SHA256.update c a)
  = SHA256.update c (a ++ List.concat chunks)%list.
Proof.
  revert a; induction chunks as [|b chunks IH]; intros a.
  - cbn [fold_left List.concat]. now rewrite app_nil_r.
  - cbn [fold_left List.concat]. now rewrite update_app, IH, app_assoc.
Qed.

(** ** Escaping and reading back *)

Lemma json_string_tail_escape_char (c : ascii) (r : string) :
  json_string_tail (AuditChain.escape_char c ++ r)
  = decoded c (json_string_tail r).
Proof. destruct c as [[] [] [] [] [] [] [] []]; reflexivity. Qed.

Lemma json_string_tail_escape_json (m rest : string) :
  json_string_tail (AuditChain.escape_json m ++ String dquote rest)
  = Some (m, rest).
Proof.
  induction m as [|c m IH]; [reflexivity|].
  cbn [AuditChain.escape_json].
  now rewrite append_assoc, json_string_tail_escape_char, IH.
Qed.

Lemma length_escape_char (c : ascii) :
  (1 <= String.length (AuditChain.escape_char c))%nat /\
  (special_char c = true -> 2 <= String.length (AuditChain.escape_char c))%nat.
Proof.
  assert (A : (1 <=? String.length (AuditChain.escape_char c))%nat
              && implb (special_char c)
                       (2 <=? String.length (AuditChain.escape_char c))%nat
              = true).
  { destruct c as [[] [] [] [] [] [] [] []]; reflexivity. }
  apply andb_prop in A as [A1 A2]. apply Nat.leb_le in A1.
  split; [assumption|]. intros H. rewrite H in A2. now apply Nat.leb_le in A2.
Qed.

Lemma length_escape_json (m : string) :
  (String.length m <= String.length (AuditChain.escape_json m))%nat /\
  (needs_escape m = true ->
   String.length m < String.length (AuditChain.escape_json m))%nat.
Proof.
  unfold needs_escape.
  induction m as [|c m [IH1 IH2]]; [split; [reflexivity | discriminate]|].
  cbn [AuditChain.escape_json all_chars String.length]. rewrite length_append.
  destruct (length_escape_char c) as [L1 L2]. split; [lia|].
  destruct (special_char c); cbn [negb andb].
  - intros _. specialize (L2 eq_refl). lia.
  - intros H. specialize (IH2 H). lia.
Qed.

Lemma escape_json_changes (m : string) :
  needs_escape m = true -> AuditChain.escape_json m <> m.
Proof.
  intros H E. apply length_escape_json in H. rewrite E in H. lia.
Qed.

(** ** The chain object after a run of appends *)

Lemma run_app (self : AuditChain.t) (evs1 evs2 : list event) :
  run self (evs1 ++ evs2)
  = (fst (run self evs1) ++ fst (run (snd (run self evs1)) evs2),
     snd (run (snd (run self evs1)) evs2))%list.
Proof.
  revert self; induction evs1 as [|ev evs1 IH]; intros self.
  - cbn [app run fst snd]. now destruct (run self evs2).
  - cbn [app run]. destruct (log_event self ev) as [entry self'] eqn:E.
    rewrite (IH self'). destruct (run self' evs1) as [entries final].
    reflexivity.
Qed.

Lemma state_after_snoc (d : string) (evs : list event) (ev : event) :
  state_after d (evs ++ [ev]) = snd (log_event (state_after d evs) ev).
Proof.
  unfold state_after. rewrite run_app. cbn [snd run].
  destruct (log_event (snd (run (AuditChain.new d) evs)) ev) as [entry self'].
  reflexivity.
Qed.

Lemma export_snoc (d : string) (evs : list event) (ev : event) :
  export d (evs ++ [ev])
  = (export d evs ++ [fst (log_event (state_after d evs) ev)])%list.
Proof.
  unfold export, state_after. rewrite run_app. cbn [fst run].
  destruct (log_event (snd (run (AuditChain.new d) evs)) ev) as [entry self'].
  reflexivity.
Qed.

Lemma snd_run_cons (self : AuditChain.t) (ev : event) (evs : list event) :
  snd (run self (ev :: evs)) = snd (run (snd (log_event self ev)) evs).
Proof.
  cbn [run]. destruct (log_event self ev) as [entry self']. cbn [snd].
  now destruct (run self' evs).
Qed.

Lemma device_id_run (self : AuditChain.t) (evs : list event) :
  AuditChain.device_id_ (snd (run self evs)) = AuditChain.device_id_ self.
Proof.
  revert self; induction evs as [|ev evs IH]; intros self; [reflexivity|].
  now rewrite snd_run_cons, IH.
Qed.

Lemma previous_hash_run (self : AuditChain.t) (evs : list event) :
  AuditChain.previous_hash_ (snd (run self evs))
  = end_digest (AuditChain.previous_hash_ self) (trace self evs).
Proof.
  revert self; induction evs as [|ev evs IH]; intros self; [reflexivity|].
  rewrite snd_run_cons, IH. cbn [trace]. now rewrite end_digest_cons.
Qed.

Lemma is_digest_run (self : AuditChain.t) (evs : list event) :
  is_digest (AuditChain.previous_hash_ self) = true ->
  is_digest (AuditChain.previous_hash_ (snd (run self evs))) = true.
Proof.
  revert self; induction evs as [|ev evs IH]; intros self H; [exact H|].
  rewrite snd_run_cons. apply IH.
  cbn [log_event AuditChain.log snd AuditChain.previous_hash_].
  apply is_digest_hash_str.
Qed.

Lemma is_digest_state_after (d : string) (evs : list event) :
  is_digest (AuditChain.previous_hash_ (state_after d evs)) = true.
Proof. apply is_digest_run, is_digest_hash_str. Qed.

Lemma device_id_state_after (d : string) (evs : list event) :
  AuditChain.device_id_ (state_after d evs) = d.
Proof. unfold state_after. now rewrite device_id_run. Qed.

Lemma sequence_number_run (self : AuditChain.t) (evs : list event) :
  AuditChain.sequence_number_ (snd (run self evs))
  = match evs with
    | [] => AuditChain.sequence_number_ self
    | _ => SHA256.u64 (AuditChain.sequence_number_ self
                       + Z.of_nat (List.length evs))
    end.
Proof.
  revert self; induction evs as [|ev evs IH]; intros self; [reflexivity|].
  rewrite snd_run_cons, IH.
  cbn [log_event AuditChain.log snd AuditChain.sequence_number_].
  destruct evs as [|ev' evs]; [reflexivity|].
  unfold SHA256.u64. rewrite Z.add_mod_idemp_l by lia.
  f_equal. cbn [List.length]. lia.
Qed.

Lemma sequence_number_state_after (d : string) (evs : list event) :
  AuditChain.get_sequence_number (state_after d evs)
  = Z.of_nat (List.length evs) mod 2 ^ 64.
Proof.
  unfold AuditChain.get_sequence_number, state_after.
  rewrite sequence_number_run. destruct evs; reflexivity.
Qed.

(** * The claims *)

(** ** The digest engine *)

(** C3 (code defect).  The digest of the empty input is not the published
    SHA-256 value [e3b0c442...b855]: [SHA256::hash] returns
    [8c7e31eb...de9d], and [abc] does not give [ba7816bf...15ad] either.
    Four entries of the table [k] differ from the round constants of
    FIPS 180-4, which are [0x3956c25b], [0x923f82a4], [0x72be5d74] and
    [0xa831c66d] at the indices 4, 6, 12 and 25. *)
Theorem sha256_test_vectors_not_reproduced :
  AuditChain.hash_to_hex (SHA256.hash [])
    = "8c7e31ebdb680b41d7c14dfc386ac8a1b1ca7932b8ff2ca7978e6572479bde9d" /\
  AuditChain.hash_to_hex (SHA256.hash [])
    <> "e3b0c44298fc1c149afbf4c8996fb92427ae41e4649b934ca495991b7852b855" /\
  AuditChain.hash_to_hex (SHA256.hash_str "abc")
    = "d81e6e5d3f5a2e6a00e5d4b40b0e359e3b07540136529858969b1edeee2dbfc8" /\
  nth 4 SHA256.k 0 = 0x3956c25c /\ nth 6 SHA256.k 0 = 0x923f82e4 /\
  nth 12 SHA256.k 0 = 0x72be5d8d /\ nth 25 SHA256.k 0 = 0xa831c66b.
Proof.
  assert (E : AuditChain.hash_to_hex (SHA256.hash [])
              = "8c7e31ebdb680b41d7c14dfc386ac8a1b1ca7932b8ff2ca7978e6572479bde9d")
    by (vm_compute; reflexivity).
  split; [exact E|]. split; [rewrite E; discriminate|].
  split; [vm_compute; reflexivity|].
  repeat split.
Qed.

(** C7.  Streaming and one-shot hashing agree: a fresh context fed [a] and
    then [b] finalizes to the digest of [a ++ b], and so does a context fed
    any sequence of chunks, whose digest is that of their concatenation.
    The digest has thirty-two bytes. *)
Theorem streaming_equals_one_shot :
  (forall a b : list Z,
     SHA256.finalize (SHA256.update (SHA256.update SHA256.init a) b)
     = SHA256.hash (a ++ b)) /\
  (forall chunks : list (list Z),
     SHA256.finalize (fold_left SHA256.update chunks SHA256.init)
     = SHA256.hash (List.concat chunks)) /\
  (forall data : list Z, is_digest (SHA256.hash data) = true).
Proof.
  split; [|split].
  - intros a b. unfold SHA256.hash. now rewrite update_app.
  - intros [|a chunks]; unfold SHA256.hash.
    + reflexivity.
    + cbn [fold_left List.concat]. now rewrite fold_update.
  - intros data. apply is_digest_finalize.
Qed.

(** ** Verification of an export *)

(** C1 (code defect).  An untouched export does not always pass: [log]
    writes the device identifier into the entry without escaping it, and
    [verify_chain] takes the first text that looks like a key.  For the
    device identifier made of the seventeen characters of the key
    [previous_hash] with its quotes and colon, the single entry returned by
    the first [log] is rejected.  (The empty export is accepted, and
    [verify_chain_export] shows that every export of a chain whose device
    identifier has no double quote is accepted.) *)
Theorem verify_chain_rejects_untouched_export :
  AuditChain.verify_chain (export AuditChain.key_previous_hash [boot]) = Ret false /\
  AuditChain.verify_chain [] = Ret true.
Proof. split; [vm_compute; reflexivity | reflexivity]. Qed.

(** C4 (code defect).  A [chain_hash] field that is not hexadecimal makes
    [verify_chain] leave by an exception or accept the entry, instead of
    returning [false]: with the text [zz] (no hexadecimal digit) or [ab] (too
    short) [std::stoi] throws [std::invalid_argument], with the text [a]
    [substr] throws [std::out_of_range], and thirty-two groups [1g] are read
    as thirty-two bytes [0x01], so that the entry is accepted.  A missing
    key does give [false]. *)
Theorem verify_chain_malformed_chain_hash :
  let genesis := AuditChain.hash_to_hex (SHA256.hash_str "DTS_INIT") in
  let entry text := entry_with "{" genesis text in
  AuditChain.verify_chain [entry "zz"] = Throw invalid_argument /\
  AuditChain.verify_chain [entry "ab"] = Throw invalid_argument /\
  AuditChain.verify_chain [entry "a"] = Throw out_of_range /\
  AuditChain.verify_chain
    [entry "1g1g1g1g1g1g1g1g1g1g1g1g1g1g1g1g1g1g1g1g1g1g1g1g1g1g1g1g1g1g1g1g"]
    = Ret true /\
  AuditChain.verify_chain ["{}"] = Ret false.
Proof. cbv zeta. repeat split; vm_compute; reflexivity. Qed.

(** C10 (code defect).  The search for a key can be redirected, not by the
    message but by the device identifier, which [log] writes unescaped (the
    defect of C1).  With the device identifier of C1 the key
    [previous_hash] is found at index 14, inside the identifier, and the
    text read there is empty, whereas the key written by [log] is at index
    114 and is followed by the sixty-four digits of the genesis digest. *)
Theorem key_search_redirected_by_device_id :
  let entry := fst (log_event (AuditChain.new AuditChain.key_previous_hash) boot) in
  find entry AuditChain.key_previous_hash = Some 14%nat /\
  AuditChain.extract_hex entry (14 + 17) = "" /\
  String.length
    (entry_head AuditChain.key_previous_hash (AuditChain.timestamp_of sample_time)
                AuditChain.System AuditChain.Info "boot") = 114%nat /\
  prefixb AuditChain.key_previous_hash (drop 114 entry) = true /\
  AuditChain.extract_hex entry (114 + 17)
  = AuditChain.hash_to_hex (SHA256.hash_str "DTS_INIT").
Proof. cbv zeta. repeat split; vm_compute; reflexivity. Qed.

(** The part of C10 that holds.  The escaped message has no double quote
    of its own: each one follows a backslash, and a reader of the string
    literal ends exactly at the closing quote written by [log], with the
    message as the decoded text.  When the device identifier has no double
    quote, the searches of [verify_chain] in an entry written by [log] find
    the two keys where [log] wrote them, and the texts read there are the
    two digests, whatever the message is. *)
Theorem key_search_finds_digest_fields (d : string) (now : AuditChain.time_point)
    (u : AuditChain.UserID) (sv : AuditChain.Severity) (message : string)
    (prev chain : list Z) :
  no_quote d = true ->
  let ts := AuditChain.timestamp_of now in
  let entry := AuditChain.log_entry_of d ts u sv message prev chain in
  let head := entry_head d ts u sv message in
  let prev_pos := String.length head in
  let chain_pos := chain_key_pos head (AuditChain.hash_to_hex prev) in
  guarded false (AuditChain.escape_json message) = true /\
  (forall rest,
     json_string_tail (AuditChain.escape_json message ++ q ++ rest)
     = Some (message, rest)) /\
  find entry AuditChain.key_previous_hash = Some prev_pos /\
  AuditChain.extract_hex entry (prev_pos + 17) = AuditChain.hash_to_hex prev /\
  find entry AuditChain.key_chain_hash = Some chain_pos /\
  AuditChain.extract_hex entry (chain_pos + 14) = AuditChain.hash_to_hex chain /\
  drop prev_pos entry
  = AuditChain.key_previous_hash ++ AuditChain.hash_to_hex prev ++ q ++ "," ++
    AuditChain.key_chain_hash ++ AuditChain.hash_to_hex chain ++ q ++ "}".
Proof.
  intros Hd ts entry head prev_pos chain_pos.
  assert (Hf : findable head)
    by (apply findable_entry_head; [assumption | apply no_quote_timestamp]).
  unfold entry. rewrite log_entry_shape. fold ts head.
  destruct (Hf (AuditChain.hash_to_hex prev) (AuditChain.hash_to_hex chain))
    as [H1 H2]. specialize (H2 (no_quote_hash_to_hex prev)).
  split; [apply guarded_escape_json|].
  split; [intros rest; apply json_string_tail_escape_json|].
  split; [exact H1|].
  split; [unfold prev_pos; rewrite extract_previous_hash;
          apply until_quote_no_quote, no_quote_hash_to_hex|].
  split; [exact H2|].
  split; [unfold chain_pos; rewrite extract_chain_hash;
          apply until_quote_no_quote, no_quote_hash_to_hex|].
  unfold prev_pos, entry_with. apply drop_length_append.
Qed.

Example key_search_finds_digest_fields_boot :
  no_quote "DEV-1" = true /\
  find (fst (log_event (AuditChain.new "DEV-1") boot)) AuditChain.key_previous_hash
  = Some (String.length
            (entry_head "DEV-1" (AuditChain.timestamp_of sample_time)
                        AuditChain.System AuditChain.Info "boot")).
Proof.
  split; [reflexivity|].
  exact (proj1 (proj2 (proj2
    (key_search_finds_digest_fields "DEV-1" sample_time AuditChain.System
       AuditChain.Info "boot" (SHA256.hash_str "DTS_INIT")
       (SHA256.hash_str
          (AuditChain.payload_of "DEV-1" (AuditChain.timestamp_of sample_time)
             AuditChain.System AuditChain.Info "boot"
             (SHA256.hash_str "DTS_INIT")))
       eq_refl)))).
Defined.


(** ** Digests of different texts *)

Lemma no_collision_digests (a b : string) :
  no_collision a b = true -> a <> b -> SHA256.hash_str a <> SHA256.hash_str b.
Proof.
  unfold no_collision. intros H N E. apply orb_prop in H as [H|H].
  - apply String.eqb_eq in H. contradiction.
  - apply negb_true_iff in H.
    assert (D : digest_eqb (SHA256.hash_str a) (SHA256.hash_str b) = true)
      by now apply digest_eqb_eq.
    congruence.
Qed.

Lemma collision_free_snoc (texts : list string) (x : string) :
  collision_free (texts ++ [x]) = true ->
  collision_free texts = true /\
  forall a, In a texts -> no_collision a x = true.
Proof.
  induction texts as [|t texts IH]; intros H; [now split|].
  cbn [app collision_free] in H. apply andb_prop in H as [H1 H2].
  rewrite forallb_app in H1. apply andb_prop in H1 as [H1 Hx].
  cbn [forallb] in Hx. apply andb_prop in Hx as [Hx _].
  destruct (IH H2) as [F A]. split.
  - cbn [collision_free]. now rewrite H1, F.
  - intros a [<-|Ha]; [exact Hx | now apply A].
Qed.

Lemma payloads_app (self : AuditChain.t) (evs1 evs2 : list event) :
  payloads self (evs1 ++ evs2)
  = (payloads self evs1 ++ payloads (snd (run self evs1)) evs2)%list.
Proof.
  revert self; induction evs1 as [|ev evs1 IH]; intros self; [reflexivity|].
  cbn [app payloads]. rewrite IH, snd_run_cons. reflexivity.
Qed.

Lemma hashed_texts_snoc (d : string) (evs : list event) (ev : event) :
  hashed_texts d (evs ++ [ev])
  = (hashed_texts d evs ++ [payload_at (state_after d evs) ev])%list.
Proof.
  unfold hashed_texts. rewrite payloads_app. reflexivity.
Qed.

Lemma digest_after_log (self : AuditChain.t) (ev : event) :
  AuditChain.previous_hash_ (snd (log_event self ev))
  = SHA256.hash_str (payload_at self ev).
Proof. reflexivity. Qed.

Lemma append_inv_tail (a a' b b' : string) :
  a ++ b = a' ++ b' -> String.length b = String.length b' -> b = b'.
Proof.
  revert a'; induction a as [|x a IH]; intros a' E L.
  - destruct a' as [|y a']; [exact E|].
    exfalso. apply (f_equal String.length) in E.
    cbn [append String.length] in E. rewrite length_append in E. lia.
  - destruct a' as [|y a'].
    + exfalso. apply (f_equal String.length) in E.
      cbn [append String.length] in E. rewrite length_append in E. lia.
    + cbn [append] in E. injection E as _ E. now apply (IH a').
Qed.

Lemma payload_at_tail (self : AuditChain.t) (ev : event) :
  payload_at self ev
  = (AuditChain.device_id_ self ++ "|" ++
     AuditChain.timestamp_of (ev_now ev) ++ "|" ++
     render_int (AuditChain.UserID_value (ev_user ev)) ++ "|" ++
     render_int (AuditChain.Severity_value (ev_severity ev)) ++ "|" ++
     ev_message ev ++ "|") ++
    AuditChain.hash_to_hex (AuditChain.previous_hash_ self).
Proof.
  unfold payload_at, AuditChain.payload_of. rewrite !append_assoc. reflexivity.
Qed.

(** Two payloads built on different rolling digests are different texts. *)
Lemma payload_at_differs (self self' : AuditChain.t) (ev ev' : event) :
  is_digest (AuditChain.previous_hash_ self) = true ->
  is_digest (AuditChain.previous_hash_ self') = true ->
  AuditChain.previous_hash_ self <> AuditChain.previous_hash_ self' ->
  payload_at self ev <> payload_at self' ev'.
Proof.
  intros D D' N E. apply N. rewrite !payload_at_tail in E.
  apply append_inv_tail in E; [now apply hash_to_hex_injective|].
  now rewrite !length_hex_digest.
Qed.

Lemma payload_at_not_seed (self : AuditChain.t) (ev : event) :
  is_digest (AuditChain.previous_hash_ self) = true ->
  payload_at self ev <> "DTS_INIT".
Proof.
  intros D E. apply (f_equal String.length) in E.
  rewrite payload_at_tail, length_append, length_hex_digest in E by assumption.
  cbn [String.length] in E. lia.
Qed.

(** On a chain whose hashed texts do not collide, the rolling digest is the
    digest of a text that no later payload can be. *)
Lemma last_hashed_text (d : string) (evs : list event) :
  collision_free (hashed_texts d evs) = true ->
  exists t0,
    In t0 (hashed_texts d evs) /\
    AuditChain.previous_hash_ (state_after d evs) = SHA256.hash_str t0 /\
    forall ev, payload_at (state_after d evs) ev <> t0.
Proof.
  induction evs as [|ev0 evs IH] using rev_ind; intros F.
  - exists "DTS_INIT". split; [now left|]. split; [reflexivity|].
    intros ev. apply payload_at_not_seed, is_digest_state_after.
  - rewrite hashed_texts_snoc in F |- *.
    apply collision_free_snoc in F as [F A].
    destruct (IH F) as (t0 & I0 & H0 & N0).
    set (P := payload_at (state_after d evs) ev0) in *.
    exists P. split; [apply in_or_app; right; now left|].
    rewrite state_after_snoc, digest_after_log. fold P.
    split; [reflexivity|].
    intros ev. unfold P.
    apply payload_at_differs.
    + rewrite digest_after_log. apply is_digest_hash_str.
    + apply is_digest_state_after.
    + rewrite digest_after_log, H0. fold P. intros E.
      apply (no_collision_digests t0 P (A t0 I0)); [|now symmetry].
      intros Q. now apply (N0 ev0).
Qed.

(** On a chain whose hashed texts do not collide, every append changes the
    rolling digest. *)
Lemma rolling_digest_changes (d : string) (evs : list event) (ev : event) :
  collision_free (hashed_texts d (evs ++ [ev])) = true ->
  AuditChain.previous_hash_ (snd (log_event (state_after d evs) ev))
  <> AuditChain.previous_hash_ (state_after d evs).
Proof.
  rewrite hashed_texts_snoc. intros F.
  apply collision_free_snoc in F as [F A].
  destruct (last_hashed_text d evs F) as (t0 & I0 & H0 & N0).
  rewrite digest_after_log, H0. intros E.
  apply (no_collision_digests t0 _ (A t0 I0)); [|now symmetry].
  intros Q. now apply (N0 ev).
Qed.
(** ** Appending *)

Lemma log_entry_around_message (d ts : string) (u : AuditChain.UserID)
    (sv : AuditChain.Severity) (m : string) (p c : list Z) :
  AuditChain.log_entry_of d ts u sv m p c
  = before_message d ts u sv ++ q ++ "message" ++ q ++ ":" ++ q ++
    AuditChain.escape_json m ++ q ++ after_message p c.
Proof.
  unfold AuditChain.log_entry_of, before_message, after_message.
  rewrite !append_assoc. reflexivity.
Qed.


(** C6, where it fails: the counter is a [uint64_t].  After two to the
    sixty-four appends it is 0 again. *)
Lemma sequence_number_wraps :
  let evs := repeat boot (Z.to_nat (2 ^ 64)) in
  Z.of_nat (List.length evs) = 2 ^ 64 /\
  AuditChain.get_sequence_number (state_after "DEV-1" evs) = 0.
Proof.
  cbv zeta. rewrite sequence_number_state_after, repeat_length.
  rewrite Z2Nat.id by (apply Z.pow_nonneg; lia).
  split; [reflexivity | apply Z.mod_same, Z.pow_nonzero; lia].
Qed.

(** C6, amended.  A fresh chain has the digest of [DTS_INIT] as rolling
    digest and 0 as counter.  For fewer than two to the sixty-four appends
    on one object, the counter after the [i]-th append is [i].  After every
    append the rolling digest is the one written after [chain_hash] in the
    entry of that append; before the first it is the genesis digest.  In
    one formula: the export is the list of the entries built from [trace],
    and the rolling digest is the digest of the last of them, or the
    genesis digest when there is none. *)
Theorem chain_state_after_appends (d : string) (evs : list event) :
  Z.of_nat (List.length evs) < 2 ^ 64 ->
  AuditChain.previous_hash_ (AuditChain.new d) = SHA256.hash_str "DTS_INIT" /\
  AuditChain.get_sequence_number (AuditChain.new d) = 0 /\
  (forall i, (i <= List.length evs)%nat ->
     AuditChain.get_sequence_number (state_after d (firstn i evs)) = Z.of_nat i) /\
  (forall evs0 ev, evs = (evs0 ++ [ev])%list ->
     last (export d evs) ""
     = AuditChain.log_entry_of d (AuditChain.timestamp_of (ev_now ev))
         (ev_user ev) (ev_severity ev) (ev_message ev)
         (AuditChain.previous_hash_ (state_after d evs0))
         (AuditChain.previous_hash_ (state_after d evs))) /\
  (evs = [] ->
     AuditChain.previous_hash_ (state_after d evs) = SHA256.hash_str "DTS_INIT") /\
  export d evs = map serialize (trace (AuditChain.new d) evs) /\
  AuditChain.previous_hash_ (state_after d evs)
  = last (map ef_chain (trace (AuditChain.new d) evs))
         (SHA256.hash_str "DTS_INIT").
Proof.
  intros Hn. split; [reflexivity|]. split; [reflexivity|].
  split; [|split; [|split; [|split; [apply export_trace|]]]].
  4:{ unfold state_after. apply previous_hash_run. }
  - intros i Hi. rewrite sequence_number_state_after.
    rewrite length_firstn, Nat.min_l by assumption.
    apply Z.mod_small. lia.
  - intros evs0 ev ->. rewrite export_snoc, last_last, state_after_snoc.
    unfold log_event, AuditChain.log. cbn [fst snd AuditChain.previous_hash_].
    now rewrite device_id_state_after.
  - intros ->. reflexivity.
Qed.

Lemma chain_state_after_appends_witness :
  Z.of_nat (List.length sample_events) < 2 ^ 64 /\
  AuditChain.get_sequence_number (state_after "DEV-1" (firstn 2 sample_events)) = 2.
Proof.
  split; [reflexivity|].
  refine (proj1 (proj2 (proj2
            (chain_state_after_appends "DEV-1" sample_events eq_refl))) 2%nat _).
  cbn. lia.
Defined.

(** C8, where it fails: on the object reached after two to the sixty-four
    minus one appends, whose counter is the largest [uint64_t], one more
    append sets the counter to 0. *)
Lemma sequence_number_not_advanced :
  let self := state_after "DEV-1" (repeat boot (Z.to_nat (2 ^ 64 - 1))) in
  AuditChain.get_sequence_number self = 2 ^ 64 - 1 /\
  AuditChain.get_sequence_number (snd (log_event self boot)) = 0.
Proof.
  cbv zeta. rewrite <- state_after_snoc, !sequence_number_state_after.
  rewrite length_app, !repeat_length, Nat2Z.inj_add.
  rewrite Z2Nat.id by (assert (0 < 2 ^ 64) by (apply Z.pow_pos_nonneg; lia); lia).
  split; [reflexivity|]. reflexivity.
Qed.

(** C8, amended.  [log] has no error path: for every message, actor and
    severity it returns the entry and leaves the object written out below.
    On an object that has seen fewer than two to the sixty-four minus one
    appends the counter advances by exactly 1.  The rolling digest becomes
    the digest of the payload, and this is a change of the rolling digest
    whenever no two different texts among those the chain has hashed (the
    seed [DTS_INIT] and the payloads, this one included) have the same
    digest.  In the entry the message is escaped: read as a string literal,
    the text after the key [message] ends at the closing quote written by
    [log] and decodes to the message. *)
Theorem log_total_and_escaped (d : string) (evs : list event) (ev : event) :
  Z.of_nat (List.length evs) < 2 ^ 64 - 1 ->
  let self := state_after d evs in
  let ts := AuditChain.timestamp_of (ev_now ev) in
  let entry_digest :=
    SHA256.hash_str
      (AuditChain.payload_of d ts (ev_user ev) (ev_severity ev) (ev_message ev)
         (AuditChain.previous_hash_ self)) in
  log_event self ev
  = (before_message d ts (ev_user ev) (ev_severity ev) ++
     q ++ "message" ++ q ++ ":" ++ q ++
     AuditChain.escape_json (ev_message ev) ++ q ++
     after_message (AuditChain.previous_hash_ self) entry_digest,
     {| AuditChain.device_id_ := d;
        AuditChain.previous_hash_ := entry_digest;
        AuditChain.sequence_number_ :=
          AuditChain.get_sequence_number self + 1 |}) /\
  (collision_free (hashed_texts d (evs ++ [ev])) = true ->
   AuditChain.previous_hash_ (snd (log_event self ev))
   <> AuditChain.previous_hash_ self) /\
  (forall rest,
     json_string (q ++ AuditChain.escape_json (ev_message ev) ++ q ++ rest)
     = Some (ev_message ev, rest)).
Proof.
  intros Hn self ts entry_digest.
  split; [|split].
  - assert (Hs : AuditChain.sequence_number_ self = Z.of_nat (List.length evs)).
    { change (AuditChain.sequence_number_ self)
        with (AuditChain.get_sequence_number self).
      unfold self. rewrite sequence_number_state_after.
      apply Z.mod_small. lia. }
    assert (Hd : AuditChain.device_id_ self = d)
      by apply device_id_state_after.
    unfold log_event, AuditChain.log, AuditChain.get_sequence_number.
    rewrite log_entry_around_message, Hd, Hs.
    unfold SHA256.u64. rewrite Z.mod_small by lia.
    reflexivity.
  - intros F. now apply rolling_digest_changes.
  - intros rest. cbn [json_string q append]. rewrite Ascii.eqb_refl.
    apply json_string_tail_escape_json.
Qed.

Lemma log_total_and_escaped_witness :
  Z.of_nat (List.length sample_events) < 2 ^ 64 - 1 /\
  collision_free (hashed_texts "DEV-1" (sample_events ++ [boot])) = true /\
  AuditChain.get_sequence_number
    (snd (log_event (state_after "DEV-1" sample_events) boot))
  = AuditChain.get_sequence_number (state_after "DEV-1" sample_events) + 1 /\
  AuditChain.previous_hash_
    (snd (log_event (state_after "DEV-1" sample_events) boot))
  <> AuditChain.previous_hash_ (state_after "DEV-1" sample_events).
Proof.
  assert (F : collision_free (hashed_texts "DEV-1" (sample_events ++ [boot]))
              = true) by (vm_compute; reflexivity).
  split; [reflexivity|]. split; [exact F|].
  pose proof (log_total_and_escaped "DEV-1" sample_events boot eq_refl)
    as (E & C & _).
  split; [|exact (C F)].
  rewrite E. reflexivity.
Defined.


(** ** Tampering with an export *)

(** C2, where it fails.  The digest written after [chain_hash] is only
    compared with the next entry.  In the export of one append the first
    character of that text is [d]; with [0] in its place the altered export
    is accepted.  In the export of three appends the same [d] of the first
    entry written as [D] is read as the same byte, and the altered export
    is accepted as well. *)
Lemma altered_chain_hash_accepted :
  let one := export "DEV-1" [boot] in
  let tampered := alter_field AuditChain.key_chain_hash 0 "0" (hd "" one) in
  let three := export "DEV-1" sample_events in
  let upper := alter_field AuditChain.key_chain_hash 0 "D" (hd "" three) in
  tampered <> hd "" one /\
  AuditChain.verify_chain (replace_nth 0 tampered one) = Ret true /\
  upper <> hd "" three /\
  AuditChain.verify_chain (replace_nth 0 upper three) = Ret true.
Proof.
  cbv zeta.
  split; [apply String.eqb_neq; vm_compute; reflexivity|].
  split; [vm_compute; reflexivity|].
  split; [apply String.eqb_neq; vm_compute; reflexivity|].
  vm_compute; reflexivity.
Qed.

(** C2, amended.  Take the export of a chain whose device identifier has no
    double quote and in which the rolling digests found by the appends are
    pairwise distinct.  Then [verify_chain] returns [false]
    - when one entry other than the last is removed;
    - when the entries are put in another order;
    - when one character of the text after [previous_hash] of any entry is
      replaced by another character;
    - when one character of the text after [chain_hash] of an entry other
      than the last is replaced by another lower-case hexadecimal digit. *)
Theorem tampering_detected (d : string) (evs : list event) :
  no_quote d = true ->
  distinct (digests_before d evs) = true ->
  (forall i, (S i < List.length evs)%nat ->
     AuditChain.verify_chain (remove_nth i (export d evs)) = Ret false) /\
  (forall l, Permutation l (export d evs) -> l <> export d evs ->
     AuditChain.verify_chain l = Ret false) /\
  (forall i j c entry,
     nth_error (export d evs) i = Some entry -> (j < 64)%nat ->
     alter_field AuditChain.key_previous_hash j c entry <> entry ->
     AuditChain.verify_chain
       (replace_nth i (alter_field AuditChain.key_previous_hash j c entry)
                    (export d evs))
     = Ret false) /\
  (forall i j c entry,
     nth_error (export d evs) i = Some entry -> (S i < List.length evs)%nat ->
     (j < 64)%nat -> lower_hex_char c = true ->
     alter_field AuditChain.key_chain_hash j c entry <> entry ->
     AuditChain.verify_chain
       (replace_nth i (alter_field AuditChain.key_chain_hash j c entry)
                    (export d evs))
     = Ret false).
Proof.
  intros Hd Hnd. split; [|split; [|split]].
  - intros i Hi. now apply removal_detected.
  - intros l Hp Hne. now apply (reorder_detected d evs).
  - intros i j c entry Hn Hj Hne. now apply previous_hash_alteration_detected.
  - intros i j c entry Hn Hi Hj Hc Hne. now apply chain_hash_alteration_detected.
Qed.

Lemma tampering_detected_witness :
  let entries := export "DEV-1" sample_events in
  no_quote "DEV-1" = true /\
  distinct (digests_before "DEV-1" sample_events) = true /\
  AuditChain.verify_chain (remove_nth 1 entries) = Ret false /\
  AuditChain.verify_chain (rev entries) = Ret false /\
  AuditChain.verify_chain
    (replace_nth 2 (alter_field AuditChain.key_previous_hash 63 "0"
                                (nth 2 entries ""))
                 entries) = Ret false /\
  AuditChain.verify_chain
    (replace_nth 0 (alter_field AuditChain.key_chain_hash 0 "0"
                                (nth 0 entries ""))
                 entries) = Ret false.
Proof.
  cbv zeta.
  assert (Hq : no_quote "DEV-1" = true) by reflexivity.
  assert (Hd : distinct (digests_before "DEV-1" sample_events) = true)
    by (vm_compute; reflexivity).
  destruct (tampering_detected "DEV-1" sample_events Hq Hd) as (Ha & Hb & Hc & He).
  split; [exact Hq|]. split; [exact Hd|].
  split; [apply Ha; cbn; lia|].
  split.
  { apply Hb; [apply Permutation_sym, Permutation_rev|].
    intros E.
    apply (f_equal (fun l => String.eqb (hd "" l)
                               (hd "" (export "DEV-1" sample_events)))) in E.
    vm_compute in E. discriminate E. }
  split.
  { apply Hc; [vm_compute; reflexivity | lia |].
    apply String.eqb_neq. vm_compute. reflexivity. }
  apply He; [vm_compute; reflexivity | cbn; lia | lia | reflexivity |].
  apply String.eqb_neq. vm_compute. reflexivity.
Defined.

(** * More of the header *)

(** ** The context of SHA256 *)

Lemma finalize_finalized (c : SHA256.ctx) :
  SHA256.finalize c
  = flat_map (fun i => SHA256.word_bytes (SHA256.at_ (SHA256.h (finalized c)) i))
             (seq 0 8).
Proof. reflexivity. Qed.

Lemma u8_small (x : Z) : 0 <= x < 256 -> SHA256.u8 x = x.
Proof. apply u8_byte. Qed.

Lemma is_word_u32 (x : Z) : is_word (SHA256.u32 x) = true.
Proof.
  unfold SHA256.u32. change 0xFFFFFFFF with (Z.ones 32).
  rewrite Z.land_ones by lia.
  pose proof (Z.mod_pos_bound x (2 ^ 32) ltac:(lia)) as H.
  unfold is_word. apply andb_true_intro; split; lia.
Qed.

Lemma length_array_set (arr : list Z) (i : nat) (v : Z) :
  List.length (SHA256.array_set arr i v) = List.length arr.
Proof.
  revert i; induction arr as [|x arr IH]; intros [|i]; cbn; try reflexivity.
  now rewrite IH.
Qed.

Lemma forallb_array_set (f : Z -> bool) (arr : list Z) (i : nat) (v : Z) :
  f v = true -> forallb f arr = true ->
  forallb f (SHA256.array_set arr i v) = true.
Proof.
  intros Hv; revert i; induction arr as [|x arr IH]; intros i H; [now destruct i|].
  cbn [forallb] in H. apply andb_prop in H as [H1 H2].
  destruct i as [|i]; cbn [SHA256.array_set forallb].
  - now rewrite Hv, H2.
  - now rewrite H1, IH.
Qed.

Lemma ctx_ok_fields (c : SHA256.ctx) :
  ctx_ok c = true <->
  List.length (SHA256.h c) = 8%nat /\ forallb is_word (SHA256.h c) = true /\
  List.length (SHA256.buffer c) = 64%nat /\
  forallb is_byte (SHA256.buffer c) = true /\
  0 <= SHA256.buffer_len c < 64 /\ 0 <= SHA256.bit_len c < 2 ^ 64.
Proof.
  unfold ctx_ok. rewrite !andb_true_iff, !Nat.eqb_eq, !Z.leb_le, !Z.ltb_lt.
  tauto.
Qed.

Lemma transform_words (hs buf : list Z) :
  List.length (SHA256.transform hs buf) = 8%nat /\
  forallb is_word (SHA256.transform hs buf) = true.
Proof.
  unfold SHA256.transform.
  destruct (fold_left SHA256.round _ _) as [[[[[[[a b] c] d] e] f] g] h_val].
  split; [reflexivity|].
  cbn [forallb]. unfold SHA256.add32. rewrite !is_word_u32. reflexivity.
Qed.

Lemma ctx_ok_push_byte (c : SHA256.ctx) (b : Z) :
  ctx_ok c = true -> ctx_ok (SHA256.push_byte c b) = true.
Proof.
  rewrite !ctx_ok_fields. intros (Hh & Hw & Hb & Hy & Hl & Hn).
  unfold SHA256.push_byte.
  rewrite (u8_small (SHA256.buffer_len c + 1)) by lia.
  assert (Hs : is_byte (SHA256.u8 b) = true) by apply is_byte_land.
  destruct (SHA256.buffer_len c + 1 =? 64) eqn:E;
    cbn [SHA256.h SHA256.buffer SHA256.buffer_len SHA256.bit_len].
  - destruct (transform_words (SHA256.h c)
                (SHA256.array_set (SHA256.buffer c)
                   (Z.to_nat (SHA256.buffer_len c)) (SHA256.u8 b))) as [T1 T2].
    rewrite length_array_set.
    repeat split; try assumption; try lia.
    now apply forallb_array_set.
  - apply Z.eqb_neq in E. rewrite length_array_set.
    repeat split; try assumption; try lia.
    now apply forallb_array_set.
Qed.

Lemma ctx_ok_fold_push_byte (data : list Z) (c : SHA256.ctx) :
  ctx_ok c = true -> ctx_ok (fold_left SHA256.push_byte data c) = true.
Proof.
  revert c; induction data as [|b data IH]; intros c H; [exact H|].
  cbn [fold_left]. now apply IH, ctx_ok_push_byte.
Qed.

Lemma buffer_len_push_byte (c : SHA256.ctx) (b : Z) :
  0 <= SHA256.buffer_len c < 64 ->
  SHA256.buffer_len (SHA256.push_byte c b) = (SHA256.buffer_len c + 1) mod 64.
Proof.
  intros H. unfold SHA256.push_byte.
  rewrite (u8_small (SHA256.buffer_len c + 1)) by lia.
  destruct (SHA256.buffer_len c + 1 =? 64) eqn:E; cbn [SHA256.buffer_len].
  - apply Z.eqb_eq in E. rewrite E. reflexivity.
  - apply Z.eqb_neq in E. rewrite Z.mod_small; lia.
Qed.

Lemma buffer_len_fold_push_byte (data : list Z) (c : SHA256.ctx) :
  0 <= SHA256.buffer_len c < 64 ->
  SHA256.buffer_len (fold_left SHA256.push_byte data c)
  = (SHA256.buffer_len c + Z.of_nat (List.length data)) mod 64.
Proof.
  revert c; induction data as [|b data IH]; intros c H.
  - cbn [fold_left List.length]. rewrite Z.add_0_r, Z.mod_small; lia.
  - cbn [fold_left]. rewrite IH, buffer_len_push_byte by
      (try rewrite buffer_len_push_byte by assumption;
       try apply Z.mod_pos_bound; lia).
    rewrite Z.add_mod_idemp_l by lia. f_equal.
    cbn [List.length]. lia.
Qed.

(** X1.  [update] keeps the object well formed.  From an object with
    eight 32-bit words in [h], sixty-four bytes in [buffer], [buffer_len]
    below 64 and a 64-bit [bit_len] (the constructor's values are of that
    kind), the object after [update] is of that kind again, whatever bytes
    are fed.  In particular [buffer[buffer_len++]] never writes outside
    [buffer]. *)
Theorem update_keeps_context (c : SHA256.ctx) (data : list Z) :
  ctx_ok c = true -> ctx_ok (SHA256.update c data) = true.
Proof.
  intros H.
  pose proof (ctx_ok_fold_push_byte data c H) as F.
  rewrite ctx_ok_fields in F |- *. destruct F as (Hh & Hw & Hb & Hy & Hl & Hn).
  unfold SHA256.update.
  cbn [SHA256.h SHA256.buffer SHA256.buffer_len SHA256.bit_len].
  repeat split; try assumption; try lia;
    unfold SHA256.u64; apply Z.mod_pos_bound; lia.
Qed.

Lemma update_keeps_context_witness :
  ctx_ok SHA256.init = true /\
  ctx_ok (SHA256.update SHA256.init [1; 2; 3]) = true.
Proof.
  split; [reflexivity|].
  exact (update_keeps_context SHA256.init [1; 2; 3] eq_refl).
Defined.

Lemma buffer_len_update (c : SHA256.ctx) (data : list Z) :
  0 <= SHA256.buffer_len c < 64 ->
  SHA256.buffer_len (SHA256.update c data)
  = (SHA256.buffer_len c + Z.of_nat (List.length data)) mod 64.
Proof. intros H. now apply buffer_len_fold_push_byte. Qed.

(** X2.  What [update] does to the two counters: the buffer holds the
    bytes fed so far modulo the block size of 64, and the bit count grows by
    eight times the number of bytes, modulo two to the sixty-four. *)
Theorem update_counters (c : SHA256.ctx) (data : list Z) :
  0 <= SHA256.buffer_len c < 64 ->
  SHA256.buffer_len (SHA256.update c data)
  = (SHA256.buffer_len c + Z.of_nat (List.length data)) mod 64 /\
  SHA256.bit_len (SHA256.update c data)
  = (SHA256.bit_len c + 8 * Z.of_nat (List.length data)) mod 2 ^ 64.
Proof.
  intros H.
  split; [now apply buffer_len_update|].
  unfold SHA256.update. cbn [SHA256.bit_len].
  rewrite bit_len_fold_push_byte. unfold SHA256.u64.
  rewrite Z.add_mod_idemp_r by lia. f_equal. lia.
Qed.

Lemma update_counters_witness :
  0 <= SHA256.buffer_len SHA256.init < 64 /\
  SHA256.buffer_len (SHA256.update SHA256.init (repeat 7 70)) = 6.
Proof.
  split; [cbn; lia|].
  refine (eq_trans (proj1 (update_counters SHA256.init (repeat 7 70) _)) _);
    [cbn; lia | reflexivity].
Defined.

(** ** Padding *)

Lemma finalize_pad_len_bounds (c : SHA256.ctx) :
  0 <= SHA256.buffer_len c < 64 ->
  1 <= finalize_pad_len c <= 64 /\
  (SHA256.buffer_len c + finalize_pad_len c + 8) mod 64 = 0.
Proof.
  intros H. unfold finalize_pad_len.
  destruct (SHA256.buffer_len c <? 56) eqn:E.
  - apply Z.ltb_lt in E. rewrite u8_small by lia. split; [lia|].
    replace (SHA256.buffer_len c + (56 - SHA256.buffer_len c) + 8) with 64 by lia.
    reflexivity.
  - apply Z.ltb_ge in E. rewrite u8_small by lia. split; [lia|].
    replace (SHA256.buffer_len c + (120 - SHA256.buffer_len c) + 8) with 128 by lia.
    reflexivity.
Qed.

Lemma length_object_bytes (v : Z) : List.length (SHA256.object_bytes v) = 8%nat.
Proof. reflexivity. Qed.

(** X3.  Padding in [finalize].  For an object whose [buffer_len] is an
    index into the buffer, [pad_len] lies between 1 and 64, so that
    [update(padding, pad_len)] reads only the 64 bytes of [padding]; and the
    padding together with the eight length bytes fills the last block
    exactly, so that every byte fed has gone through [transform] when the
    digest is read: the buffer is empty again. *)
Theorem finalize_fills_last_block (c : SHA256.ctx) :
  0 <= SHA256.buffer_len c < 64 ->
  1 <= finalize_pad_len c <= Z.of_nat (List.length SHA256.padding) /\
  SHA256.buffer_len (finalized c) = 0.
Proof.
  intros H. destruct (finalize_pad_len_bounds c H) as [B M].
  split; [exact B|]. unfold finalized.
  set (c1 := SHA256.update c _).
  assert (L : Z.of_nat (List.length
                (firstn (Z.to_nat (finalize_pad_len c)) SHA256.padding))
              = finalize_pad_len c).
  { rewrite length_firstn. change (List.length SHA256.padding) with 64%nat. lia. }
  assert (H1 : SHA256.buffer_len c1
               = (SHA256.buffer_len c + finalize_pad_len c) mod 64).
  { unfold c1. rewrite buffer_len_update, L by exact H. reflexivity. }
  rewrite buffer_len_update
    by (rewrite H1; apply Z.mod_pos_bound; lia).
  rewrite H1, length_object_bytes, Z.add_mod_idemp_l by lia. exact M.
Qed.

Lemma finalize_fills_last_block_witness :
  0 <= SHA256.buffer_len (SHA256.update SHA256.init (repeat 7 60)) < 64 /\
  SHA256.buffer_len (finalized (SHA256.update SHA256.init (repeat 7 60))) = 0.
Proof.
  assert (H : 0 <= SHA256.buffer_len (SHA256.update SHA256.init (repeat 7 60)) < 64)
    by (vm_compute; split; [discriminate | reflexivity]).
  split; [exact H|].
  exact (proj2 (finalize_fills_last_block _ H)).
Defined.

(** ** Byte order *)

Lemma testbit_byte_mask (k m : Z) :
  0 <= k ->
  Z.testbit (Z.shiftl 255 k) m = (k <=? m) && (m <? k + 8).
Proof.
  intros Hk. destruct (Z.leb_spec k m) as [H|H].
  - rewrite Z.shiftl_spec by lia. change 255 with (Z.ones 8).
    rewrite Z.testbit_ones by lia.
    replace (0 <=? m - k) with true by (symmetry; apply Z.leb_le; lia).
    cbn [andb]. destruct (Z.ltb_spec (m - k) 8), (Z.ltb_spec m (k + 8));
      try reflexivity; lia.
  - destruct (Z.ltb_spec m 0) as [N|N].
    + now rewrite Z.testbit_neg_r.
    + rewrite Z.shiftl_spec, Z.testbit_neg_r by lia. reflexivity.
Qed.

Ltac decide_comparisons :=
  repeat match goal with
  | |- context [?a <=? ?b] =>
      first [ replace (a <=? b) with true by (symmetry; apply Z.leb_le; lia)
            | replace (a <=? b) with false by (symmetry; apply Z.leb_gt; lia) ]
  | |- context [?a <? ?b] =>
      first [ replace (a <? b) with true by (symmetry; apply Z.ltb_lt; lia)
            | replace (a <? b) with false by (symmetry; apply Z.ltb_ge; lia) ]
  end.

Lemma swap_endian_masks (v : Z) :
  SHA256.swap_endian v
  = Z.lor (Z.lor (Z.lor (Z.lor (Z.lor (Z.lor (Z.lor
      (Z.shiftr (Z.land v (Z.shiftl 255 56)) 56)
      (Z.shiftr (Z.land v (Z.shiftl 255 48)) 40))
      (Z.shiftr (Z.land v (Z.shiftl 255 40)) 24))
      (Z.shiftr (Z.land v (Z.shiftl 255 32)) 8))
      (Z.shiftl (Z.land v (Z.shiftl 255 24)) 8))
      (Z.shiftl (Z.land v (Z.shiftl 255 16)) 24))
      (Z.shiftl (Z.land v (Z.shiftl 255 8)) 40))
      (Z.shiftl (Z.land v (Z.shiftl 255 0)) 56).
Proof. reflexivity. Qed.

Lemma testbit_255 (n : Z) : 0 <= n -> Z.testbit 255 n = (n <? 8).
Proof.
  intros H. change 255 with (Z.shiftl 255 0).
  rewrite testbit_byte_mask by lia.
  replace (0 <=? n) with true by (symmetry; apply Z.leb_le; lia).
  reflexivity.
Qed.

Lemma swap_endian_byte (v j : Z) :
  0 <= j < 8 ->
  Z.land (Z.shiftr (SHA256.swap_endian v) (8 * j)) 255
  = Z.land (Z.shiftr v (8 * (7 - j))) 255.
Proof.
  intros Hj. apply Z.bits_inj'. intros n Hn.
  rewrite !Z.land_spec, !Z.shiftr_spec, testbit_255 by lia.
  destruct (Z.ltb_spec n 8) as [L|L]; [|now rewrite !andb_false_r].
  rewrite !andb_true_r, swap_endian_masks.
  rewrite !Z.lor_spec.
  rewrite !Z.shiftr_spec, !Z.shiftl_spec by lia.
  rewrite !Z.land_spec.
  rewrite !testbit_byte_mask by lia.
  assert (C : j = 0 \/ j = 1 \/ j = 2 \/ j = 3 \/ j = 4 \/ j = 5 \/ j = 6 \/ j = 7)
    by lia.
  destruct C as [->|[->|[->|[->|[->|[->|[->| ->]]]]]]];
    decide_comparisons;
    rewrite ?andb_false_r, ?andb_true_r, ?orb_false_r, ?orb_false_l;
    f_equal; lia.
Qed.

(** X4.  [swap_endian] reverses the eight bytes of its argument: the
    bytes of the result, read from memory on the little-endian host, are
    the bytes of the argument in the opposite order, which is the
    big-endian representation that [finalize] feeds as the message
    length. *)
Theorem swap_endian_reverses_bytes (v : Z) :
  SHA256.object_bytes (SHA256.swap_endian v) = rev (SHA256.object_bytes v).
Proof.
  unfold SHA256.object_bytes. cbn [seq map rev app].
  change 0xFF with 255.
  repeat (apply (f_equal2 cons); [ match goal with
                     | |- Z.land (Z.shiftr _ (8 * Z.of_nat ?j)) _ = _ =>
                         exact (swap_endian_byte v (Z.of_nat j) ltac:(cbn; lia))
                     end | ]).
  reflexivity.
Qed.

(** ** Rotation *)

Lemma testbit_word_high (v n : Z) :
  is_word v = true -> 32 <= n -> Z.testbit v n = false.
Proof.
  unfold is_word. rewrite andb_true_iff, Z.leb_le, Z.ltb_lt. intros [H0 H1] Hn.
  destruct (Z.eq_dec v 0) as [->|N]; [apply Z.bits_0|].
  apply Z.bits_above_log2; [lia|].
  assert (Z.log2 v < 32) by (apply Z.log2_lt_pow2; lia). lia.
Qed.

Lemma testbit_u32 (x n : Z) :
  0 <= n -> Z.testbit (SHA256.u32 x) n = Z.testbit x n && (n <? 32).
Proof.
  intros H. unfold SHA256.u32. change 0xFFFFFFFF with (Z.ones 32).
  rewrite Z.land_spec, Z.testbit_ones by lia.
  replace (0 <=? n) with true by (symmetry; apply Z.leb_le; lia).
  reflexivity.
Qed.

Lemma testbit_right_rotate (value amount n : Z) :
  is_word value = true -> 0 < amount < 32 -> 0 <= n ->
  Z.testbit (SHA256.right_rotate value amount) n
  = (n <? 32) && Z.testbit value ((n + amount) mod 32).
Proof.
  intros Hv Ha Hn. unfold SHA256.right_rotate.
  rewrite Z.lor_spec, Z.shiftr_spec, testbit_u32, Z.shiftl_spec by lia.
  destruct (Z.ltb_spec n 32) as [L|L].
  - rewrite andb_true_r. cbn [andb].
    destruct (Z.lt_ge_cases (n + amount) 32) as [S|S].
    + rewrite (Z.testbit_neg_r value (n - (32 - amount))) by lia.
      rewrite orb_false_r, Z.mod_small by lia. reflexivity.
    + rewrite (testbit_word_high value (n + amount)) by assumption.
      cbn [orb]. f_equal.
      replace (n + amount) with (n - (32 - amount) + 1 * 32) by lia.
      rewrite Z.mod_add, Z.mod_small by lia. reflexivity.
  - rewrite andb_false_r, orb_false_r. cbn [andb].
    apply testbit_word_high; [assumption | lia].
Qed.

(** X5.  [right_rotate] is a rotation of a 32-bit word: for the rotation
    amounts it is written for (strictly between 0 and 32), the result is a
    32-bit word again, and its bit [n] is bit [n + amount] of the argument,
    counted modulo 32. *)
Theorem right_rotate_rotates (value amount : Z) :
  is_word value = true -> 0 < amount < 32 ->
  is_word (SHA256.right_rotate value amount) = true /\
  forall n, 0 <= n < 32 ->
    Z.testbit (SHA256.right_rotate value amount) n
    = Z.testbit value ((n + amount) mod 32).
Proof.
  intros Hv Ha. split.
  - replace (SHA256.right_rotate value amount)
      with (SHA256.u32 (SHA256.right_rotate value amount)); [apply is_word_u32|].
    apply Z.bits_inj'. intros n Hn.
    rewrite testbit_u32, testbit_right_rotate by assumption.
    destruct (n <? 32); [now rewrite andb_true_r | reflexivity].
  - intros n Hn. rewrite testbit_right_rotate by (assumption || lia).
    replace (n <? 32) with true by (symmetry; apply Z.ltb_lt; lia).
    reflexivity.
Qed.

Lemma right_rotate_rotates_witness :
  is_word 0x80000001 = true /\ 0 < 7 < 32 /\
  Z.testbit (SHA256.right_rotate 0x80000001 7) 25
  = Z.testbit 0x80000001 ((25 + 7) mod 32).
Proof.
  split; [reflexivity|]. split; [lia|].
  exact (proj2 (right_rotate_rotates 0x80000001 7 eq_refl ltac:(lia)) 25 ltac:(lia)).
Defined.

(** ** Digests as text *)

Lemma take_drop_append (x rest : string) (p n : nat) :
  (p + n <= String.length x)%nat ->
  take n (drop p (x ++ rest)) = take n (drop p x).
Proof.
  revert p; induction x as [|c x IH]; intros p H.
  - cbn [String.length] in H. assert (p = O) by lia. assert (n = O) by lia.
    subst. now destruct rest.
  - destruct p as [|p].
    + cbn [drop]. clear IH. revert H. generalize (String c x). clear.
      revert n. induction n as [|n IHn]; intros s H; [now destruct s|].
      destruct s as [|a s]; [cbn in H; lia|].
      cbn [append take]. f_equal. apply IHn. cbn [String.length] in H. lia.
    + cbn [append drop]. apply IH. cbn [String.length] in H. lia.
Qed.

Lemma drop_all (s : string) : drop (String.length s) s = "".
Proof. induction s as [|c s IH]; [reflexivity | exact IH]. Qed.

Lemma hex_to_hash_from_groups (groups : list string) (hash : list Z)
    (pre rest : string) (i : nat) :
  Forall2 (fun g b => String.length g = 2%nat /\ stoi16 g = Ret b /\ 0 <= b < 256)
          groups hash ->
  String.length pre = (i * 2)%nat ->
  AuditChain.hex_to_hash_from (pre ++ fold_right append rest groups) i
                              (List.length hash)
  = Ret hash.
Proof.
  intros F; revert pre i.
  induction F as [|g b groups hash (Lg & Sg & Bg) F IH]; intros pre i Hpre;
    [reflexivity|].
  cbn [List.length AuditChain.hex_to_hash_from fold_right].
  unfold substr. rewrite <- Hpre.
  assert ((String.length (pre ++ g ++ fold_right append rest groups)
           <? String.length pre)%nat = false) as ->.
  { apply Nat.ltb_ge. rewrite length_append. lia. }
  rewrite drop_length_append, <- Lg, take_length_append.
  cbn [bind]. rewrite Sg. cbn [bind].
  rewrite <- append_assoc.
  rewrite IH; [cbn [bind]; now rewrite u8_byte|].
  rewrite length_append. lia.
Qed.

Lemma hash_to_hex_groups (hash : list Z) (rest : string) :
  forallb is_byte hash = true ->
  AuditChain.hash_to_hex hash ++ rest
  = fold_right append rest (map two_digits hash).
Proof.
  induction hash as [|b hash IH]; intros H; [reflexivity|].
  cbn [forallb] in H. apply andb_prop in H as [Hb H].
  rewrite hash_to_hex_cons by now apply is_byte_range.
  cbn [map fold_right]. rewrite <- IH by assumption.
  now rewrite append_assoc.
Qed.

(** X6.  [hex_to_hash] inverts [hash_to_hex], and it reads only the first
    sixty-four characters of its argument: a digest printed by
    [hash_to_hex] and followed by any text at all is read back as that
    digest. *)
Theorem hex_to_hash_reads_back (hash : list Z) (rest : string) :
  is_digest hash = true ->
  AuditChain.hex_to_hash (AuditChain.hash_to_hex hash ++ rest) = Ret hash.
Proof.
  unfold is_digest; intros H; apply andb_prop in H as [Hl Hb].
  apply Nat.eqb_eq in Hl. unfold AuditChain.hex_to_hash. rewrite <- Hl.
  rewrite hash_to_hex_groups by assumption.
  apply (hex_to_hash_from_groups _ _ ""); [|reflexivity].
  clear Hl. induction hash as [|b hash IH]; [constructor|].
  cbn [forallb] in Hb. apply andb_prop in Hb as [Hb Hh].
  apply is_byte_range in Hb.
  constructor; [|now apply IH].
  split; [reflexivity|]. split; [now apply stoi16_two_digits | assumption].
Qed.

Lemma hex_to_hash_reads_back_witness :
  is_digest (SHA256.hash_str "DTS_INIT") = true /\
  AuditChain.hex_to_hash
    (AuditChain.hash_to_hex (SHA256.hash_str "DTS_INIT") ++ "-and more")
  = Ret (SHA256.hash_str "DTS_INIT").
Proof.
  assert (H : is_digest (SHA256.hash_str "DTS_INIT") = true)
    by (vm_compute; reflexivity).
  split; [exact H|].
  exact (hex_to_hash_reads_back (SHA256.hash_str "DTS_INIT") "-and more" H).
Defined.

Lemma stoi16_upper_digits (b : Z) :
  0 <= b < 256 -> stoi16 (map_chars upper_hex_digit (two_digits b)) = Ret b.
Proof.
  intros H.
  assert (A : forallb (fun b =>
                match stoi16 (map_chars upper_hex_digit (two_digits b)) with
                | Ret v => v =? b
                | Throw _ => false
                end) bytes_0_255 = true) by (vm_compute; reflexivity).
  rewrite forallb_forall in A.
  specialize (A b (In_bytes_0_255 b H)).
  destruct (stoi16 _); [|discriminate].
  apply Z.eqb_eq in A. now subst.
Qed.

Lemma map_chars_append (f : ascii -> ascii) (a b : string) :
  map_chars f (a ++ b) = map_chars f a ++ map_chars f b.
Proof. induction a as [|c a IH]; cbn; [reflexivity | now rewrite IH]. Qed.

Lemma upper_hash_to_hex_groups (hash : list Z) :
  forallb is_byte hash = true ->
  map_chars upper_hex_digit (AuditChain.hash_to_hex hash)
  = fold_right append ""
      (map (fun b => map_chars upper_hex_digit (two_digits b)) hash).
Proof.
  induction hash as [|b hash IH]; intros H; [reflexivity|].
  cbn [forallb] in H. apply andb_prop in H as [Hb H].
  rewrite hash_to_hex_cons by now apply is_byte_range.
  cbn [map fold_right]. rewrite <- IH by assumption.
  apply map_chars_append.
Qed.

(** X7.  [hex_to_hash] does not tell upper case from lower case: the
    digits [a] to [f] of a printed digest written as [A] to [F] are read
    back as the same digest, although [hash_to_hex] never prints them
    so. *)
Theorem hex_to_hash_ignores_case (hash : list Z) :
  is_digest hash = true ->
  AuditChain.hex_to_hash
    (map_chars upper_hex_digit (AuditChain.hash_to_hex hash)) = Ret hash.
Proof.
  unfold is_digest; intros H; apply andb_prop in H as [Hl Hb].
  apply Nat.eqb_eq in Hl. unfold AuditChain.hex_to_hash. rewrite <- Hl.
  rewrite upper_hash_to_hex_groups by assumption.
  apply (hex_to_hash_from_groups _ _ ""); [|reflexivity].
  clear Hl. induction hash as [|b hash IH]; [constructor|].
  cbn [forallb] in Hb. apply andb_prop in Hb as [Hb Hh].
  apply is_byte_range in Hb.
  constructor; [|now apply IH].
  split; [reflexivity|]. split; [now apply stoi16_upper_digits | assumption].
Qed.

Lemma hex_to_hash_ignores_case_witness :
  is_digest (SHA256.hash_str "DTS_INIT") = true /\
  map_chars upper_hex_digit (AuditChain.hash_to_hex (SHA256.hash_str "DTS_INIT"))
  <> AuditChain.hash_to_hex (SHA256.hash_str "DTS_INIT") /\
  AuditChain.hex_to_hash
    (map_chars upper_hex_digit
       (AuditChain.hash_to_hex (SHA256.hash_str "DTS_INIT")))
  = Ret (SHA256.hash_str "DTS_INIT").
Proof.
  assert (H : is_digest (SHA256.hash_str "DTS_INIT") = true)
    by (vm_compute; reflexivity).
  split; [exact H|]. split; [vm_compute; discriminate|].
  exact (hex_to_hash_ignores_case (SHA256.hash_str "DTS_INIT") H).
Defined.

Lemma hex_to_hash_from_short (hex : string) (n i : nat) :
  (0 < n)%nat -> (String.length hex + 1 < 2 * (i + n))%nat ->
  exists e, AuditChain.hex_to_hash_from hex i n = Throw e.
Proof.
  revert i; induction n as [|n IH]; intros i Hn Hl; [lia|].
  cbn [AuditChain.hex_to_hash_from]. unfold substr.
  destruct (String.length hex <? i * 2)%nat eqn:E; [now eexists|].
  apply Nat.ltb_ge in E. cbn [bind].
  destruct (stoi16 (take 2 (drop (i * 2) hex))) as [v|e] eqn:St; [|now eexists].
  cbn [bind]. destruct n as [|n].
  - assert (i * 2 = String.length hex)%nat as L by lia.
    rewrite L, drop_all in St. discriminate St.
  - destruct (IH (S i) ltac:(lia) ltac:(lia)) as [e ->]. now eexists.
Qed.

(** X8.  [hex_to_hash] always reads thirty-two groups of two characters
    and does not check the length of its argument first: on a text of
    fewer than sixty-three characters (the empty text among them) it
    leaves by an exception and returns no digest. *)
Theorem hex_to_hash_short_text_throws (hex : string) :
  (String.length hex < 63)%nat ->
  exists e, AuditChain.hex_to_hash hex = Throw e.
Proof.
  intros H. apply hex_to_hash_from_short; lia.
Qed.

Lemma hex_to_hash_short_text_throws_witness :
  (String.length "00ff" < 63)%nat /\
  exists e, AuditChain.hex_to_hash "00ff" = Throw e.
Proof.
  assert (H : (String.length "00ff" < 63)%nat) by (cbn; lia).
  split; [exact H|].
  exact (hex_to_hash_short_text_throws "00ff" H).
Defined.

(** ** Cutting a field out of an entry *)

Lemma extract_hex_until_quote (json : string) (start_pos : nat) :
  AuditChain.extract_hex json start_pos = until_quote (drop start_pos json).
Proof.
  unfold AuditChain.extract_hex, find_char_from, until_quote.
  destruct (find_char (drop start_pos json) dquote) as [e|]; cbn [option_map];
    [|reflexivity].
  f_equal. lia.
Qed.

Lemma until_quote_cases (y : string) :
  no_quote (until_quote y) = true /\
  ((no_quote y = true /\ until_quote y = "") \/
   exists rest, y = until_quote y ++ String dquote rest).
Proof.
  unfold until_quote. induction y as [|c y IH]; [now split; [|left]|].
  cbn [find_char]. destruct (Ascii.eqb c dquote) eqn:E.
  - apply Ascii.eqb_eq in E. subst c. cbn [take]. split; [reflexivity|].
    right. now exists y.
  - destruct (find_char y dquote) as [e|] eqn:F; cbn [option_map take].
    + destruct IH as [N [[_ Z]|[rest R]]].
      * split; [cbn [no_quote all_chars]; rewrite E; exact N|].
        right. destruct y as [|a y]; [discriminate F|].
        destruct e; cbn [take] in Z; [|discriminate Z].
        cbn [find_char] in F.
        destruct (Ascii.eqb a dquote) eqn:A;
          [|destruct (find_char y dquote); discriminate F].
        apply Ascii.eqb_eq in A. subst a. now exists y.
      * split; [cbn [no_quote all_chars]; rewrite E; exact N|].
        right. exists rest. cbn [append]. now rewrite <- R.
    + destruct IH as [_ [[N _]|[rest R]]].
      * split; [reflexivity|]. left. split; [|reflexivity].
        cbn [no_quote all_chars]. rewrite E. exact N.
      * exfalso. cbn [append] in R. subst y. cbn [find_char] in F.
        rewrite Ascii.eqb_refl in F. discriminate F.
Qed.

(** X9.  What [extract_hex] returns.  The result never contains a double
    quote.  When no double quote occurs at or after [start_pos] (also when
    [start_pos] lies beyond the end of the text) the result is the empty
    text; otherwise the text from [start_pos] on is the result, then a
    double quote, then the rest. *)
Theorem extract_hex_stops_at_quote (json : string) (start_pos : nat) :
  no_quote (AuditChain.extract_hex json start_pos) = true /\
  ((no_quote (drop start_pos json) = true /\
    AuditChain.extract_hex json start_pos = "") \/
   exists rest,
     drop start_pos json
     = AuditChain.extract_hex json start_pos ++ String dquote rest).
Proof.
  rewrite extract_hex_until_quote. apply until_quote_cases.
Qed.

(** ** Escaping *)

Lemma escape_char_facts (c : ascii) :
  (String.length (AuditChain.escape_char c) <= 6)%nat /\
  no_control (AuditChain.escape_char c) = true /\
  (special_char c = false -> AuditChain.escape_char c = String c "").
Proof.
  assert (A : (String.length (AuditChain.escape_char c) <=? 6)%nat
              && no_control (AuditChain.escape_char c)
              && (special_char c
                  || String.eqb (AuditChain.escape_char c) (String c ""))
              = true).
  { destruct c as [[] [] [] [] [] [] [] []]; reflexivity. }
  apply andb_prop in A as [A A3]. apply andb_prop in A as [A1 A2].
  apply Nat.leb_le in A1. split; [assumption|]. split; [assumption|].
  intros H. rewrite H in A3. now apply String.eqb_eq.
Qed.

Lemma escape_json_append (a b : string) :
  AuditChain.escape_json (a ++ b)
  = AuditChain.escape_json a ++ AuditChain.escape_json b.
Proof.
  induction a as [|c a IH]; [reflexivity|].
  cbn [append AuditChain.escape_json]. now rewrite IH, append_assoc.
Qed.

(** X10.  [escape_json] returns its argument unchanged exactly when the
    argument holds no double quote, no backslash and no control character
    (a byte below 0x20). *)
Theorem escape_json_identity (m : string) :
  AuditChain.escape_json m = m <-> needs_escape m = false.
Proof.
  split.
  - intros H. destruct (needs_escape m) eqn:E; [|reflexivity].
    now apply escape_json_changes in E.
  - unfold needs_escape. intros H. apply negb_false_iff in H.
    induction m as [|c m IH]; [reflexivity|].
    cbn [all_chars] in H. apply andb_prop in H as [H1 H2].
    apply negb_true_iff in H1.
    cbn [AuditChain.escape_json].
    rewrite (proj2 (proj2 (escape_char_facts c)) H1), IH by assumption.
    reflexivity.
Qed.

(** X11.  [escape_json] works character by character: the escaped form of
    a concatenation is the concatenation of the escaped forms, and the
    result is at least as long as the argument and at most six times as
    long (the six characters of a [\u00XX] escape). *)
Theorem escape_json_by_character (a b : string) :
  AuditChain.escape_json (a ++ b)
  = AuditChain.escape_json a ++ AuditChain.escape_json b /\
  (String.length a <= String.length (AuditChain.escape_json a)
                   <= 6 * String.length a)%nat.
Proof.
  split; [apply escape_json_append|].
  split; [apply length_escape_json|].
  induction a as [|c a IH]; [cbn; lia|].
  cbn [AuditChain.escape_json String.length]. rewrite length_append.
  pose proof (proj1 (escape_char_facts c)). lia.
Qed.

(** X12.  [escape_json] loses nothing: two messages with the same escaped
    form are the same message. *)
Theorem escape_json_injective (m1 m2 : string) :
  AuditChain.escape_json m1 = AuditChain.escape_json m2 -> m1 = m2.
Proof.
  intros H.
  pose proof (json_string_tail_escape_json m1 "") as R1.
  pose proof (json_string_tail_escape_json m2 "") as R2.
  rewrite H, R2 in R1. now injection R1.
Qed.

Lemma escape_json_injective_witness :
  AuditChain.escape_json sample_message = AuditChain.escape_json sample_message /\
  sample_message = sample_message.
Proof.
  split; [reflexivity|].
  exact (escape_json_injective sample_message sample_message eq_refl).
Defined.

(** X13.  The text that [escape_json] returns holds no control
    character (no byte below 0x20), and every double quote in it directly
    follows a backslash, whatever the argument. *)
Theorem escape_json_output_is_clean (m : string) :
  no_control (AuditChain.escape_json m) = true /\
  guarded false (AuditChain.escape_json m) = true.
Proof.
  split; [|apply guarded_escape_json].
  induction m as [|c m IH]; [reflexivity|].
  cbn [AuditChain.escape_json]. unfold no_control.
  rewrite all_chars_append. apply andb_true_intro. split; [|exact IH].
  apply escape_char_facts.
Qed.

(** ** What [verify_chain] looks at *)

Lemma verify_loop_prefix (l1 l2 : list string) (expected : list Z) :
  AuditChain.verify_loop expected (l1 ++ l2) = Ret true ->
  AuditChain.verify_loop expected l1 = Ret true.
Proof.
  revert expected; induction l1 as [|entry l1 IH]; intros expected H;
    [reflexivity|].
  cbn [app AuditChain.verify_loop] in H |- *.
  destruct (find entry AuditChain.key_previous_hash) as [p|]; [|discriminate H].
  destruct (find entry AuditChain.key_chain_hash) as [c|]; [|discriminate H].
  destruct (negb _); [discriminate H|].
  destruct (AuditChain.hex_to_hash _) as [hash|e]; [|discriminate H].
  cbn [bind] in H |- *. now apply IH.
Qed.

(** X14.  [verify_chain] cannot see that entries are missing at the end:
    whenever it accepts a list of entries, of whatever content, it accepts
    every initial part of that list. *)
Theorem verify_chain_accepts_truncation (l1 l2 : list string) :
  AuditChain.verify_chain (l1 ++ l2) = Ret true ->
  AuditChain.verify_chain l1 = Ret true.
Proof.
  destruct l1 as [|x l1]; [reflexivity|].
  cbn [app AuditChain.verify_chain].
  exact (verify_loop_prefix (x :: l1) l2 _).
Qed.

Lemma verify_chain_accepts_truncation_witness :
  AuditChain.verify_chain
    (firstn 1 (export "pump-7" sample_events)
     ++ skipn 1 (export "pump-7" sample_events)) = Ret true /\
  AuditChain.verify_chain (firstn 1 (export "pump-7" sample_events)) = Ret true.
Proof.
  assert (H : AuditChain.verify_chain
                (firstn 1 (export "pump-7" sample_events)
                 ++ skipn 1 (export "pump-7" sample_events)) = Ret true).
  { rewrite firstn_skipn. now apply verify_chain_export. }
  split; [exact H|].
  exact (verify_chain_accepts_truncation _ _ H).
Defined.

Lemma trace_app (self : AuditChain.t) (evs1 evs2 : list event) :
  trace self (evs1 ++ evs2)
  = (trace self evs1 ++ trace (snd (run self evs1)) evs2)%list.
Proof.
  revert self; induction evs1 as [|ev evs1 IH]; intros self; [reflexivity|].
  cbn [app trace]. rewrite IH, snd_run_cons. reflexivity.
Qed.

Lemma chained_replace (l1 l2 : list entry_fields) (e e' : entry_fields)
    (expected : list Z) :
  ef_prev e' = ef_prev e -> ef_chain e' = ef_chain e ->
  chained expected (l1 ++ e :: l2) -> chained expected (l1 ++ e' :: l2).
Proof.
  intros Hp Hc. revert expected; induction l1 as [|x l1 IH]; intros expected.
  - cbn [app chained]. now rewrite Hp, Hc.
  - cbn [app chained]. intros [H1 H2]. split; [assumption | now apply IH].
Qed.

Lemma wf_entry_replace (l1 l2 : list entry_fields) (e e' : entry_fields) :
  wf_entry e' -> Forall wf_entry (l1 ++ e :: l2) ->
  Forall wf_entry (l1 ++ e' :: l2).
Proof.
  intros He H. apply Forall_app in H as [H1 H2]. inversion H2; subst.
  apply Forall_app. split; [assumption|]. now constructor.
Qed.

Lemma chain_field_of_entry (self : AuditChain.t) (ev : event) :
  ef_chain (fields_of self ev)
  = AuditChain.previous_hash_ (snd (log_event self ev)).
Proof. reflexivity. Qed.

Lemma verify_chain_replaced_entry (d : string) (evs1 : list event)
    (ev : event) (evs2 : list event) (now : AuditChain.time_point)
    (message : string) (user_id : AuditChain.UserID)
    (severity : AuditChain.Severity) :
  no_quote d = true ->
  AuditChain.verify_chain
    (replace_nth (List.length evs1)
       (AuditChain.log_entry_of d (AuditChain.timestamp_of now) user_id
          severity message
          (AuditChain.previous_hash_ (state_after d evs1))
          (AuditChain.previous_hash_ (state_after d (evs1 ++ [ev]))))
       (export d (evs1 ++ ev :: evs2)))
  = Ret true.
Proof.
  intros Hd.
  pose proof (wf_trace (AuditChain.new d) (evs1 ++ ev :: evs2) Hd
                (is_digest_hash_str "DTS_INIT")) as W.
  pose proof (chained_trace (AuditChain.new d) (evs1 ++ ev :: evs2)) as C.
  rewrite export_trace, trace_app in *. cbn [trace] in *.
  fold (state_after d evs1) in *.
  set (l1 := trace (AuditChain.new d) evs1) in *.
  set (e := fields_of (state_after d evs1) ev) in *.
  set (l2 := trace _ evs2) in *.
  rewrite state_after_snoc, <- chain_field_of_entry. fold e.
  change (AuditChain.previous_hash_ (state_after d evs1)) with (ef_prev e).
  rewrite log_entry_shape.
  set (e' := {| ef_head := entry_head d (AuditChain.timestamp_of now) user_id
                             severity message;
                ef_prev := ef_prev e; ef_chain := ef_chain e |}).
  change (entry_with _ _ _) with (serialize e').
  replace (List.length evs1) with (List.length (map serialize l1))
    by (unfold l1; now rewrite length_map, length_trace).
  rewrite map_app. cbn [map]. rewrite replace_nth_app.
  change (map serialize l1 ++ serialize e' :: map serialize l2)%list
    with (map serialize l1 ++ map serialize (e' :: l2))%list.
  rewrite <- map_app, verify_chain_links.
  - f_equal. apply links_ok_chained.
    now apply (chained_replace l1 l2 e e').
  - apply (wf_entry_replace l1 l2 e e'); [|assumption].
    assert (We : wf_entry e).
    { apply Forall_app in W as [_ W]. now inversion W. }
    destruct We as (_ & P & Q).
    split; [|split; assumption].
    apply findable_entry_head; [assumption | apply no_quote_timestamp].
Qed.

(** X15.  [verify_chain] reads the two digest fields of an entry and
    nothing else.  In the export of a chain whose device identifier has no
    double quote, any entry may be replaced by one with another time stamp,
    message, actor and severity: as long as its [previous_hash] and
    [chain_hash] fields are left as they were, [verify_chain] accepts the
    list, although the [chain_hash] no longer is the digest of the entry's
    content. *)
Theorem verify_chain_ignores_content (d : string) (evs1 : list event)
    (ev : event) (evs2 : list event) (now : AuditChain.time_point)
    (message : string) (user_id : AuditChain.UserID)
    (severity : AuditChain.Severity) :
  no_quote d = true ->
  AuditChain.verify_chain
    (replace_nth (List.length evs1)
       (AuditChain.log_entry_of d (AuditChain.timestamp_of now) user_id
          severity message
          (AuditChain.previous_hash_ (state_after d evs1))
          (AuditChain.previous_hash_ (state_after d (evs1 ++ [ev]))))
       (export d (evs1 ++ ev :: evs2)))
  = Ret true.
Proof. apply verify_chain_replaced_entry. Qed.

Lemma verify_chain_ignores_content_witness :
  no_quote "pump-7" = true /\
  AuditChain.verify_chain
    (replace_nth 1
       (AuditChain.log_entry_of "pump-7" (AuditChain.timestamp_of sample_time)
          AuditChain.Operator AuditChain.Debug "nothing happened"
          (AuditChain.previous_hash_ (state_after "pump-7" [boot]))
          (AuditChain.previous_hash_
             (state_after "pump-7" ([boot] ++ [nth 1 sample_events boot]))))
       (export "pump-7"
          ([boot] ++ nth 1 sample_events boot :: skipn 2 sample_events)))
  = Ret true.
Proof.
  split; [reflexivity|].
  exact (verify_chain_ignores_content "pump-7" [boot] (nth 1 sample_events boot)
           (skipn 2 sample_events) sample_time "nothing happened"
           AuditChain.Operator AuditChain.Debug eq_refl).
Defined.

Lemma chained_nth (l : list entry_fields) (expected : list Z) (i : nat)
    (e1 e2 : entry_fields) :
  chained expected l ->
  nth_error l i = Some e1 -> nth_error l (S i) = Some e2 ->
  ef_prev e2 = ef_chain e1.
Proof.
  revert expected i; induction l as [|x l IH]; intros expected i C H1 H2;
    [destruct i; discriminate H1|].
  destruct C as [_ C]. destruct i as [|i].
  - injection H1 as <-. destruct l as [|y l]; [discriminate H2|].
    injection H2 as <-. now destruct C.
  - now apply (IH (ef_chain x) i).
Qed.

Lemma wf_entry_fields (e : entry_fields) :
  wf_entry e ->
  exists p c,
    find (serialize e) AuditChain.key_previous_hash = Some p /\
    find (serialize e) AuditChain.key_chain_hash = Some c /\
    AuditChain.extract_hex (serialize e) (p + 17)
    = AuditChain.hash_to_hex (ef_prev e) /\
    AuditChain.extract_hex (serialize e) (c + 14)
    = AuditChain.hash_to_hex (ef_chain e).
Proof.
  intros (F & _ & _). unfold serialize.
  destruct (F (AuditChain.hash_to_hex (ef_prev e))
              (AuditChain.hash_to_hex (ef_chain e))) as [Fp Fc].
  specialize (Fc (no_quote_hash_to_hex _)).
  eexists; eexists. split; [exact Fp|]. split; [exact Fc|].
  rewrite extract_previous_hash, extract_chain_hash.
  rewrite !until_quote_no_quote by apply no_quote_hash_to_hex.
  split; reflexivity.
Qed.

(** X16.  Linkage, as a reader of the export sees it.  In the export of a
    chain whose device identifier has no double quote, both keys are found
    in every entry; the text of the [previous_hash] field of the first
    entry is the printed digest of [DTS_INIT], and the text of the
    [previous_hash] field of every later entry is the text of the
    [chain_hash] field of the entry before it. *)
Theorem exported_entries_are_linked (d : string) (evs : list event) (i : nat)
    (entry : string) :
  no_quote d = true ->
  nth_error (export d evs) i = Some entry ->
  exists p c,
    find entry AuditChain.key_previous_hash = Some p /\
    find entry AuditChain.key_chain_hash = Some c /\
    match i with
    | O => AuditChain.extract_hex entry (p + 17)
           = AuditChain.hash_to_hex (SHA256.hash_str "DTS_INIT")
    | S j =>
        exists before c',
          nth_error (export d evs) j = Some before /\
          find before AuditChain.key_chain_hash = Some c' /\
          AuditChain.extract_hex entry (p + 17)
          = AuditChain.extract_hex before (c' + 14)
    end.
Proof.
  intros Hd H.
  pose proof (wf_trace (AuditChain.new d) evs Hd
                (is_digest_hash_str "DTS_INIT")) as W.
  pose proof (chained_trace (AuditChain.new d) evs) as C.
  rewrite export_trace in *.
  set (l := trace (AuditChain.new d) evs) in *.
  rewrite Forall_forall in W.
  rewrite nth_error_map in H.
  destruct (nth_error l i) as [e|] eqn:E; [|discriminate H].
  injection H as <-.
  destruct (wf_entry_fields e (W e (nth_error_In _ _ E))) as (p & c & Fp & Fc & Xp & Xc).
  exists p, c. split; [exact Fp|]. split; [exact Fc|].
  destruct i as [|j].
  - rewrite Xp. f_equal. destruct l as [|x l']; [discriminate E|].
    injection E as ->. now destruct C.
  - destruct (nth_error l j) as [b|] eqn:B.
    + destruct (wf_entry_fields b (W b (nth_error_In _ _ B)))
        as (p' & c' & _ & Fc' & _ & Xc').
      exists (serialize b), c'.
      rewrite nth_error_map, B. split; [reflexivity|]. split; [exact Fc'|].
      rewrite Xp, Xc'. f_equal. exact (chained_nth l _ j b e C B E).
    + exfalso. apply nth_error_None in B.
      assert (nth_error l (S j) <> None) as N by (rewrite E; discriminate).
      apply nth_error_Some in N. lia.
Qed.

Lemma exported_entries_are_linked_witness :
  no_quote "pump-7" = true /\
  nth_error (export "pump-7" sample_events) 1
  = Some (nth 1 (export "pump-7" sample_events) "") /\
  exists p c,
    find (nth 1 (export "pump-7" sample_events) "")
         AuditChain.key_previous_hash = Some p /\
    find (nth 1 (export "pump-7" sample_events) "")
         AuditChain.key_chain_hash = Some c /\
    exists before c',
      nth_error (export "pump-7" sample_events) 0 = Some before /\
      find before AuditChain.key_chain_hash = Some c' /\
      AuditChain.extract_hex (nth 1 (export "pump-7" sample_events) "") (p + 17)
      = AuditChain.extract_hex before (c' + 14).
Proof.
  assert (H : nth_error (export "pump-7" sample_events) 1
              = Some (nth 1 (export "pump-7" sample_events) ""))
    by (vm_compute; reflexivity).
  split; [reflexivity|]. split; [exact H|].
  exact (exported_entries_are_linked "pump-7" sample_events 1 _ eq_refl H).
Defined.

(** ** Time stamps *)

Lemma decimal_digit_char (d : Z) :
  0 <= d < 10 -> decimal_digit (digit_char d) = true.
Proof.
  intros H.
  assert (C : d = 0 \/ d = 1 \/ d = 2 \/ d = 3 \/ d = 4 \/ d = 5 \/ d = 6 \/
              d = 7 \/ d = 8 \/ d = 9) by lia.
  destruct C as [->|[->|[->|[->|[->|[->|[->|[->|[->| ->]]]]]]]]]; reflexivity.
Qed.

Lemma all_chars_render_decimal (f : ascii -> bool) (fuel : nat) (n : Z)
    (acc : string) :
  (forall c, decimal_digit c = true -> f c = true) ->
  all_chars f acc = true -> all_chars f (render_digits fuel 10 n acc) = true.
Proof.
  intros Hf; revert n acc; induction fuel as [|fuel IH]; intros n acc Hacc;
    cbn [render_digits]; [exact Hacc|].
  assert (D : f (digit_char (n mod 10)) = true)
    by (apply Hf, decimal_digit_char, Z.mod_pos_bound; lia).
  destruct (n / 10 =? 0).
  - cbn [all_chars]. now rewrite D, Hacc.
  - apply IH. cbn [all_chars]. now rewrite D, Hacc.
Qed.

Lemma all_chars_render_int (f : ascii -> bool) (n : Z) :
  (forall c, decimal_digit c = true -> f c = true) -> f "-"%char = true ->
  all_chars f (render_int n) = true.
Proof.
  intros Hd Hm.
  assert (H : forall m, all_chars f (render_unsigned 10 m) = true).
  { intros m. apply all_chars_render_decimal; [exact Hd | reflexivity]. }
  unfold render_int. destruct (n <? 0); [|apply H].
  cbn [all_chars]. now rewrite Hm, H.
Qed.

Lemma timestamp_chars (now : AuditChain.time_point) :
  all_chars timestamp_char (AuditChain.timestamp_of now) = true.
Proof.
  assert (D : forall c, decimal_digit c = true -> timestamp_char c = true).
  { intros c H. unfold timestamp_char. now rewrite H. }
  assert (R : forall n, all_chars timestamp_char (render_int n) = true).
  { intros n. apply all_chars_render_int; [exact D | reflexivity]. }
  assert (W : forall w n,
             all_chars timestamp_char (setw w "0" (render_int n)) = true).
  { intros w n. apply all_chars_setw; [reflexivity | apply R]. }
  unfold AuditChain.timestamp_of.
  rewrite !all_chars_append, !W, R. reflexivity.
Qed.








(** ** The unit tests *)

Lemma find_occurs (a needle b : string) :
  found (find (a ++ needle ++ b) needle) = true.
Proof.
  induction a as [|c a IH].
  - cbn [append]. destruct (needle ++ b) eqn:E; cbn [find];
      rewrite <- E, prefixb_append; reflexivity.
  - cbn [append find]. destruct (prefixb needle _); [reflexivity|].
    destruct (find (a ++ needle ++ b) needle); [reflexivity | discriminate IH].
Qed.

Lemma found_chain_hash (d ts : string) (u : AuditChain.UserID)
    (sv : AuditChain.Severity) (m : string) (p c : list Z) :
  found (find (AuditChain.log_entry_of d ts u sv m p c) "chain_hash") = true.
Proof.
  rewrite log_entry_shape. unfold entry_with, AuditChain.key_chain_hash.
  set (head := entry_head d ts u sv m).
  replace (head ++ AuditChain.key_previous_hash ++ AuditChain.hash_to_hex p ++
           q ++ "," ++ (q ++ "chain_hash" ++ q ++ ":" ++ q) ++
           AuditChain.hash_to_hex c ++ q ++ "}")
    with ((head ++ AuditChain.key_previous_hash ++ AuditChain.hash_to_hex p ++
           q ++ "," ++ q) ++ "chain_hash" ++
          (q ++ ":" ++ q ++ AuditChain.hash_to_hex c ++ q ++ "}"))
    by (rewrite !append_assoc; reflexivity).
  apply find_occurs.
Qed.

Lemma found_previous_hash (d ts : string) (u : AuditChain.UserID)
    (sv : AuditChain.Severity) (m : string) (p c : list Z) :
  found (find (AuditChain.log_entry_of d ts u sv m p c) "previous_hash") = true.
Proof.
  rewrite log_entry_shape. unfold entry_with, AuditChain.key_previous_hash.
  set (head := entry_head d ts u sv m).
  set (tl := AuditChain.hash_to_hex p ++ q ++ "," ++ AuditChain.key_chain_hash ++
             AuditChain.hash_to_hex c ++ q ++ "}").
  replace (head ++ (q ++ "previous_hash" ++ q ++ ":" ++ q) ++ tl)
    with ((head ++ q) ++ "previous_hash" ++ (q ++ ":" ++ q ++ tl))
    by (rewrite !append_assoc; reflexivity).
  apply find_occurs.
Qed.

(** X18.  The assertions of the unit tests hold whatever the clock reads
    at each call of [log]: the sequence number counts the calls, every
    entry contains the names of both digest fields, and the three entries
    of [test_chain_integrity] pass [verify_chain]. *)
Theorem unit_tests_pass (now1 now2 now3 now4 now5 : AuditChain.time_point) :
  test_basic_logging now1 now2 = true /\
  test_chain_integrity now1 now2 now3 = Ret true /\
  test_user_severity_levels now1 now2 now3 now4 now5 = true /\
  test_hash_consistency now1 now2 = true.
Proof.
  split; [|split; [|split]].
  - unfold test_basic_logging, AuditChain.log.
    cbn [AuditChain.get_sequence_number AuditChain.sequence_number_
         AuditChain.new AuditChain.device_id_ AuditChain.previous_hash_].
    rewrite found_chain_hash, found_previous_hash. reflexivity.
  - apply verify_chain_export. reflexivity.
  - unfold test_user_severity_levels, AuditChain.log.
    cbn [snd AuditChain.get_sequence_number AuditChain.sequence_number_
         AuditChain.new]. reflexivity.
  - unfold test_hash_consistency, AuditChain.log. cbn [fst].
    rewrite !found_chain_hash. reflexivity.
Qed.

(** ** The tampering step of [test_chain_integrity] *)

Lemma skips_absent_first (a : ascii) (key x rest : string) :
  all_chars (fun c => negb (Ascii.eqb c a)) x = true ->
  skips (String a key) x rest.
Proof.
  induction x as [|c x IH]; intros H; [apply skips_nil|].
  cbn [all_chars] in H. apply andb_prop in H as [H1 H2].
  change (String c x) with (String c "" ++ x).
  apply skips_append; [|now apply IH].
  apply skips_char. cbn [prefixb].
  rewrite Ascii.eqb_sym. now destruct (Ascii.eqb c a).
Qed.

Lemma skips_timestamp (key rest : string) (now : AuditChain.time_point) :
  skips (String "E" key) (AuditChain.timestamp_of now) rest.
Proof.
  apply skips_absent_first.
  apply (all_chars_impl timestamp_char); [|apply timestamp_chars].
  intros c H. destruct (Ascii.eqb_spec c "E") as [->|]; [discriminate H | reflexivity].
Qed.

Lemma replace_at (pre old new post : string) :
  find (pre ++ old ++ post) old = Some (String.length pre) ->
  replace (pre ++ old ++ post) (find (pre ++ old ++ post) old)
          (String.length old) new
  = Ret (pre ++ new ++ post).
Proof.
  intros ->. unfold replace.
  assert ((String.length (pre ++ old ++ post) <? String.length pre)%nat = false)
    as -> by (apply Nat.ltb_ge; rewrite length_append; lia).
  rewrite take_length_append, drop_append, drop_length_append. reflexivity.
Qed.

Lemma state_after_one (d : string) (ev : event) :
  state_after d [ev] = snd (log_event (AuditChain.new d) ev).
Proof. exact (state_after_snoc d [] ev). Qed.

Lemma second_test_entry (now1 now2 now3 : AuditChain.time_point) :
  nth 1 (chain_integrity_entries now1 now2 now3) ""
  = AuditChain.log_entry_of "TEST-DEVICE-002" (AuditChain.timestamp_of now2)
      AuditChain.System AuditChain.Info "Event 2"
      (AuditChain.previous_hash_
         (state_after "TEST-DEVICE-002"
            [Event now1 "Event 1" AuditChain.System AuditChain.Info]))
      (AuditChain.previous_hash_
         (state_after "TEST-DEVICE-002"
            ([Event now1 "Event 1" AuditChain.System AuditChain.Info]
             ++ [Event now2 "Event 2" AuditChain.System AuditChain.Info]))).
Proof.
  unfold chain_integrity_entries. rewrite export_trace.
  cbn [trace map nth].
  rewrite state_after_snoc, state_after_one, log_entry_shape.
  set (s1 := snd (log_event _ _)).
  unfold serialize, fields_of, log_event, AuditChain.log.
  cbn [ef_head ef_prev ef_chain ev_now ev_message ev_user ev_severity snd
       AuditChain.previous_hash_].
  replace (AuditChain.device_id_ s1) with "TEST-DEVICE-002" by reflexivity.
  reflexivity.
Qed.

Lemma find_event_2 (now : AuditChain.time_point) (post : string) :
  find ((before_message "TEST-DEVICE-002" (AuditChain.timestamp_of now)
           AuditChain.System AuditChain.Info
         ++ q ++ "message" ++ q ++ ":" ++ q) ++ "Event 2" ++ post) "Event 2"
  = Some (String.length
            (before_message "TEST-DEVICE-002" (AuditChain.timestamp_of now)
               AuditChain.System AuditChain.Info
             ++ q ++ "message" ++ q ++ ":" ++ q)).
Proof.
  apply find_hit.
  set (rest := "Event 2" ++ post). generalize rest; clear rest post; intros rest.
  unfold before_message.
  set (ts := AuditChain.timestamp_of now).
  set (c1 := "{" ++ q ++ "device_id" ++ q ++ ":" ++ q ++ "TEST-DEVICE-002" ++ q
             ++ "," ++ q ++ "timestamp" ++ q ++ ":" ++ q).
  set (c2 := q ++ "," ++ q ++ "user_id" ++ q ++ ":" ++
             render_int (AuditChain.UserID_value AuditChain.System) ++ "," ++
             q ++ "severity" ++ q ++ ":" ++
             render_int (AuditChain.Severity_value AuditChain.Info) ++ "," ++
             q ++ "message" ++ q ++ ":" ++ q).
  match goal with
  | |- skips _ ?x _ => replace x with (c1 ++ ts ++ c2)
      by (unfold c1, c2; rewrite !append_assoc; reflexivity)
  end.
  assert (C : forall p, (forall r, find (p ++ r) "Event 2"
                          = option_map (Nat.add (String.length p)) (find r "Event 2"))
                        -> forall r, skips "Event 2" p r) by (intros p H r; apply H).
  apply skips_append; [|apply skips_append].
  - apply C. intros r. vm_compute (String.length c1).
    unfold c1. cbn. now destruct (find r "Event 2").
  - apply skips_timestamp.
  - apply C. intros r. vm_compute (String.length c2).
    unfold c2. cbn. now destruct (find r "Event 2").
Qed.

(** X19.  The second half of [test_chain_integrity], which the test runs
    without an assertion.  Whatever the clock reads, the replacement of
    [Event 2] by [HACKED] in the second entry succeeds and changes the
    vector, and [verify_chain] still accepts the vector afterwards: the
    change of the message is not detected. *)
Theorem test_tampering_is_accepted (now1 now2 now3 : AuditChain.time_point) :
  exists entries,
    tampered_entries (chain_integrity_entries now1 now2 now3) = Ret entries /\
    entries <> chain_integrity_entries now1 now2 now3 /\
    AuditChain.verify_chain entries = Ret true.
Proof.
  set (ev1 := Event now1 "Event 1" AuditChain.System AuditChain.Info).
  set (ev2 := Event now2 "Event 2" AuditChain.System AuditChain.Info).
  set (ev3 := Event now3 "Event 3" AuditChain.System AuditChain.Info).
  set (p := AuditChain.previous_hash_ (state_after "TEST-DEVICE-002" [ev1])).
  set (c := AuditChain.previous_hash_
              (state_after "TEST-DEVICE-002" ([ev1] ++ [ev2]))).
  set (pre := before_message "TEST-DEVICE-002" (AuditChain.timestamp_of now2)
                AuditChain.System AuditChain.Info
              ++ q ++ "message" ++ q ++ ":" ++ q).
  set (post := q ++ after_message p c).
  assert (E : forall m, AuditChain.escape_json m = m ->
                AuditChain.log_entry_of "TEST-DEVICE-002"
                  (AuditChain.timestamp_of now2) AuditChain.System
                  AuditChain.Info m p c = pre ++ m ++ post).
  { intros m Hm. rewrite log_entry_around_message, Hm. unfold pre, post.
    rewrite !append_assoc. reflexivity. }
  exists (replace_nth 1
            (AuditChain.log_entry_of "TEST-DEVICE-002"
               (AuditChain.timestamp_of now2) AuditChain.System
               AuditChain.Info "HACKED" p c)
            (chain_integrity_entries now1 now2 now3)).
  split; [|split].
  - unfold tampered_entries.
    rewrite second_test_entry. fold ev1 ev2 p c.
    rewrite !E by reflexivity.
    change 7%nat with (String.length "Event 2").
    rewrite replace_at by apply find_event_2.
    reflexivity.
  - intros H. apply (f_equal (fun l => nth 1 l "")) in H.
    rewrite second_test_entry in H. fold ev1 ev2 p c in H.
    unfold chain_integrity_entries in H. rewrite export_trace in H.
    cbn [trace map replace_nth firstn skipn app nth] in H.
    rewrite !E in H by reflexivity.
    apply append_inv_head in H. discriminate H.
  - exact (verify_chain_replaced_entry "TEST-DEVICE-002" [ev1] ev2 [ev3] now2
             "HACKED" AuditChain.System AuditChain.Info eq_refl).
Qed.

(** ** The chain behind an adapter *)

Section AdapterCalls.

(** An adapter: its state, its calls, the chain it owns, and the fact that
    every call is one call of [log] on that chain. *)
Variables A C : Type.
Variable chain_of : A -> AuditChain.t.
Variable invoke : A -> AuditChain.time_point -> C -> string * A.
Hypothesis invoke_logs :
  forall self now c, exists message user_id severity,
    fst (invoke self now c)
    = fst (AuditChain.log (chain_of self) now message user_id severity) /\
    chain_of (snd (invoke self now c))
    = snd (AuditChain.log (chain_of self) now message user_id severity).

Lemma run_calls_events (calls : list (AuditChain.time_point * C)) (self : A) :
  exists evs,
    List.length evs = List.length calls /\
    fst (run_calls invoke self calls) = fst (run (chain_of self) evs) /\
    chain_of (snd (run_calls invoke self calls)) = snd (run (chain_of self) evs).
Proof.
  revert self; induction calls as [|[now c] calls IH]; intros self.
  - exists []. repeat split.
  - destruct (invoke_logs self now c) as (m & u & sv & H1 & H2).
    destruct (IH (snd (invoke self now c))) as (evs & L & E1 & E2).
    exists (Event now m u sv :: evs).
    split; [cbn [List.length]; now rewrite L|].
    cbn [run_calls run]. unfold log_event. cbn [ev_now ev_message ev_user ev_severity].
    destruct (invoke self now c) as [entry self'] eqn:I.
    cbn [fst snd] in *.
    destruct (run_calls invoke self' calls) as [entries final] eqn:R.
    cbn [fst snd] in *.
    rewrite H2 in E1, E2.
    rewrite (surjective_pairing (AuditChain.log (chain_of self) now m u sv)).
    rewrite <- H1.
    destruct (run _ evs) as [entries' final'].
    cbn [fst snd] in *. subst. split; reflexivity.
Qed.

Lemma calls_keep_chain_valid (d : string) (self : A)
    (calls : list (AuditChain.time_point * C)) :
  chain_of self = AuditChain.new d -> no_quote d = true ->
  AuditChain.verify_chain (fst (run_calls invoke self calls)) = Ret true /\
  List.length (fst (run_calls invoke self calls)) = List.length calls /\
  AuditChain.get_sequence_number (chain_of (snd (run_calls invoke self calls)))
  = Z.of_nat (List.length calls) mod 2 ^ 64.
Proof.
  intros Hc Hd.
  destruct (run_calls_events calls self) as (evs & L & E1 & E2).
  rewrite Hc in E1, E2. fold (export d evs) in E1. fold (state_after d evs) in E2.
  rewrite E1, E2, <- L. split; [now apply verify_chain_export|].
  split; [|apply sequence_number_state_after].
  rewrite export_trace, length_map. apply length_trace.
Qed.

End AdapterCalls.

Ltac one_log_call unfold_member :=
  intros self now c; destruct c; unfold_member;
  eexists; eexists; eexists; split; reflexivity.

Lemma medtech_invoke_logs :
  forall self now c, exists message user_id severity,
    fst (MedTechAdapter.invoke self now c)
    = fst (AuditChain.log (MedTechAdapter.chain_ self) now message user_id
             severity) /\
    MedTechAdapter.chain_ (snd (MedTechAdapter.invoke self now c))
    = snd (AuditChain.log (MedTechAdapter.chain_ self) now message user_id
             severity).
Proof.
  one_log_call
    ltac:(unfold MedTechAdapter.invoke, MedTechAdapter.log_post_result,
                  MedTechAdapter.log_medication_event,
                  MedTechAdapter.log_safety_alarm,
                  MedTechAdapter.log_calibration,
                  MedTechAdapter.log_firmware_update,
                  MedTechAdapter.log_maintenance, MedTechAdapter.logged;
          cbn [fst snd MedTechAdapter.chain_]).
Qed.

Lemma dicom_invoke_logs :
  forall self now c, exists message user_id severity,
    fst (DICOMAdapter.invoke self now c)
    = fst (AuditChain.log (DICOMAdapter.chain_ self) now message user_id
             severity) /\
    DICOMAdapter.chain_ (snd (DICOMAdapter.invoke self now c))
    = snd (AuditChain.log (DICOMAdapter.chain_ self) now message user_id
             severity).
Proof.
  one_log_call
    ltac:(unfold DICOMAdapter.invoke, DICOMAdapter.log_study_created,
                  DICOMAdapter.log_ai_inference_request,
                  DICOMAdapter.log_ai_inference_completed,
                  DICOMAdapter.log_instance_stored,
                  DICOMAdapter.log_transfer_initiated,
                  DICOMAdapter.log_access_event, DICOMAdapter.logged;
          cbn [fst snd DICOMAdapter.chain_]).
Qed.

Lemma industrial_invoke_logs :
  forall self now c, exists message user_id severity,
    fst (IndustrialAdapter.invoke self now c)
    = fst (AuditChain.log (IndustrialAdapter.chain_ self) now message user_id
             severity) /\
    IndustrialAdapter.chain_ (snd (IndustrialAdapter.invoke self now c))
    = snd (AuditChain.log (IndustrialAdapter.chain_ self) now message user_id
             severity).
Proof.
  one_log_call
    ltac:(unfold IndustrialAdapter.invoke, IndustrialAdapter.log_plc_event,
                  IndustrialAdapter.log_io_change,
                  IndustrialAdapter.log_scada_alarm,
                  IndustrialAdapter.log_production_event,
                  IndustrialAdapter.log_protocol_event,
                  IndustrialAdapter.log_safety_interlock,
                  IndustrialAdapter.log_equipment_status,
                  IndustrialAdapter.log_parameter_change,
                  IndustrialAdapter.log_maintenance, IndustrialAdapter.logged;
          cbn [fst snd IndustrialAdapter.chain_]).
Qed.

Lemma building_invoke_logs :
  forall self now c, exists message user_id severity,
    fst (BuildingAutomationAdapter.invoke self now c)
    = fst (AuditChain.log (BuildingAutomationAdapter.chain_ self) now message
             user_id severity) /\
    BuildingAutomationAdapter.chain_
      (snd (BuildingAutomationAdapter.invoke self now c))
    = snd (AuditChain.log (BuildingAutomationAdapter.chain_ self) now message
             user_id severity).
Proof.
  one_log_call
    ltac:(unfold BuildingAutomationAdapter.invoke,
                  BuildingAutomationAdapter.log_lighting_event,
                  BuildingAutomationAdapter.log_access_control,
                  BuildingAutomationAdapter.log_fire_safety_event,
                  BuildingAutomationAdapter.log_knx_event,
                  BuildingAutomationAdapter.log_bacnet_event,
                  BuildingAutomationAdapter.log_schedule_event,
                  BuildingAutomationAdapter.log_elevator_event,
                  BuildingAutomationAdapter.log_security_event,
                  BuildingAutomationAdapter.logged;
          cbn [fst snd BuildingAutomationAdapter.chain_]).
Qed.

(** X20.  The entries of a [MedTechAdapter].  Whatever members are called,
    in whatever order and with whatever arguments (texts with quotes,
    bars or control characters included), on an adapter whose device
    identifier has no double quote: the entries returned, in order, pass
    [verify_chain], there is one entry per call, and the sequence number of
    the chain counts the calls (modulo two to the sixty-four). *)
Theorem medtech_entries_verify (device_id device_type : string)
    (calls : list (AuditChain.time_point * MedTechAdapter.call)) :
  no_quote device_id = true ->
  AuditChain.verify_chain
    (fst (run_calls MedTechAdapter.invoke
            (MedTechAdapter.new device_id device_type) calls)) = Ret true /\
  List.length
    (fst (run_calls MedTechAdapter.invoke
            (MedTechAdapter.new device_id device_type) calls))
  = List.length calls /\
  AuditChain.get_sequence_number
    (MedTechAdapter.chain_
       (snd (run_calls MedTechAdapter.invoke
               (MedTechAdapter.new device_id device_type) calls)))
  = Z.of_nat (List.length calls) mod 2 ^ 64.
Proof.
  intros H.
  exact (calls_keep_chain_valid _ _ MedTechAdapter.chain_ MedTechAdapter.invoke
           medtech_invoke_logs device_id
           (MedTechAdapter.new device_id device_type) calls eq_refl H).
Qed.

Lemma medtech_entries_verify_witness :
  no_quote "pump-7" = true /\
  AuditChain.verify_chain
    (fst (run_calls MedTechAdapter.invoke
            (MedTechAdapter.new "pump-7" "infusion pump")
            [ (sample_time, MedTechAdapter.Call_post_result true "");
              (sample_time,
               MedTechAdapter.Call_safety_alarm "OCCLUSION" MedTechAdapter.High
                 sample_message "") ])) = Ret true.
Proof.
  split; [reflexivity|].
  exact (proj1 (medtech_entries_verify "pump-7" "infusion pump" _ eq_refl)).
Defined.

Lemma clinical_invoke_cases (self : ClinicalTrialAdapter.t)
    (now : AuditChain.time_point) (c : ClinicalTrialAdapter.call) :
  ClinicalTrialAdapter.leaves_chain (ClinicalTrialAdapter.anonymizer_ self) ->
  ClinicalTrialAdapter.anonymizer_ (snd (ClinicalTrialAdapter.invoke self now c))
  = ClinicalTrialAdapter.anonymizer_ self /\
  ((exists e,
      fst (ClinicalTrialAdapter.invoke self now c) = Throw e /\
      ClinicalTrialAdapter.chain_ (snd (ClinicalTrialAdapter.invoke self now c))
      = ClinicalTrialAdapter.chain_ self) \/
   (exists message user_id severity,
      fst (ClinicalTrialAdapter.invoke self now c)
      = Ret (fst (AuditChain.log (ClinicalTrialAdapter.chain_ self) now message
                    user_id severity)) /\
      ClinicalTrialAdapter.chain_ (snd (ClinicalTrialAdapter.invoke self now c))
      = snd (AuditChain.log (ClinicalTrialAdapter.chain_ self) now message
               user_id severity))).
Proof.
  intros L. destruct c;
    unfold ClinicalTrialAdapter.invoke,
           ClinicalTrialAdapter.log_patient_enrolled,
           ClinicalTrialAdapter.log_visit_event,
           ClinicalTrialAdapter.log_data_collected,
           ClinicalTrialAdapter.log_protocol_deviation,
           ClinicalTrialAdapter.log_adverse_event,
           ClinicalTrialAdapter.log_data_export,
           ClinicalTrialAdapter.with_anon_id, ClinicalTrialAdapter.logged;
    try (pose proof (L patient_id (ClinicalTrialAdapter.chain_ self)) as Hc;
         destruct (ClinicalTrialAdapter.anonymizer_ self patient_id
                     (ClinicalTrialAdapter.chain_ self)) as [chain [anon_id|e]];
         cbn [fst] in Hc; subst chain);
    cbn [fst snd ClinicalTrialAdapter.chain_ ClinicalTrialAdapter.anonymizer_
         ClinicalTrialAdapter.protocol_id_];
    (split; [reflexivity|]);
    first [ left; eexists; split; reflexivity
          | right; eexists; eexists; eexists; split; reflexivity ].
Qed.

Lemma clinical_calls_events
    (calls : list (AuditChain.time_point * ClinicalTrialAdapter.call))
    (self : ClinicalTrialAdapter.t) :
  ClinicalTrialAdapter.leaves_chain (ClinicalTrialAdapter.anonymizer_ self) ->
  exists evs,
    List.length evs
    = List.length
        (fst (run_calls_catching ClinicalTrialAdapter.invoke self calls)) /\
    fst (run_calls_catching ClinicalTrialAdapter.invoke self calls)
    = fst (run (ClinicalTrialAdapter.chain_ self) evs) /\
    ClinicalTrialAdapter.chain_
      (snd (run_calls_catching ClinicalTrialAdapter.invoke self calls))
    = snd (run (ClinicalTrialAdapter.chain_ self) evs).
Proof.
  revert self; induction calls as [|[now c] calls IH]; intros self L.
  - exists []. repeat split.
  - destruct (clinical_invoke_cases self now c L) as [A H].
    cbn [run_calls_catching].
    destruct (ClinicalTrialAdapter.invoke self now c) as [outcome self'].
    cbn [fst snd] in A, H.
    assert (L' : ClinicalTrialAdapter.leaves_chain
                   (ClinicalTrialAdapter.anonymizer_ self'))
      by now rewrite A.
    destruct (IH self' L') as (evs & Hl & E1 & E2).
    destruct (run_calls_catching ClinicalTrialAdapter.invoke self' calls)
      as [entries final].
    cbn [fst snd] in *.
    destruct H as [(e & -> & Hc)|(m & u & sv & -> & Hc)]; cbn [fst snd].
    + exists evs. rewrite Hc in E1, E2. now split; [|split].
    + exists (Event now m u sv :: evs).
      split; [cbn [List.length]; now rewrite Hl|].
      cbn [run]. unfold log_event.
      cbn [ev_now ev_message ev_user ev_severity].
      rewrite (surjective_pairing
                 (AuditChain.log (ClinicalTrialAdapter.chain_ self) now m u sv)).
      rewrite <- Hc.
      destruct (run (ClinicalTrialAdapter.chain_ self') evs)
        as [entries' final'].
      cbn [fst snd] in *. subst. split; reflexivity.
Qed.

Lemma length_run_calls_catching
    (calls : list (AuditChain.time_point * ClinicalTrialAdapter.call))
    (self : ClinicalTrialAdapter.t) :
  (List.length
     (fst (run_calls_catching ClinicalTrialAdapter.invoke self calls))
   <= List.length calls)%nat.
Proof.
  revert self; induction calls as [|[now c] calls IH]; intros self;
    [apply Nat.le_refl|].
  cbn [run_calls_catching].
  destruct (ClinicalTrialAdapter.invoke self now c) as [outcome self'].
  specialize (IH self').
  destruct (run_calls_catching ClinicalTrialAdapter.invoke self' calls)
    as [entries final].
  cbn [fst] in *. destruct outcome; cbn [List.length]; lia.
Qed.

Lemma clinical_calls_all_return
    (calls : list (AuditChain.time_point * ClinicalTrialAdapter.call))
    (self : ClinicalTrialAdapter.t) :
  ClinicalTrialAdapter.leaves_chain (ClinicalTrialAdapter.anonymizer_ self) ->
  ClinicalTrialAdapter.never_throws (ClinicalTrialAdapter.anonymizer_ self) ->
  List.length
    (fst (run_calls_catching ClinicalTrialAdapter.invoke self calls))
  = List.length calls.
Proof.
  revert self; induction calls as [|[now c] calls IH]; intros self L N;
    [reflexivity|].
  destruct (clinical_invoke_cases self now c L) as [A _].
  assert (R : exists entry,
             fst (ClinicalTrialAdapter.invoke self now c) = Ret entry).
  { destruct c;
      unfold ClinicalTrialAdapter.invoke,
             ClinicalTrialAdapter.log_patient_enrolled,
             ClinicalTrialAdapter.log_visit_event,
             ClinicalTrialAdapter.log_data_collected,
             ClinicalTrialAdapter.log_protocol_deviation,
             ClinicalTrialAdapter.log_adverse_event,
             ClinicalTrialAdapter.log_data_export,
             ClinicalTrialAdapter.with_anon_id, ClinicalTrialAdapter.logged;
      try (destruct (N patient_id (ClinicalTrialAdapter.chain_ self))
             as [anon_id Hn];
           destruct (ClinicalTrialAdapter.anonymizer_ self patient_id
                       (ClinicalTrialAdapter.chain_ self)) as [chain outcome];
           cbn [snd] in Hn; subst outcome);
      cbn [fst]; eexists; reflexivity. }
  cbn [run_calls_catching].
  destruct (ClinicalTrialAdapter.invoke self now c) as [outcome self'].
  cbn [fst snd] in A, R. destruct R as [entry ->].
  assert (IH' := IH self').
  rewrite A in IH'. specialize (IH' L N).
  destruct (run_calls_catching ClinicalTrialAdapter.invoke self' calls)
    as [entries final].
  cbn [fst List.length] in *. now rewrite IH'.
Qed.

(** X21.  The entries of a [ClinicalTrialAdapter] whose device identifier
    has no double quote and whose anonymizer does not act on the chain (the
    default one, or one of the caller that may throw).  Whatever members
    are called, with whatever arguments, by a client that catches the
    exceptions: a call whose anonymizer throws returns no entry and leaves
    the chain as it was; the entries of the calls that return pass
    [verify_chain], and the sequence number counts them.  With an
    anonymizer that always returns, the default one for instance, every
    call returns an entry. *)
Theorem clinical_trial_entries_verify (device_id protocol_id : string)
    (anonymizer : option ClinicalTrialAdapter.AnonymizerFunc)
    (calls : list (AuditChain.time_point * ClinicalTrialAdapter.call)) :
  no_quote device_id = true ->
  ClinicalTrialAdapter.leaves_chain
    (ClinicalTrialAdapter.anonymizer_
       (ClinicalTrialAdapter.new device_id protocol_id anonymizer)) ->
  AuditChain.verify_chain
    (fst (run_calls_catching ClinicalTrialAdapter.invoke
            (ClinicalTrialAdapter.new device_id protocol_id anonymizer) calls))
  = Ret true /\
  (List.length
     (fst (run_calls_catching ClinicalTrialAdapter.invoke
             (ClinicalTrialAdapter.new device_id protocol_id anonymizer) calls))
   <= List.length calls)%nat /\
  AuditChain.get_sequence_number
    (ClinicalTrialAdapter.chain_
       (snd (run_calls_catching ClinicalTrialAdapter.invoke
               (ClinicalTrialAdapter.new device_id protocol_id anonymizer)
               calls)))
  = Z.of_nat
      (List.length
         (fst (run_calls_catching ClinicalTrialAdapter.invoke
                 (ClinicalTrialAdapter.new device_id protocol_id anonymizer)
                 calls))) mod 2 ^ 64 /\
  (ClinicalTrialAdapter.never_throws
     (ClinicalTrialAdapter.anonymizer_
        (ClinicalTrialAdapter.new device_id protocol_id anonymizer)) ->
   List.length
     (fst (run_calls_catching ClinicalTrialAdapter.invoke
             (ClinicalTrialAdapter.new device_id protocol_id anonymizer) calls))
   = List.length calls) /\
  ClinicalTrialAdapter.never_throws
    (ClinicalTrialAdapter.anonymizer_
       (ClinicalTrialAdapter.new device_id protocol_id None)).
Proof.
  intros Hd L.
  set (self := ClinicalTrialAdapter.new device_id protocol_id anonymizer) in *.
  destruct (clinical_calls_events calls self L) as (evs & Hl & E1 & E2).
  change (ClinicalTrialAdapter.chain_ self) with (AuditChain.new device_id)
    in E1, E2.
  fold (export device_id evs) in E1. fold (state_after device_id evs) in E2.
  split; [rewrite E1; now apply verify_chain_export|].
  split; [apply length_run_calls_catching|].
  split; [rewrite E2, <- Hl; apply sequence_number_state_after|].
  split; [intros N; now apply clinical_calls_all_return|].
  intros id chain. now eexists.
Qed.

Lemma clinical_trial_entries_verify_witness :
  no_quote "edc-3" = true /\
  ClinicalTrialAdapter.leaves_chain
    (ClinicalTrialAdapter.anonymizer_
       (ClinicalTrialAdapter.new "edc-3" "P-001" (Some strict_anonymizer))) /\
  AuditChain.verify_chain
    (fst (run_calls_catching ClinicalTrialAdapter.invoke
            (ClinicalTrialAdapter.new "edc-3" "P-001" (Some strict_anonymizer))
            [ (sample_time,
               ClinicalTrialAdapter.Call_patient_enrolled "" "site 4" "");
              (sample_time,
               ClinicalTrialAdapter.Call_patient_enrolled "patient 17" "site 4"
                 "");
              (sample_time,
               ClinicalTrialAdapter.Call_data_export "CRF" sample_message 12
                 true) ])) = Ret true.
Proof.
  assert (L : ClinicalTrialAdapter.leaves_chain
                (ClinicalTrialAdapter.anonymizer_
                   (ClinicalTrialAdapter.new "edc-3" "P-001"
                      (Some strict_anonymizer))))
    by (intros id chain; reflexivity).
  split; [reflexivity|]. split; [exact L|].
  exact (proj1 (clinical_trial_entries_verify "edc-3" "P-001"
                  (Some strict_anonymizer) _ eq_refl L)).
Defined.

(** X22.  The entries of a [DICOMAdapter]: whatever members are called,
    with whatever arguments, on an adapter whose device identifier has no
    double quote, the entries returned pass [verify_chain], one per call,
    and the sequence number counts the calls. *)
Theorem dicom_entries_verify (device_id ae_title : string)
    (calls : list (AuditChain.time_point * DICOMAdapter.call)) :
  no_quote device_id = true ->
  AuditChain.verify_chain
    (fst (run_calls DICOMAdapter.invoke
            (DICOMAdapter.new device_id ae_title) calls)) = Ret true /\
  List.length
    (fst (run_calls DICOMAdapter.invoke
            (DICOMAdapter.new device_id ae_title) calls))
  = List.length calls /\
  AuditChain.get_sequence_number
    (DICOMAdapter.chain_
       (snd (run_calls DICOMAdapter.invoke
               (DICOMAdapter.new device_id ae_title) calls)))
  = Z.of_nat (List.length calls) mod 2 ^ 64.
Proof.
  intros H.
  exact (calls_keep_chain_valid _ _ DICOMAdapter.chain_ DICOMAdapter.invoke
           dicom_invoke_logs device_id (DICOMAdapter.new device_id ae_title)
           calls eq_refl H).
Qed.

Lemma dicom_entries_verify_witness :
  no_quote "pacs-1" = true /\
  AuditChain.verify_chain
    (fst (run_calls DICOMAdapter.invoke
            (DICOMAdapter.new "pacs-1" "AE-01")
            [ (sample_time,
               DICOMAdapter.Call_study_created "1.2.840" "P1" "CT"
                 AuditChain.Operator);
              (sample_time,
               DICOMAdapter.Call_access_event "1.2.840" AuditChain.Unauthorized
                 false sample_message) ])) = Ret true.
Proof.
  split; [reflexivity|].
  exact (proj1 (dicom_entries_verify "pacs-1" "AE-01" _ eq_refl)).
Defined.

(** X23.  The entries of an [IndustrialAdapter]: whatever members are
    called, with whatever arguments, on an adapter whose device identifier
    has no double quote, the entries returned pass [verify_chain], one per
    call, and the sequence number counts the calls. *)
Theorem industrial_entries_verify (device_id asset_tag line_id : string)
    (calls : list (AuditChain.time_point * IndustrialAdapter.call)) :
  no_quote device_id = true ->
  AuditChain.verify_chain
    (fst (run_calls IndustrialAdapter.invoke
            (IndustrialAdapter.new device_id asset_tag line_id) calls))
  = Ret true /\
  List.length
    (fst (run_calls IndustrialAdapter.invoke
            (IndustrialAdapter.new device_id asset_tag line_id) calls))
  = List.length calls /\
  AuditChain.get_sequence_number
    (IndustrialAdapter.chain_
       (snd (run_calls IndustrialAdapter.invoke
               (IndustrialAdapter.new device_id asset_tag line_id) calls)))
  = Z.of_nat (List.length calls) mod 2 ^ 64.
Proof.
  intros H.
  exact (calls_keep_chain_valid _ _ IndustrialAdapter.chain_
           IndustrialAdapter.invoke industrial_invoke_logs device_id
           (IndustrialAdapter.new device_id asset_tag line_id) calls eq_refl H).
Qed.

Lemma industrial_entries_verify_witness :
  no_quote "plc-9" = true /\
  AuditChain.verify_chain
    (fst (run_calls IndustrialAdapter.invoke
            (IndustrialAdapter.new "plc-9" "A-17" "")
            [ (sample_time, IndustrialAdapter.Call_plc_event "Main" (-1) "");
              (sample_time,
               IndustrialAdapter.Call_protocol_event IndustrialAdapter.Modbus
                 "10.0.0.1" "10.0.0.2" sample_message false) ])) = Ret true.
Proof.
  split; [reflexivity|].
  exact (proj1 (industrial_entries_verify "plc-9" "A-17" "" _ eq_refl)).
Defined.

(** X24.  The entries of a [BuildingAutomationAdapter], for the members
    that print no floating-point number: whatever members are called, with
    whatever arguments, on an adapter whose device identifier has no double
    quote, the entries returned pass [verify_chain], one per call, and the
    sequence number counts the calls. *)
Theorem building_entries_verify (device_id building_id zone_id : string)
    (calls : list (AuditChain.time_point * BuildingAutomationAdapter.call)) :
  no_quote device_id = true ->
  AuditChain.verify_chain
    (fst (run_calls BuildingAutomationAdapter.invoke
            (BuildingAutomationAdapter.new device_id building_id zone_id) calls))
  = Ret true /\
  List.length
    (fst (run_calls BuildingAutomationAdapter.invoke
            (BuildingAutomationAdapter.new device_id building_id zone_id) calls))
  = List.length calls /\
  AuditChain.get_sequence_number
    (BuildingAutomationAdapter.chain_
       (snd (run_calls BuildingAutomationAdapter.invoke
               (BuildingAutomationAdapter.new device_id building_id zone_id)
               calls)))
  = Z.of_nat (List.length calls) mod 2 ^ 64.
Proof.
  intros H.
  exact (calls_keep_chain_valid _ _ BuildingAutomationAdapter.chain_
           BuildingAutomationAdapter.invoke building_invoke_logs device_id
           (BuildingAutomationAdapter.new device_id building_id zone_id) calls
           eq_refl H).
Qed.

Lemma building_entries_verify_witness :
  no_quote "bas-2" = true /\
  AuditChain.verify_chain
    (fst (run_calls BuildingAutomationAdapter.invoke
            (BuildingAutomationAdapter.new "bas-2" "HQ" "Z1")
            [ (sample_time,
               BuildingAutomationAdapter.Call_lighting_event "Lobby" 0 80 "manual");
              (sample_time,
               BuildingAutomationAdapter.Call_access_control "D1" sample_message
                 false "badge expired") ])) = Ret true.
Proof.
  split; [reflexivity|].
  exact (proj1 (building_entries_verify "bas-2" "HQ" "Z1" _ eq_refl)).
Defined.

(** ** The anonymizer *)

Lemma take_16_of_eight (b0 b1 b2 b3 b4 b5 b6 b7 : Z) (rest : string) :
  take 16 (two_digits b0 ++ two_digits b1 ++ two_digits b2 ++ two_digits b3 ++
           two_digits b4 ++ two_digits b5 ++ two_digits b6 ++ two_digits b7 ++
           rest)
  = two_digits b0 ++ two_digits b1 ++ two_digits b2 ++ two_digits b3 ++
    two_digits b4 ++ two_digits b5 ++ two_digits b6 ++ two_digits b7.
Proof. reflexivity. Qed.

Lemma default_anonymizer_of_digest (hash : list Z) :
  is_digest hash = true ->
  fold_right (fun i ss => setw 2 "0" (render_hex (nth i hash 0)) ++ ss)
             EmptyString (seq 0 8)
  = take 16 (AuditChain.hash_to_hex hash).
Proof.
  unfold is_digest. intros H. apply andb_prop in H as [L B].
  apply Nat.eqb_eq in L.
  do 8 (destruct hash as [|? hash]; [discriminate L|]).
  cbn [forallb] in B.
  repeat match type of B with (_ && _ = true) =>
    let B1 := fresh "B" in apply andb_prop in B as [B1 B];
    apply is_byte_range in B1 end.
  cbn [seq fold_right nth].
  rewrite !setw_render_hex_byte by assumption.
  rewrite !hash_to_hex_cons by assumption.
  rewrite take_16_of_eight. reflexivity.
Qed.

Lemma anonymous_id_shape (s : string) :
  String.length s = 64%nat -> lower_hex s = true ->
  String.length ("ANON-" ++ take 16 s) = 21%nat /\
  lower_hex (drop 5 ("ANON-" ++ take 16 s)) = true.
Proof.
  intros Hn Hl.
  do 16 (destruct s as [|? s]; [discriminate Hn|]).
  split; [reflexivity|].
  cbn [append drop take]. unfold lower_hex in *. cbn [all_chars] in *.
  repeat match type of Hl with (_ && _ = true) =>
    let H1 := fresh "H" in apply andb_prop in Hl as [H1 Hl]; rewrite H1 end.
  reflexivity.
Qed.

Lemma default_anonymizer_text (id : string) :
  ClinicalTrialAdapter.default_anonymizer id
  = "ANON-" ++ take 16 (AuditChain.hash_to_hex (SHA256.hash_str id)).
Proof.
  unfold ClinicalTrialAdapter.default_anonymizer.
  now rewrite default_anonymizer_of_digest by apply is_digest_hash_str.
Qed.

(** X25.  The default anonymizer of [ClinicalTrialAdapter] returns
    [ANON-] followed by the first sixteen characters of the digest of the
    patient identifier as [hash_to_hex] prints it: twenty-one characters,
    the last sixteen lower-case hexadecimal digits, whatever the
    identifier. *)
Theorem default_anonymizer_shape (id : string) :
  ClinicalTrialAdapter.default_anonymizer id
  = "ANON-" ++ take 16 (AuditChain.hash_to_hex (SHA256.hash_str id)) /\
  String.length (ClinicalTrialAdapter.default_anonymizer id) = 21%nat /\
  lower_hex (drop 5 (ClinicalTrialAdapter.default_anonymizer id)) = true.
Proof.
  rewrite default_anonymizer_text. split; [reflexivity|].
  apply anonymous_id_shape; [|apply lower_hex_hash_to_hex].
  apply length_hex_digest, is_digest_hash_str.
Qed.

(** ** The digest that [get_chain_hash] returns *)

(** X26.  After an append, [get_chain_hash] returns the text of the
    [chain_hash] field of the entry just returned, as [verify_chain] reads
    it, for a chain whose device identifier has no double quote; on a new
    chain it returns the printed digest of [DTS_INIT]. *)
Theorem get_chain_hash_is_last_chain_hash (d : string) (evs : list event)
    (ev : event) :
  no_quote d = true ->
  AuditChain.get_chain_hash (AuditChain.new d)
  = AuditChain.hash_to_hex (SHA256.hash_str "DTS_INIT") /\
  exists c,
    find (fst (log_event (state_after d evs) ev)) AuditChain.key_chain_hash
    = Some c /\
    AuditChain.extract_hex (fst (log_event (state_after d evs) ev)) (c + 14)
    = AuditChain.get_chain_hash (snd (log_event (state_after d evs) ev)).
Proof.
  intros Hd. split; [reflexivity|].
  pose proof (wf_trace (state_after d evs) [ev]) as W.
  rewrite device_id_state_after in W.
  specialize (W Hd (is_digest_state_after d evs)).
  cbn [trace] in W. inversion W as [|e l We _]; subst.
  destruct (wf_entry_fields _ We) as (p & c & _ & Fc & _ & Xc).
  exists c.
  assert (E : fst (log_event (state_after d evs) ev)
              = serialize (fields_of (state_after d evs) ev)).
  { unfold log_event, AuditChain.log, serialize, fields_of.
    cbn [fst ef_head ef_prev ef_chain]. apply log_entry_shape. }
  rewrite E. split; [exact Fc|].
  rewrite Xc, chain_field_of_entry.
  unfold AuditChain.get_chain_hash. reflexivity.
Qed.

Lemma get_chain_hash_is_last_chain_hash_witness :
  no_quote "pump-7" = true /\
  exists c,
    find (fst (log_event (state_after "pump-7" [boot]) boot))
         AuditChain.key_chain_hash = Some c /\
    AuditChain.extract_hex (fst (log_event (state_after "pump-7" [boot]) boot))
                           (c + 14)
    = AuditChain.get_chain_hash
        (snd (log_event (state_after "pump-7" [boot]) boot)).
Proof.
  split; [reflexivity|].
  exact (proj2 (get_chain_hash_is_last_chain_hash "pump-7" [boot] boot eq_refl)).
Defined.

(** ** What an entry tells about the call *)

(** X27.  The entry determines the message: two entries with the same
    device identifier, time stamp, actor and severity that are equal as
    texts carry the same message, whatever characters the messages hold.
    The closing quote of the message field cannot be taken for a part of
    the message. *)
Theorem entry_determines_message (d ts : string) (u : AuditChain.UserID)
    (sv : AuditChain.Severity) (m1 m2 : string) (p1 c1 p2 c2 : list Z) :
  AuditChain.log_entry_of d ts u sv m1 p1 c1
  = AuditChain.log_entry_of d ts u sv m2 p2 c2 ->
  m1 = m2.
Proof.
  rewrite !log_entry_around_message. intros H.
  do 6 apply append_inv_head in H.
  cbn [q append] in H.
  apply (f_equal json_string_tail) in H.
  rewrite !json_string_tail_escape_json in H.
  now injection H.
Qed.

Lemma entry_determines_message_witness :
  AuditChain.log_entry_of "pump-7" "t" AuditChain.System AuditChain.Info
    sample_message [] []
  = AuditChain.log_entry_of "pump-7" "t" AuditChain.System AuditChain.Info
      sample_message [] [] /\
  sample_message = sample_message.
Proof.
  split; [reflexivity|].
  exact (entry_determines_message "pump-7" "t" AuditChain.System
           AuditChain.Info sample_message sample_message [] [] [] [] eq_refl).
Defined.

(** X28.  The message of an adapter does not determine the arguments of
    the call.  The fields are joined by [ | ] and a label, and the
    arguments are not escaped: in [MedTechAdapter::log_maintenance] a
    maintenance type that ends in a technician field and a technician
    identifier that starts with one give the same entry and the same chain,
    for all texts. *)
Theorem maintenance_fields_are_ambiguous (self : MedTechAdapter.t)
    (now : AuditChain.time_point) (a b c notes : string) :
  MedTechAdapter.log_maintenance self now (a ++ " | Technician:" ++ b) c notes
  = MedTechAdapter.log_maintenance self now a (b ++ " | Technician:" ++ c)
      notes.
Proof.
  unfold MedTechAdapter.log_maintenance.
  rewrite !append_assoc. reflexivity.
Qed.
